(** * The SoX command-line driver (src/sox.c): combiner, chain builder,
      pull scheduler and clip accounting, as a shallow embedding.

    The driver is C code over process-wide state.  Every function below is a
    translation of the function of the same name in sox.c; the state it reads
    and writes is passed explicitly.  Calls to [exit] are results of type
    [outcome].  What sox.c takes from libSoX (sox.h, sox_i.h and the effect
    and format handlers), none of which is part of the sources, is either a
    field of the classes [Platform] and [Libsox] or a handler stored in the
    effect table, so that every statement holds for all of them. *)

From Stdlib Require Import ZArith QArith Qround Lia.
From stdpp Require Import base list strings numbers.

#[local] Open Scope Z_scope.

(** ** Results of code that may leave through [exit] *)

Inductive outcome (A : Type) : Type :=
| Ret (a : A)
| Exit (code : Z) (msg : string).
Arguments Ret {A} a.
Arguments Exit {A} code msg.

Definition bind {A B : Type} (m : outcome A) (k : A -> outcome B) : outcome B :=
  match m with
  | Ret a => k a
  | Exit c msg => Exit c msg
  end.

Notation "'do' p <- m ; k" := (bind m (fun x => let 'p := x in k))
  (at level 10, p pattern, m at level 100, k at level 200, only parsing).

(** ** Machine integers *)

(** [sox_size_t] (an unsigned type, printed with "%u" by sox.c) and the
    buffer size [sox_bufsiz] (a libSoX global, 8192 unless --buffer sets it)
    are declared outside sox.c: the largest [sox_size_t] and the buffer size
    are parameters. *)
Class Platform : Type := {
  SOX_SIZE_MAX : Z;
  sox_bufsiz : Z
}.

(** Arithmetic on [sox_size_t] wraps around. *)
Definition sz `{Platform} (x : Z) : Z := x mod (SOX_SIZE_MAX + 1).

(** A platform on which a buffer can be addressed: every number of samples
    up to the buffer size, and one more, is a [sox_size_t]. *)
Definition platform_ok `{Platform} : Prop :=
  0 < sox_bufsiz /\ sox_bufsiz < SOX_SIZE_MAX.

(** Modelled from the spec: a sample is a signed 32-bit two's-complement
    integer; SOX_SAMPLE_MAX and SOX_SAMPLE_MIN of sox.h are the ends of that
    range. *)
Definition SOX_SAMPLE_MAX : Z := 2147483647.
Definition SOX_SAMPLE_MIN : Z := -2147483648.

(** Modelled from the spec: SOX_ROUND_CLIP_COUNT is a macro of sox.h; it
    rounds a double to a sample, clips it to the canonical sample range and
    increments the counter it is given at each saturation.  Both of its uses
    modelled here apply it to the sum of two samples, an integer that a
    double holds exactly and that rounding leaves unchanged. *)
Definition SOX_ROUND_CLIP_COUNT `{Platform} (d : Z) (clips : Z) : Z * Z :=
  if d <? 0 then
    if d <? SOX_SAMPLE_MIN then (SOX_SAMPLE_MIN, sz (clips + 1)) else (d, clips)
  else
    if SOX_SAMPLE_MAX <? d then (SOX_SAMPLE_MAX, sz (clips + 1)) else (d, clips).

(** ** Doubles

    [volume], [replay_gain] and [compression] are doubles that sox.c compares
    with the marker HUGE_VAL ("not given"), sets to constants and to
    1.0 / input_count, and scales.  They are modelled by exact rationals next
    to the marker; rounding is not modelled. *)
Inductive double : Type :=
| Fin (q : Q)
| HUGE_VAL.

Definition double_eqb (a b : double) : bool :=
  match a, b with
  | Fin x, Fin y => Qeq_bool x y
  | HUGE_VAL, HUGE_VAL => true
  | _, _ => false
  end.

Definition double_mul (a b : double) : double :=
  match a, b with
  | Fin x, Fin y => Fin (x * y)
  | _, _ => HUGE_VAL
  end.

Definition double_div (a b : double) : double :=
  match a, b with
  | Fin x, Fin y => if Qeq_bool y 0 then HUGE_VAL else Fin (x / y)
  | _, _ => HUGE_VAL
  end.

Definition double_of_Z (z : Z) : double := Fin (inject_Z z).

(** ** Signal and file descriptors (the fields sox.c reads) *)

(** sox.h is not part of the sources.  The encodings are those that sox.c
    names, by their names; [SOX_ENCODING_OTHER] stands for the encodings of
    sox.h that it does not name. *)
Inductive sox_encoding_t : Type :=
| SOX_ENCODING_UNKNOWN
| SOX_ENCODING_SIGN2
| SOX_ENCODING_UNSIGNED
| SOX_ENCODING_FLOAT
| SOX_ENCODING_ADPCM
| SOX_ENCODING_MS_ADPCM
| SOX_ENCODING_IMA_ADPCM
| SOX_ENCODING_OKI_ADPCM
| SOX_ENCODING_GSM
| SOX_ENCODING_ULAW
| SOX_ENCODING_ALAW
| SOX_ENCODING_OTHER (n : Z).

(** [sox_option_t] *)
Inductive sox_option_t : Type :=
| SOX_OPTION_NO
| SOX_OPTION_YES
| SOX_OPTION_DEFAULT.

(** What sox.c stores in [signal.reverse_bytes], by name: SOX_IS_BIGENDIAN
    and SOX_IS_LITTLEENDIAN are one of them SOX_OPTION_NO and the other
    SOX_OPTION_YES, which is which being the host's. *)
Inductive reverse_bytes_t : Type :=
| REVERSE_DEFAULT                 (* SOX_OPTION_DEFAULT *)
| REVERSE_IS_BIGENDIAN            (* SOX_IS_BIGENDIAN *)
| REVERSE_IS_LITTLEENDIAN         (* SOX_IS_LITTLEENDIAN *)
| REVERSE_YES.                    (* SOX_OPTION_YES, sox_true *)

(** Modelled from the spec: the sample sizes of sox.h are the sizes in
    bytes, 1, 2, 3, 4 and 8. *)
Definition SOX_SIZE_BYTE : Z := 1.
Definition SOX_SIZE_16BIT : Z := 2.
Definition SOX_SIZE_24BIT : Z := 3.
Definition SOX_SIZE_32BIT : Z := 4.
Definition SOX_SIZE_64BIT : Z := 8.

Record sox_signalinfo_t : Type := {
  si_rate : Z;
  si_size : Z;                (* -1: not given *)
  si_encoding : sox_encoding_t;
  si_channels : Z;
  si_compression : double;
  si_reverse_bytes : reverse_bytes_t;
  si_reverse_nibbles : sox_option_t;
  si_reverse_bits : sox_option_t
}.

(** The libSoX file descriptor [ft_t]. *)
Record sox_format : Type := {
  ft_signal : sox_signalinfo_t;
  ft_length : Z;              (* in samples; 0 if unknown *)
  ft_clips : Z;
  ft_comment : option string
}.

(** [struct file_info]; [desc] is NULL until the file is opened. *)
Record file_info : Type := {
  filename : string;
  filetype : option string;
  signal : sox_signalinfo_t;
  volume : double;
  replay_gain : double;
  comment : option string;
  volume_clips : Z;
  desc : option sox_format
}.

Definition unknown_signal : sox_signalinfo_t :=
  {| si_rate := 0; si_size := -1; si_encoding := SOX_ENCODING_UNKNOWN; si_channels := 0;
     si_compression := HUGE_VAL; si_reverse_bytes := REVERSE_DEFAULT;
     si_reverse_nibbles := SOX_OPTION_DEFAULT; si_reverse_bits := SOX_OPTION_DEFAULT |}.

Definition null_format : sox_format :=
  {| ft_signal := unknown_signal; ft_length := 0; ft_clips := 0;
     ft_comment := None |}.

(** [new_file]. *)
Definition new_file : file_info :=
  {| filename := ""; filetype := None; signal := unknown_signal;
     volume := HUGE_VAL; replay_gain := HUGE_VAL; comment := None;
     volume_clips := 0; desc := None |}.

(** [files[i]->desc->signal.channels] and the like; the descriptor of a file
    that is not open reads as [null_format]. *)
Definition desc_of (f : file_info) : sox_format := default null_format (desc f).
Definition desc_channels (f : file_info) : Z := si_channels (ft_signal (desc_of f)).
Definition desc_rate (f : file_info) : Z := si_rate (ft_signal (desc_of f)).
Definition desc_length (f : file_info) : Z := ft_length (desc_of f).

#[global] Instance file_info_inhabited : Inhabited file_info := populate new_file.

Inductive combine_method_t : Type :=
| sox_sequence | sox_concatenate | sox_mix | sox_merge.

(** The enumeration's integer value, for [combine_method <= sox_concatenate]. *)
Definition combine_rank (m : combine_method_t) : Z :=
  match m with
  | sox_sequence => 0 | sox_concatenate => 1 | sox_mix => 2 | sox_merge => 3
  end.

Definition combine_method_eqb (a b : combine_method_t) : bool :=
  combine_rank a =? combine_rank b.

(** A counted loop [for (i = start; i < start + n; ++i) body]. *)
Definition for_up {S : Type} (start n : nat) (body : nat -> S -> S) (s : S) : S :=
  foldl (fun acc i => body i acc) s (seq start n).

(** ** The combiner: [process], the mix and merge loops (lines 1240-1261)

    [ibuf[i]] holds the block read from input [i] and balanced by
    [balance_input]; [ilen[i]] is its length in wide samples.  [p] walks
    through [efftab[0].obuf]. *)

Record combiner_state : Type := {
  cs_obuf : list Z;           (* efftab[0].obuf *)
  cs_p : nat;                 (* p - efftab[0].obuf *)
  cs_mixing_clips : Z         (* the global mixing_clips *)
}.

Section Combiner.
Context `{Platform}.
Variable files : list file_info.
Variable input_count : nat.
Variable ilen : list Z.
Variable ibuf : list (list Z).

(** [ibuf[i][ws * files[i]->desc->signal.channels + s]] *)
Definition ibuf_at (i : nat) (ws s : Z) : Z :=
  (ibuf !!! i) !!! Z.to_nat (sz (sz (ws * desc_channels (files !!! i)) + s)).

(** Lines 1251-1255, the body of the loop over the inputs. *)
Definition mix_input (ws s : Z) (i : nat) (st : combiner_state) : combiner_state :=
  if (ws <? ilen !!! i) && (s <? desc_channels (files !!! i)) then
    let sample := cs_obuf st !!! cs_p st + ibuf_at i ws s in
    let '(v, clips) := SOX_ROUND_CLIP_COUNT sample (cs_mixing_clips st) in
    {| cs_obuf := <[cs_p st := v]> (cs_obuf st); cs_p := cs_p st;
       cs_mixing_clips := clips |}
  else st.

(** Lines 1248-1256, the body of the loop over the channels:
    [*p = 0], the loop over the inputs, [++p]. *)
Definition mix_sample (ws : Z) (s : nat) (st : combiner_state) : combiner_state :=
  let st0 := {| cs_obuf := <[cs_p st := 0]> (cs_obuf st); cs_p := cs_p st;
                cs_mixing_clips := cs_mixing_clips st |} in
  let st1 := for_up 0 input_count (mix_input ws (Z.of_nat s)) st0 in
  {| cs_obuf := cs_obuf st1; cs_p := S (cs_p st1);
     cs_mixing_clips := cs_mixing_clips st1 |}.

(** Line 1260: [*p++ = (ws < ilen[i]) * ibuf[i][...]]. *)
Definition merge_sample (ws : Z) (i : nat) (s : nat) (st : combiner_state)
  : combiner_state :=
  let v := (if ws <? ilen !!! i then 1 else 0) * ibuf_at i ws (Z.of_nat s) in
  {| cs_obuf := <[cs_p st := v]> (cs_obuf st); cs_p := S (cs_p st);
     cs_mixing_clips := cs_mixing_clips st |}.

Definition merge_input (ws : Z) (i : nat) (st : combiner_state) : combiner_state :=
  for_up 0 (Z.to_nat (desc_channels (files !!! i))) (merge_sample ws i) st.

(** Lines 1246-1261: the loop over the wide samples of the block;
    [olen] is [efftab[0].olen], the longest [ilen[i]]. *)
Definition combine_wide (combine_method : combine_method_t)
    (combiner_channels : Z) (ws : nat) (st : combiner_state) : combiner_state :=
  if combine_method_eqb combine_method sox_mix then
    for_up 0 (Z.to_nat combiner_channels) (mix_sample (Z.of_nat ws)) st
  else
    for_up 0 input_count (merge_input (Z.of_nat ws)) st.

Definition combine_block (combine_method : combine_method_t)
    (combiner_channels : Z) (olen : Z) (obuf : list Z) (mixing_clips : Z)
  : combiner_state :=
  for_up 0 (Z.to_nat olen) (combine_wide combine_method combiner_channels)
    {| cs_obuf := obuf; cs_p := 0%nat; cs_mixing_clips := mixing_clips |}.

(** *** What the mix is claimed to compute *)

(** The samples that take part in output sample [(ws, s)], in input order:
    those of the inputs that have a channel [s] and a wide sample [ws] in
    the block read. *)
Definition contributions (ws s : Z) : list Z :=
  omap (fun i =>
          if (ws <? ilen !!! i) && (s <? desc_channels (files !!! i))
          then Some ((ibuf !!! i) !!! Z.to_nat (ws * desc_channels (files !!! i) + s))
          else None)
       (seq 0 input_count).
End Combiner.

Definition clip_sample (d : Z) : Z :=
  Z.max SOX_SAMPLE_MIN (Z.min SOX_SAMPLE_MAX d).

Definition saturates (d : Z) : bool :=
  (d <? SOX_SAMPLE_MIN) || (SOX_SAMPLE_MAX <? d).

(** The saturating sum of a list of samples, added up from the left, and the
    number of additions that saturate. *)
Definition saturating_sum (xs : list Z) : Z :=
  foldl (fun acc x => clip_sample (acc + x)) 0 xs.

Fixpoint saturations_from (acc : Z) (xs : list Z) : Z :=
  match xs with
  | [] => 0
  | x :: xs' =>
      (if saturates (acc + x) then 1 else 0)
      + saturations_from (clip_sample (acc + x)) xs'
  end.

Definition saturations (xs : list Z) : Z := saturations_from 0 xs.

(** The saturations of the first [j] samples of wide sample [ws], added to
    [a], and those of a whole block of [olen] wide samples of [channels]
    samples each. *)
Definition row_saturations (contrib : Z -> Z -> list Z) (ws j : nat) (a : Z) : Z :=
  for_up 0 j (fun s a' => a' + saturations (contrib (Z.of_nat ws) (Z.of_nat s))) a.

Definition block_saturations (contrib : Z -> Z -> list Z) (channels olen : nat) : Z :=
  for_up 0 olen (fun ws a => row_saturations contrib ws channels a) 0.

(** What holds of the mix once the samples before sample [j] of wide sample
    [ws] are done: [p] is there, they hold the saturating sums, and the
    counter has counted their saturations on top of [c0]. *)
Definition mixed_upto `{Platform} (contrib : Z -> Z -> list Z) (channels : nat)
    (obuf : list Z) (c0 : Z) (ws j : nat) (st : combiner_state) : Prop :=
  cs_p st = (ws * channels + j)%nat
  /\ length (cs_obuf st) = length obuf
  /\ (forall w s, (s < channels)%nat -> (w * channels + s < ws * channels + j)%nat ->
        cs_obuf st !! (w * channels + s)%nat
        = Some (saturating_sum (contrib (Z.of_nat w) (Z.of_nat s))))
  /\ cs_mixing_clips st
     = sz (c0 + row_saturations contrib ws j (block_saturations contrib channels ws)).

(** ** Effects

    Modelled from the spec: the capability flags of an effect are a bitset
    over MULTICHAN, CHAN, RATE, LENGTH, NULL and DEPRECATED; sox.h gives each
    a bit of its own, and which bit is immaterial here. *)
Definition SOX_EFF_CHAN : Z := 1.
Definition SOX_EFF_RATE : Z := 2.
Definition SOX_EFF_MCHAN : Z := 4.
Definition SOX_EFF_NULL : Z := 8.
Definition SOX_EFF_DEPRECATED : Z := 16.
Definition SOX_EFF_LENGTH : Z := 32.

(** The status codes of sox.h; sox.c itself compares a status with the
    literal 0 for success. *)
Definition SOX_SUCCESS : Z := 0.
Definition SOX_EOF : Z := -1.

(** A handler is called with [effp], a pointer to its [struct sox_effect].
    Of that structure it reads and updates the private state and the clip
    counter.  [flow] is given the input samples and the numbers [*isamp] and
    [*osamp]; it answers with the number of samples consumed and the samples
    written from [obuf[0]] on, whose number is [*osamp] on return.  [drain]
    likewise. *)
Record flow_result (P : Type) : Type := {
  fr_priv : P;
  fr_clips : Z;
  fr_status : Z;
  fr_isamp : Z;
  fr_obuf : list Z
}.
Arguments fr_priv {P} _.
Arguments fr_clips {P} _.
Arguments fr_status {P} _.
Arguments fr_isamp {P} _.
Arguments fr_obuf {P} _.

Record drain_result (P : Type) : Type := {
  dr_priv : P;
  dr_clips : Z;
  dr_status : Z;
  dr_obuf : list Z
}.
Arguments dr_priv {P} _.
Arguments dr_clips {P} _.
Arguments dr_status {P} _.
Arguments dr_obuf {P} _.

(** The result of [getopts], [start], [stop] and [kill]. *)
Record call_result (P : Type) : Type := {
  cr_priv : P;
  cr_clips : Z;
  cr_status : Z
}.
Arguments cr_priv {P} _.
Arguments cr_clips {P} _.
Arguments cr_status {P} _.

Definition flow_fn (P : Type) : Type := P -> Z -> list Z -> Z -> Z -> flow_result P.
Definition drain_fn (P : Type) : Type := P -> Z -> Z -> drain_result P.
Definition call_fn (P : Type) : Type := P -> Z -> call_result P.
Definition getopts_fn (P : Type) : Type := P -> Z -> list string -> call_result P.

(** [sox_effect_t], the handler table [h] of an effect; a handler that is
    NULL is [None]. *)
Record sox_effect_t (P : Type) : Type := {
  h_flags : Z;
  h_getopts : option (getopts_fn P);
  h_start : option (call_fn P);
  h_flow : option (flow_fn P);
  h_drain : option (drain_fn P);
  h_stop : option (call_fn P);
  h_kill : option (call_fn P)
}.
Arguments h_flags {P} _.
Arguments h_getopts {P} _.
Arguments h_start {P} _.
Arguments h_flow {P} _.
Arguments h_drain {P} _.
Arguments h_stop {P} _.
Arguments h_kill {P} _.

(** [struct sox_effect]; [name] is NULL in a zeroed entry of [efftabR]. *)
Record sox_effect (P : Type) : Type := {
  name : option string;
  h : sox_effect_t P;
  priv : P;
  clips : Z;
  ininfo : sox_signalinfo_t;
  outinfo : sox_signalinfo_t;
  obuf : list Z;
  olen : Z;
  odone : Z
}.
Arguments name {P} _.
Arguments h {P} _.
Arguments priv {P} _.
Arguments clips {P} _.
Arguments ininfo {P} _.
Arguments outinfo {P} _.
Arguments obuf {P} _.
Arguments olen {P} _.
Arguments odone {P} _.

Definition has_flag {P : Type} (e : sox_effect P) (flag : Z) : bool :=
  negb (Z.land (h_flags (h e)) flag =? 0).

(** What sox.c calls in libSoX. *)
Class Libsox (P F : Type) : Type := {
  (* the private state of a zeroed effect *)
  zero_priv : P;
  (* the handlers used where an effect has none *)
  sox_effect_nothing : call_fn P;
  sox_effect_nothing_getopts : getopts_fn P;
  sox_effect_nothing_flow : flow_fn P;
  sox_effect_nothing_drain : drain_fn P;
  (* sox_geteffect(e, name): the effect of that name, ready for getopts *)
  sox_geteffect : string -> sox_effect P;
  (* sox_updateeffect(e, in, out, mask): the effect with its format
     information, and the new mask *)
  sox_updateeffect :
    sox_effect P -> sox_signalinfo_t -> sox_signalinfo_t -> Z -> sox_effect P * Z;
  (* sox_write(ft, buf, len): the samples are buf[0..len); the number of
     samples written *)
  sox_write : F -> list Z -> F * Z
}.

Definition null_handlers {P : Type} : sox_effect_t P :=
  {| h_flags := 0; h_getopts := None; h_start := None; h_flow := None;
     h_drain := None; h_stop := None; h_kill := None |}.

(** A [struct sox_effect] after [memset(..., 0, ...)]. *)
Definition zero_effect {P F : Type} `{Libsox P F} : sox_effect P :=
  {| name := None; h := null_handlers; priv := zero_priv; clips := 0;
     ininfo := unknown_signal; outinfo := unknown_signal;
     obuf := []; olen := 0; odone := 0 |}.

#[global] Instance sox_effect_inhabited {P F : Type} `{Libsox P F}
  : Inhabited (sox_effect P) := populate zero_effect.

Definition set_odone {P : Type} (v : Z) (e : sox_effect P) : sox_effect P :=
  {| name := name e; h := h e; priv := priv e; clips := clips e;
     ininfo := ininfo e; outinfo := outinfo e;
     obuf := obuf e; olen := olen e; odone := v |}.

Definition set_olen {P : Type} (v : Z) (e : sox_effect P) : sox_effect P :=
  {| name := name e; h := h e; priv := priv e; clips := clips e;
     ininfo := ininfo e; outinfo := outinfo e;
     obuf := obuf e; olen := v; odone := odone e |}.

Definition set_obuf {P : Type} (v : list Z) (e : sox_effect P) : sox_effect P :=
  {| name := name e; h := h e; priv := priv e; clips := clips e;
     ininfo := ininfo e; outinfo := outinfo e;
     obuf := v; olen := olen e; odone := odone e |}.

Definition set_clips {P : Type} (v : Z) (e : sox_effect P) : sox_effect P :=
  {| name := name e; h := h e; priv := priv e; clips := v;
     ininfo := ininfo e; outinfo := outinfo e;
     obuf := obuf e; olen := olen e; odone := odone e |}.

(** What a handler leaves in [*effp]. *)
Definition set_effp {P : Type} (p : P) (c : Z) (e : sox_effect P) : sox_effect P :=
  {| name := name e; h := h e; priv := p; clips := c;
     ininfo := ininfo e; outinfo := outinfo e;
     obuf := obuf e; olen := olen e; odone := odone e |}.

(** ** [process]: the checks on the inputs and the predicted output length
       (lines 1074-1133) *)

Record input_scan : Type := {
  total_channels : Z;
  min_channels : Z;
  max_channels : Z;
  min_rate : Z;
  max_rate : Z;
  known_length : bool;
  scan_olen : Z                 (* the local [olen] of [process] *)
}.

Section Process.
Context {P F : Type} `{Platform} `{Libsox P F}.
Variable combine_method : combine_method_t.
Variable files : list file_info.
Variable input_count : nat.

(** Lines 1088-1100, the body of the loop over the inputs.  The division by
    [signal.channels] is C's; a descriptor with no channels is not a value
    [sox_open_read] returns. *)
Definition scan_input (i : nat) (a : input_scan) : input_scan :=
  let f := files !!! i in
  {| total_channels := sz (total_channels a + desc_channels f);
     min_channels := Z.min (min_channels a) (desc_channels f);
     max_channels := Z.max (max_channels a) (desc_channels f);
     min_rate := Z.min (min_rate a) (desc_rate f);
     max_rate := Z.max (max_rate a) (desc_rate f);
     known_length := known_length a && negb (desc_length f =? 0);
     scan_olen :=
       if combine_method_eqb combine_method sox_concatenate
       then sz (scan_olen a + desc_length f / desc_channels f)
       else Z.max (scan_olen a) (desc_length f / desc_channels f) |}.

Definition scan_start : input_scan :=
  {| total_channels := 0; min_channels := SOX_SIZE_MAX; max_channels := 0;
     min_rate := SOX_SIZE_MAX; max_rate := 0;
     known_length := negb (combine_method_eqb combine_method sox_sequence);
     scan_olen := 0 |}.

Definition with_channels (c : Z) (s : sox_signalinfo_t) : sox_signalinfo_t :=
  {| si_rate := si_rate s; si_size := si_size s; si_encoding := si_encoding s;
     si_channels := c; si_compression := si_compression s;
     si_reverse_bytes := si_reverse_bytes s;
     si_reverse_nibbles := si_reverse_nibbles s; si_reverse_bits := si_reverse_bits s |}.

(** Lines 1077-1115: the combiner's signal, [known_length] and [olen], or
    the exit taken when the inputs do not agree. *)
Definition check_inputs (current_input : nat)
  : outcome (sox_signalinfo_t * bool * Z) :=
  let combiner := ft_signal (desc_of (files !!! current_input)) in
  if combine_method_eqb combine_method sox_sequence then
    Ret (combiner, known_length scan_start, scan_olen scan_start)
  else
    let a := for_up 0 input_count scan_input scan_start in
    if negb (min_channels a =? max_channels a)
       && combine_method_eqb combine_method sox_concatenate
    then Exit 1 "Input files must have the same # channels"
    else if negb (min_rate a =? max_rate a)
    then Exit 1 "Input files must have the same sample-rate"
    else
      Ret (with_channels
             (if combine_method_eqb combine_method sox_merge
              then total_channels a else max_channels a) combiner,
           known_length a, scan_olen a).

(** Lines 1129-1133: the length passed to [sox_open_write]. *)
Definition length_hint (user_efftab : list (sox_effect P)) (nuser_effects : nat)
    (known : bool) (olen : Z) : Z :=
  let known' :=
    for_up 0 nuser_effects
      (fun i k => k && negb (has_flag (user_efftab !!! i) SOX_EFF_LENGTH)) known in
  if known' then olen else 0.

(** The [olen] argument of the call of [sox_open_write] at line 1160, when
    [process] gets there. *)
Definition open_write_length (current_input : nat)
    (user_efftab : list (sox_effect P)) (nuser_effects : nat) : outcome Z :=
  do (_, known, olen) <- check_inputs current_input;
  Ret (length_hint user_efftab nuser_effects known olen).
End Process.

(** ** The chain builder *)

Definition MAX_EFF : nat := 16.
Definition MAX_USER_EFF : nat := 14.

(** [efftab], [efftabR] and [neffects]. *)
Record effects_table (P : Type) : Type := {
  efftab : list (sox_effect P);
  efftabR : list (sox_effect P);
  neffects : nat
}.
Arguments efftab {P} _.
Arguments efftabR {P} _.
Arguments neffects {P} _.

(** What the stores into [efftab] and [efftabR] leave: the tables, or
    [PastEnd] once a store has been made at an [index] outside the array,
    from where C leaves undefined what the program does. *)
Inductive in_bounds (A : Type) : Type :=
| Within (a : A)
| PastEnd (index : nat).
Arguments Within {A} a.
Arguments PastEnd {A} index.

(** Code that may leave through [exit] goes on where the stores so far were
    inside the arrays. *)
Definition bind_within {A B : Type} (m : outcome (in_bounds A))
    (k : A -> outcome (in_bounds B)) : outcome (in_bounds B) :=
  match m with
  | Ret (Within a) => k a
  | Ret (PastEnd i) => Ret (PastEnd i)
  | Exit c msg => Exit c msg
  end.

Notation "'dow' p <- m ; k" := (bind_within m (fun x => let 'p := x in k))
  (at level 10, p pattern, m at level 100, k at level 200, only parsing).

Section ChainBuilder.
Context {P F : Type} `{Libsox P F}.
Variable combiner : sox_signalinfo_t.
Variable ofile_signal : sox_signalinfo_t.      (* ofile->desc->signal *)

(** [add_effect]: the effect to add is already at [efftab[neffects]];
    [sox_updateeffect] works on it there and [efftabR[neffects]] is
    written. *)
Definition add_effect (t : effects_table P) (effects_mask : Z)
  : in_bounds (effects_table P * Z) :=
  if (neffects t <? length (efftab t))%nat && (neffects t <? length (efftabR t))%nat
  then
    let '(e, mask) :=
      sox_updateeffect (efftab t !!! neffects t) combiner ofile_signal effects_mask in
    let r := if (1 <? si_channels (ininfo e)) && negb (has_flag e SOX_EFF_MCHAN)
             then e else zero_effect in
    Within ({| efftab := <[neffects t := e]> (efftab t);
               efftabR := <[neffects t := r]> (efftabR t);
               neffects := S (neffects t) |}, mask)
  else PastEnd (neffects t).

(** [add_default_effect]: [sox_geteffect] stores the effect at
    [efftab[neffects]]. *)
Definition add_default_effect (effect_name : string) (t : effects_table P)
    (effects_mask : Z) : outcome (in_bounds (effects_table P * Z)) :=
  if (length (efftab t) <=? neffects t)%nat then Ret (PastEnd (neffects t))
  else
    let e := sox_geteffect effect_name in
    let getopts := default sox_effect_nothing_getopts (h_getopts (h e)) in
    let r := getopts (priv e) (clips e) [] in
    if cr_status r =? SOX_EOF then Exit 2 ""
    else
      Ret (add_effect
             {| efftab := <[neffects t := set_effp (cr_priv r) (cr_clips r) e]> (efftab t);
                efftabR := efftabR t; neffects := neffects t |}
             effects_mask).

Record user_scan : Type := {
  need_chan : bool;
  need_rate : bool;
  user_chan_effects : Z;
  user_rate_effects : Z
}.

(** Lines 1380-1389. *)
Definition scan_user_effect (user_efftab : list (sox_effect P)) (i : nat)
    (a : user_scan) : user_scan :=
  let a1 :=
    if has_flag (user_efftab !!! i) SOX_EFF_CHAN
    then {| need_chan := false; need_rate := need_rate a;
            user_chan_effects := user_chan_effects a + 1;
            user_rate_effects := user_rate_effects a |}
    else a in
  if has_flag (user_efftab !!! i) SOX_EFF_RATE
  then {| need_chan := need_chan a1; need_rate := false;
          user_chan_effects := user_chan_effects a1;
          user_rate_effects := user_rate_effects a1 + 1 |}
  else a1.

(** Lines 1416-1419: [memcpy] of the user effect to [efftab[neffects]],
    then [add_effect]. *)
Definition add_user_effect (user_efftab : list (sox_effect P)) (i : nat)
    (st : in_bounds (effects_table P * Z)) : in_bounds (effects_table P * Z) :=
  match st with
  | PastEnd k => PastEnd k
  | Within (t, mask) =>
      if (length (efftab t) <=? neffects t)%nat then PastEnd (neffects t)
      else
        add_effect
          {| efftab := <[neffects t := user_efftab !!! i]> (efftab t);
             efftabR := efftabR t; neffects := neffects t |}
          mask
  end.

(** [build_effects_table]; [t0] holds the tables as they are on entry. *)
Definition build_effects_table (user_efftab : list (sox_effect P))
    (nuser_effects : nat) (t0 : effects_table P) : outcome (in_bounds (effects_table P)) :=
  let effects_mask := 0 in
  let a := for_up 0 nuser_effects (scan_user_effect user_efftab)
             {| need_chan := negb (si_channels combiner =? si_channels ofile_signal);
                need_rate := negb (si_rate combiner =? si_rate ofile_signal);
                user_chan_effects := 0; user_rate_effects := 0 |} in
  if 1 <? user_chan_effects a then
    Exit 2 "Cannot specify multiple effects that change number of channels"
  else
    let t := {| efftab := efftab t0; efftabR := efftabR t0; neffects := 1 |} in
    dow (t, effects_mask, still_need_chan) <-
      (if need_chan a && (si_channels ofile_signal <? si_channels combiner)
       then dow (t', m) <- add_default_effect "mixer" t effects_mask;
            Ret (Within (t', m, false))
       else Ret (Within (t, effects_mask, need_chan a)));
    dow (t, effects_mask, still_need_rate) <-
      (if need_rate a && (si_rate ofile_signal <? si_rate combiner)
       then dow (t', m) <- add_default_effect "resample" t effects_mask;
            Ret (Within (t', m, false))
       else Ret (Within (t, effects_mask, need_rate a)));
    dow (t, effects_mask) <-
      Ret (for_up 0 nuser_effects (add_user_effect user_efftab)
             (Within (t, effects_mask)));
    dow (t, effects_mask) <-
      (if still_need_rate then add_default_effect "resample" t effects_mask
       else Ret (Within (t, effects_mask)));
    dow (t, _) <-
      (if still_need_chan then add_default_effect "mixer" t effects_mask
       else Ret (Within (t, effects_mask)));
    Ret (Within t).
End ChainBuilder.

(** ** [start_all_effects] and the set-up of [process] *)

Section Start.
Context {P F : Type} `{Libsox P F}.

(** Lines 1455-1459: [--neffects], and the entries above [i] move down. *)
Definition remove_effect (i : nat) (t : effects_table P) : effects_table P :=
  let n := (neffects t - 1)%nat in
  {| efftab := for_up i (n - i) (fun j l => <[j := l !!! S j]> l) (efftab t);
     efftabR := for_up i (n - i) (fun j l => <[j := l !!! S j]> l) (efftabR t);
     neffects := n |}.

(** [start_all_effects], the loop of lines 1435-1467 from index [i] on;
    [ret] is the local of that name.  Every round either moves on to the
    next effect or removes one, so that [neffects - i] rounds are all
    there are.  [started] lists the effects whose [start] has been
    called. *)
Fixpoint start_effects_from (rounds : nat) (i : nat) (ret : Z)
    (t : effects_table P) (started : list (option string))
  : Z * effects_table P * list (option string) :=
  match rounds with
  | O => (SOX_SUCCESS, t, started)
  | S rounds' =>
      let e := efftab t !!! i in
      let is_always_null := has_flag e SOX_EFF_NULL in
      let start := default sox_effect_nothing (h_start (h e)) in
      let kill := default sox_effect_nothing (h_kill (h e)) in
      let r := start (priv e) 0 in
      let ret' := if is_always_null then ret else cr_status r in
      let e1 := if is_always_null then e else set_effp (cr_priv r) (cr_clips r) e in
      let started1 := if is_always_null then started else started ++ [name e] in
      let t1 := {| efftab := <[i := e1]> (efftab t); efftabR := efftabR t;
                   neffects := neffects t |} in
      if negb is_always_null && negb (ret' =? SOX_EFF_NULL) && negb (ret' =? SOX_SUCCESS)
      then (SOX_EOF, t1, started1)
      else if is_always_null || (ret' =? SOX_EFF_NULL) then
        let k := kill (priv e1) (clips e1) in
        let t2 := {| efftab := <[i := set_effp (cr_priv k) (cr_clips k) e1]> (efftab t1);
                     efftabR := efftabR t1; neffects := neffects t1 |} in
        start_effects_from rounds' i ret' (remove_effect i t2) started1
      else
        match name (efftabR t1 !!! i) with
        | Some _ =>
            let er := efftabR t1 !!! i in
            let rr := start (priv er) 0 in
            let t2 := {| efftab := efftab t1;
                         efftabR := <[i := set_effp (cr_priv rr) (cr_clips rr) er]>
                                      (efftabR t1);
                         neffects := neffects t1 |} in
            if negb (cr_status rr =? SOX_SUCCESS)
            then (SOX_EOF, t2, started1 ++ [name er])
            else start_effects_from rounds' (S i) ret' t2 (started1 ++ [name er])
        | None => start_effects_from rounds' (S i) ret' t1 started1
        end
  end.

Definition start_all_effects (t : effects_table P)
  : Z * effects_table P * list (option string) :=
  start_effects_from (neffects t - 1) 1 SOX_SUCCESS t [].

(** [process], lines 1160-1187: the output file is opened, the chain is
    built and its effects are started.  [opened] is what [sox_open_write]
    returns.  The result lists the effects whose [start] has been
    called. *)
Definition process_setup (opened : option sox_format) (combiner : sox_signalinfo_t)
    (user_efftab : list (sox_effect P)) (nuser_effects : nat) (t0 : effects_table P)
  : list (option string) * outcome (in_bounds (effects_table P)) :=
  match opened with
  | None => ([], Exit 2 "")
  | Some d =>
      match build_effects_table combiner (ft_signal d) user_efftab nuser_effects t0 with
      | Exit code msg => ([], Exit code msg)
      | Ret (PastEnd i) => ([], Ret (PastEnd i))
      | Ret (Within t) =>
          let '(status, t', started) := start_all_effects t in
          if negb (status =? SOX_SUCCESS) then (started, Exit 2 "")
          else (started, Ret (Within t'))
      end
  end.
End Start.

(** ** The pull scheduler *)

(** The process-wide state the scheduler works on.  [user_abort] is set by a
    signal handler; it is read here as it stands when a function is
    entered.  [ofile_desc] is the state of the output file behind
    [ofile->desc], [ofile_channels] its [signal.channels]. *)
Record sched (P F : Type) : Type := {
  sc_tab : effects_table P;
  input_eff : nat;
  input_eff_eof : bool;
  ibufl : list Z;
  ibufr : list Z;
  obufl : list Z;
  obufr : list Z;
  user_abort : bool;
  ofile_desc : F;
  ofile_channels : Z;
  output_samples : Z
}.
Arguments sc_tab {P F} _.
Arguments input_eff {P F} _.
Arguments input_eff_eof {P F} _.
Arguments ibufl {P F} _.
Arguments ibufr {P F} _.
Arguments obufl {P F} _.
Arguments obufr {P F} _.
Arguments user_abort {P F} _.
Arguments ofile_desc {P F} _.
Arguments ofile_channels {P F} _.
Arguments output_samples {P F} _.

(** What one round of the loop of [flow_effect_out] ends in. *)
Inductive flow_step (P F : Type) : Type :=
| Again (s : sched P F)               (* havedata: another round *)
| Leaves (s : sched P F)              (* the loop is left *)
| Returns (status : Z) (s : sched P F) (* a [return] from inside the loop *)
| Exits (code : Z) (msg : string)
| OutOfFuel.
Arguments Again {P F} s.
Arguments Leaves {P F} s.
Arguments Returns {P F} status s.
Arguments Exits {P F} code msg.
Arguments OutOfFuel {P F}.

Section Scheduler.
Context {P F : Type} `{Platform} `{Libsox P F}.

Definition with_efftab (l : list (sox_effect P)) (s : sched P F) : sched P F :=
  {| sc_tab := {| efftab := l; efftabR := efftabR (sc_tab s);
                  neffects := neffects (sc_tab s) |};
     input_eff := input_eff s; input_eff_eof := input_eff_eof s;
     ibufl := ibufl s; ibufr := ibufr s; obufl := obufl s; obufr := obufr s;
     user_abort := user_abort s; ofile_desc := ofile_desc s;
     ofile_channels := ofile_channels s; output_samples := output_samples s |}.

Definition with_efftabR (l : list (sox_effect P)) (s : sched P F) : sched P F :=
  {| sc_tab := {| efftab := efftab (sc_tab s); efftabR := l;
                  neffects := neffects (sc_tab s) |};
     input_eff := input_eff s; input_eff_eof := input_eff_eof s;
     ibufl := ibufl s; ibufr := ibufr s; obufl := obufl s; obufr := obufr s;
     user_abort := user_abort s; ofile_desc := ofile_desc s;
     ofile_channels := ofile_channels s; output_samples := output_samples s |}.

Definition with_scratch (il ir ol or : list Z) (s : sched P F) : sched P F :=
  {| sc_tab := sc_tab s;
     input_eff := input_eff s; input_eff_eof := input_eff_eof s;
     ibufl := il; ibufr := ir; obufl := ol; obufr := or;
     user_abort := user_abort s; ofile_desc := ofile_desc s;
     ofile_channels := ofile_channels s; output_samples := output_samples s |}.

Definition with_input_eff (e : nat) (eof : bool) (s : sched P F) : sched P F :=
  {| sc_tab := sc_tab s;
     input_eff := e; input_eff_eof := eof;
     ibufl := ibufl s; ibufr := ibufr s; obufl := obufl s; obufr := obufr s;
     user_abort := user_abort s; ofile_desc := ofile_desc s;
     ofile_channels := ofile_channels s; output_samples := output_samples s |}.

Definition with_output (d : F) (n : Z) (s : sched P F) : sched P F :=
  {| sc_tab := sc_tab s;
     input_eff := input_eff s; input_eff_eof := input_eff_eof s;
     ibufl := ibufl s; ibufr := ibufr s; obufl := obufl s; obufr := obufr s;
     user_abort := user_abort s; ofile_desc := d;
     ofile_channels := ofile_channels s; output_samples := n |}.

(** [efftab[e]] and [efftabR[e]]. *)
Definition eff (s : sched P F) (e : nat) : sox_effect P := efftab (sc_tab s) !!! e.
Definition effR (s : sched P F) (e : nat) : sox_effect P := efftabR (sc_tab s) !!! e.

(** [efftabR[e].name] is not NULL: the effect runs as left and right
    twins. *)
Definition has_twin (s : sched P F) (e : nat) : bool :=
  match name (effR s e) with Some _ => true | None => false end.

(** [flow_effect], lines 1670-1673: the samples [src[start ..]] go in
    turn to the left and to the right buffer; a pair is moved for every
    second [i] below [idone]. *)
Definition split_input (src : list Z) (start : nat) (idone : Z)
    (l r : list Z) : list Z * list Z :=
  for_up 0 (Z.to_nat ((idone + 1) / 2))
    (fun k lr => (<[k := src !!! (start + 2 * k)%nat]> (fst lr),
                  <[k := src !!! (start + 2 * k + 1)%nat]> (snd lr)))
    (l, r).

(** [flow_effect], lines 1696-1699, and [drain_effect], lines 1783-1786:
    [n] pairs go from the left and right buffers to [dst[start ..]]. *)
Definition join_output (n : Z) (l r : list Z) (dst : list Z) (start : nat) : list Z :=
  for_up 0 (Z.to_nat n)
    (fun i d => <[(start + 2 * i + 1)%nat := r !!! i]>
                  (<[(start + 2 * i)%nat := l !!! i]> d))
    dst.

(** [flow_effect], lines 1644-1661: the effect runs over the whole
    buffer.  The result is [effstatus], [done] and the new state. *)
Definition flow_whole (e : nat) (s : sched P F) : Z * Z * sched P F :=
  let cur := eff s e in
  let prev := eff s (e - 1) in
  let flow := default sox_effect_nothing_flow (h_flow (h cur)) in
  let idone := sz (olen prev - odone prev) in
  let odone_ := sz (sox_bufsiz - olen cur) in
  let r := flow (priv cur) (clips cur)
             (take (Z.to_nat idone) (drop (Z.to_nat (odone prev)) (obuf prev)))
             idone odone_ in
  let produced := Z.of_nat (length (fr_obuf r)) in
  let prev' := set_odone (sz (odone prev + fr_isamp r)) prev in
  let cur' :=
    set_olen (sz (olen cur + produced))
      (set_obuf (list_inserts (Z.to_nat (olen cur)) (fr_obuf r) (obuf cur))
         (set_effp (fr_priv r) (fr_clips r) cur)) in
  (fr_status r, sz (fr_isamp r + produced),
   with_efftab (<[e := cur']> (<[(e - 1)%nat := prev']> (efftab (sc_tab s)))) s).

(** [flow_effect], lines 1666-1690: what the left and the right twin are
    given and what they answer. *)
Definition split_buffers (e : nat) (s : sched P F) : list Z * list Z :=
  let prev := eff s (e - 1) in
  split_input (obuf prev) (Z.to_nat (odone prev))
    (sz (olen prev - odone prev)) (ibufl s) (ibufr s).

Definition flow_left (e : nat) (s : sched P F) : flow_result P :=
  let cur := eff s e in
  let prev := eff s (e - 1) in
  let flow := default sox_effect_nothing_flow (h_flow (h cur)) in
  let idone := sz (olen prev - odone prev) in
  let odone_ := sz (sox_bufsiz - olen cur) in
  let idonel := sz (idone + 1) / 2 in
  let odonel := odone_ / 2 in
  flow (priv cur) (clips cur) (take (Z.to_nat idonel) (fst (split_buffers e s)))
    idonel odonel.

Definition flow_right (e : nat) (s : sched P F) : flow_result P :=
  let cur := eff s e in
  let prev := eff s (e - 1) in
  let right := effR s e in
  let flow := default sox_effect_nothing_flow (h_flow (h cur)) in
  let idone := sz (olen prev - odone prev) in
  let odone_ := sz (sox_bufsiz - olen cur) in
  let idoner := idone / 2 in
  let odoner := odone_ / 2 in
  flow (priv right) (clips right) (take (Z.to_nat idoner) (snd (split_buffers e s)))
    idoner odoner.

(** [flow_effect], lines 1666-1711: the effect runs as twins over the
    left and the right samples. *)
Definition flow_split (e : nat) (s : sched P F) : Z * Z * sched P F :=
  let cur := eff s e in
  let prev := eff s (e - 1) in
  let right := effR s e in
  let '(il, ir) := split_buffers e s in
  let rl := flow_left e s in
  let ol := list_inserts 0 (fr_obuf rl) (obufl s) in
  let rr := flow_right e s in
  let or := list_inserts 0 (fr_obuf rr) (obufr s) in
  let odonel := Z.of_nat (length (fr_obuf rl)) in
  let odoner := Z.of_nat (length (fr_obuf rr)) in
  let prev' := set_odone (sz (odone prev + (fr_isamp rl + fr_isamp rr))) prev in
  let cur' :=
    set_olen (sz (olen cur + (odonel + odoner)))
      (set_obuf (join_output odoner ol or (obuf cur) (Z.to_nat (olen cur)))
         (set_effp (fr_priv rl) (fr_clips rl) cur)) in
  let right' := set_effp (fr_priv rr) (fr_clips rr) right in
  (if negb (fr_status rl =? 0) then fr_status rl else fr_status rr,
   sz (fr_isamp rl + fr_isamp rr + odonel + odoner),
   with_scratch il ir ol or
     (with_efftabR (<[e := right']> (efftabR (sc_tab s)))
        (with_efftab (<[e := cur']> (<[(e - 1)%nat := prev']> (efftab (sc_tab s))))
           s))).

(** [flow_effect]. *)
Definition flow_effect (e : nat) (s : sched P F) : outcome (Z * sched P F) :=
  let prev := eff s (e - 1) in
  if user_abort s then Ret (SOX_EOF, s)
  else if odone prev =? olen prev then Ret (0, s)
  else
    let '(effstatus, done, s') :=
      if negb (has_twin s e) then flow_whole e s else flow_split e s in
    if effstatus =? SOX_EOF then Ret (SOX_EOF, s')
    else if done =? 0 then Exit 2 "Effect took & gave no samples!"
    else Ret (SOX_SUCCESS, s').

(** [drain_effect], lines 1758-1760: the effect drains into the whole
    buffer. *)
Definition drain_whole (e : nat) (s : sched P F) : Z * sched P F :=
  let cur := eff s e in
  let drain := default sox_effect_nothing_drain (h_drain (h cur)) in
  let r := drain (priv cur) (clips cur) sox_bufsiz in
  let cur' :=
    set_odone 0
      (set_olen (Z.of_nat (length (dr_obuf r)))
         (set_obuf (list_inserts 0 (dr_obuf r) (obuf cur))
            (set_effp (dr_priv r) (dr_clips r) cur))) in
  (dr_status r, with_efftab (<[e := cur']> (efftab (sc_tab s))) s).

(** [drain_effect], lines 1762-1772: what the twins answer. *)
Definition drain_left (e : nat) (s : sched P F) : drain_result P :=
  let cur := eff s e in
  let drain := default sox_effect_nothing_drain (h_drain (h cur)) in
  drain (priv cur) (clips cur) (sox_bufsiz / 2).

Definition drain_right (e : nat) (s : sched P F) : drain_result P :=
  let cur := eff s e in
  let right := effR s e in
  let drain := default sox_effect_nothing_drain (h_drain (h cur)) in
  drain (priv right) (clips right) (sox_bufsiz / 2).

(** [drain_effect], lines 1762-1788: the twins drain. *)
Definition drain_split (e : nat) (s : sched P F) : Z * sched P F :=
  let cur := eff s e in
  let right := effR s e in
  let rl := drain_left e s in
  let ol := list_inserts 0 (dr_obuf rl) (obufl s) in
  let rr := drain_right e s in
  let or := list_inserts 0 (dr_obuf rr) (obufr s) in
  let olenl := Z.of_nat (length (dr_obuf rl)) in
  let olenr := Z.of_nat (length (dr_obuf rr)) in
  let rc := if (dr_status rl =? SOX_EOF) || (dr_status rr =? SOX_EOF)
            then SOX_EOF else SOX_SUCCESS in
  let cur' :=
    set_odone 0
      (set_olen (sz (olenl + olenr))
         (set_obuf (join_output olenr ol or (obuf cur) 0)
            (set_effp (dr_priv rl) (dr_clips rl) cur))) in
  let right' := set_effp (dr_priv rr) (dr_clips rr) right in
  (rc,
   with_scratch (ibufl s) (ibufr s) ol or
     (with_efftabR (<[e := right']> (efftabR (sc_tab s)))
        (with_efftab (<[e := cur']> (efftab (sc_tab s))) s))).

(** [drain_effect]. *)
Definition drain_effect (e : nat) (s : sched P F) : Z * sched P F :=
  if negb (has_twin s e) then drain_whole e s else drain_split e s.

(** [flow_effect_out], lines 1485-1516: the chain is run backwards from
    [e] down.  The loop stops at [e = 0] and below [input_eff]. *)
Fixpoint pull_chain (e : nat) (s : sched P F) : outcome (sched P F) :=
  match e with
  | O => Ret s
  | S e' =>
      if (e <? input_eff s)%nat then Ret s
      else if (e =? input_eff s)%nat && input_eff_eof s then pull_chain e' s
      else
        do (flowstatus, s1) <- flow_effect e s;
        let s2 := if flowstatus =? SOX_EOF then with_input_eff e false s1 else s1 in
        if odone (eff s2 e) <? olen (eff s2 e) then Ret s2
        else pull_chain e' s2
  end.

(** Lines 1521-1537, the loop that writes [obuf[total ..]] of the last
    effect: [None] when it returns SOX_EOF, the total written otherwise.
    Every round that does not return adds to [total], so that [fuel] rounds
    are enough when [fuel] is the number of samples to write. *)
Fixpoint write_output (fuel : nat) (abort : bool) (buf : list Z) (len : Z)
    (total : Z) (d : F) : option (F * option Z) :=
  match fuel with
  | O => None
  | S fuel' =>
      if abort then Some (d, None)
      else
        let '(d', written) :=
          sox_write d (take (Z.to_nat (len - total)) (drop (Z.to_nat total) buf)) in
        if written =? 0 then Some (d', None)
        else
          let total' := total + written in
          if total' <? len then write_output fuel' abort buf len total' d'
          else Some (d', Some total')
  end.

(** Lines 1551-1574: the buffers that are used up are reset, from the last
    effect down to [input_eff]; [havedata] is set when a full frame is
    left in one of them. *)
Definition reuse_buffer (e : nat) (st : sched P F * bool) : sched P F * bool :=
  let '(s, havedata) := st in
  let s1 :=
    if odone (eff s e) =? olen (eff s e)
    then with_efftab (<[e := set_olen 0 (set_odone 0 (eff s e))]> (efftab (sc_tab s))) s
    else s in
  if odone (eff s1 e) <? olen (eff s1 e) then
    if ofile_channels s1 <=? sz (olen (eff s1 e) - odone (eff s1 e))
    then (s1, true) else (s1, havedata)
  else (s1, havedata).

Definition reuse_buffers (s : sched P F) : sched P F * bool :=
  foldl (fun st e => reuse_buffer e st) (s, false)
    (reverse (seq (input_eff s) (neffects (sc_tab s) - input_eff s))).

(** Lines 1591-1603 and 1732-1743: effects are drained from [input_eff] on
    until one gives samples; [rounds] is [neffects - input_eff]. *)
Fixpoint prime_pump (rounds : nat) (s : sched P F) : sched P F * bool :=
  match rounds with
  | O => (s, false)
  | S rounds' =>
      if (input_eff s <? neffects (sc_tab s))%nat then
        let '(rc, s1) := drain_effect (input_eff s) s in
        if olen (eff s1 (input_eff s1)) =? 0
        then prime_pump rounds' (with_input_eff (S (input_eff s1)) false s1)
        else (with_input_eff (input_eff s1) (rc =? SOX_EOF) s1, true)
      else (s, false)
  end.

(** Lines 1518-1543: the output of the last effect is written.  [inl]
    where [flow_effect_out] returns SOX_EOF, [None] where the write loop
    has not come to an end. *)
Definition write_phase (s1 : sched P F) : option (sched P F + sched P F) :=
  let last := (neffects (sc_tab s1) - 1)%nat in
  if odone (eff s1 last) <? olen (eff s1 last) then
    match write_output (Z.to_nat (olen (eff s1 last))) (user_abort s1)
            (obuf (eff s1 last)) (olen (eff s1 last)) 0 (ofile_desc s1) with
    | None => None
    | Some (d, None) => Some (inl (with_output d (output_samples s1) s1))
    | Some (d, Some total) =>
        Some (inr (with_output d (output_samples s1 + total / ofile_channels s1) s1))
    end
  else
    Some (inr (with_output (ofile_desc s1)
                 (output_samples s1 + olen (eff s1 last) / ofile_channels s1) s1)).

(** Lines 1544-1605: the last buffer is reset, the used-up buffers are
    reused and, where no data is left, the effects are drained. *)
Definition reuse_phase (s2 : sched P F) : flow_step P F :=
  let last := (neffects (sc_tab s2) - 1)%nat in
  let s3 := with_efftab
              (<[last := set_olen 0 (set_odone 0 (eff s2 last))]> (efftab (sc_tab s2)))
              s2 in
  let '(s4, havedata) := reuse_buffers s3 in
  let '(s5, havedata) :=
    if negb havedata && (0 <? input_eff s4)%nat then
      let s4' := if input_eff_eof s4
                 then with_input_eff (S (input_eff s4)) false s4 else s4 in
      prime_pump (neffects (sc_tab s4') - input_eff s4') s4'
    else (s4, havedata) in
  if havedata then Again s5 else Leaves s5.

(** One round of the loop of [flow_effect_out], lines 1482-1605. *)
Definition flow_effect_out_round (s : sched P F) : flow_step P F :=
  match pull_chain (neffects (sc_tab s) - 1) s with
  | Exit code msg => Exits code msg
  | Ret s1 =>
      match write_phase s1 with
      | None => OutOfFuel
      | Some (inl s2) => Returns SOX_EOF s2
      | Some (inr s2) => reuse_phase s2
      end
  end.

(** [flow_effect_out]: the rounds, and the status returned once the loop
    is left. *)
Fixpoint flow_effect_out (fuel : nat) (s : sched P F) : flow_step P F :=
  match fuel with
  | O => OutOfFuel
  | S fuel' =>
      match flow_effect_out_round s with
      | Again s' => flow_effect_out fuel' s'
      | Leaves s' =>
          if (0 <? input_eff s')%nat then Returns SOX_EOF s'
          else Returns SOX_SUCCESS s'
      | r => r
      end
  end.

(** [drain_effect_out]. *)
Definition drain_effect_out (fuel : nat) (s : sched P F) : flow_step P F :=
  let s1 := if (input_eff s =? 0)%nat then with_input_eff 1 false s else s in
  let '(s2, _) := prime_pump (neffects (sc_tab s1) - input_eff s1) s1 in
  flow_effect_out fuel s2.

(** [process], lines 1213-1215: the chain is marked as empty. *)
Definition mark_chain_empty (s : sched P F) : sched P F :=
  with_efftab
    (for_up 1 (neffects (sc_tab s) - 1)
       (fun e l => <[e := set_olen 0 (set_odone 0 (l !!! e))]> l)
       (efftab (sc_tab s)))
    s.

(** [sox_read_wide]: the wide samples read; [sox_read] maps the number of
    samples asked for to the number of samples read. *)
Definition sox_read_wide (combiner_channels signal_channels : Z) (sox_read : Z -> Z) : Z :=
  let len := sox_bufsiz / combiner_channels in
  sox_read (sz (len * signal_channels)) / signal_channels.

(** [process], lines 1266-1268: the block of [n] wide samples that has been
    read is handed to the chain. *)
Definition hand_over (n : Z) (combiner_channels : Z) (s : sched P F) : sched P F :=
  with_efftab
    (<[0%nat := set_olen (sz (n * combiner_channels)) (set_odone 0 (eff s 0))]>
       (efftab (sc_tab s)))
    s.

(** ** Clip accounting *)

(** [stop_effects], the body of the loop: the effect is stopped and its
    clips are reported.  The result is the table and the count passed to
    the warning, if one is given. *)
Definition stop_effect (e : nat) (t : effects_table P)
  : effects_table P * option (option string * Z) :=
  let stop := default sox_effect_nothing (h_stop (h (efftab t !!! e))) in
  let r := stop (priv (efftab t !!! e)) (clips (efftab t !!! e)) in
  let t1 := {| efftab := <[e := set_effp (cr_priv r) (cr_clips r) (efftab t !!! e)]> (efftab t);
               efftabR := efftabR t; neffects := neffects t |} in
  let clips_ := clips (efftab t1 !!! e) in
  let '(t2, clips_) :=
    match name (efftabR t1 !!! e) with
    | Some _ =>
        let rr := stop (priv (efftabR t1 !!! e)) (clips (efftabR t1 !!! e)) in
        ({| efftab := efftab t1;
            efftabR := <[e := set_effp (cr_priv rr) (cr_clips rr) (efftabR t1 !!! e)]>
                         (efftabR t1);
            neffects := neffects t1 |},
         sz (clips_ + clips (efftab t1 !!! e)))
    | None => (t1, clips_)
    end in
  (t2, if clips_ =? 0 then None else Some (name (efftab t2 !!! e), clips_)).

(** [stop_effects]: the table, and the warnings in the order given. *)
Definition stop_effects (t : effects_table P)
  : effects_table P * list (option string * Z) :=
  for_up 1 (neffects t - 1)
    (fun e st =>
       let '(t', w) := stop_effect e (fst st) in
       (t', snd st ++ match w with Some x => [x] | None => [] end))
    (t, []).

(** [total_clips], lines 1834-1838: what one effect adds to the total. *)
Definition effect_clips (t : effects_table P) (i : nat) (clips_ : Z) : Z :=
  let clips_ := sz (clips_ + clips (efftab t !!! i)) in
  match name (efftabR t !!! i) with
  | Some _ => sz (clips_ + clips (efftab t !!! i))
  | None => clips_
  end.

(** [total_clips]. *)
Definition total_clips (files : list file_info) (file_count : nat)
    (mixing_clips : Z) (t : effects_table P) : Z :=
  let clips_ :=
    for_up 0 file_count
      (fun i c => sz (c + sz (ft_clips (desc_of (files !!! i))
                               + volume_clips (files !!! i)))) 0 in
  let clips_ := sz (clips_ + mixing_clips) in
  for_up 1 (neffects t - 1) (effect_clips t) clips_.
End Scheduler.

(** ** [read_comment_file] *)

(** What [fopen], [fseeko], [ftello] and [fread] find for a file name. *)
Inductive file_read : Type :=
| CannotOpen
| ReadError
| Holds (bytes : list Ascii.ascii).

Definition NUL : Ascii.ascii := Ascii.ascii_of_nat 0.
Definition newline : Ascii.ascii := Ascii.ascii_of_nat 10.

(** [result[i]] *)
Definition byte_at (result : list Ascii.ascii) (i : nat) : Ascii.ascii :=
  nth i result NUL.

(** Lines 652-653: [file_length] goes down over the newlines at the end. *)
Fixpoint strip_newlines (result : list Ascii.ascii) (file_length : nat) : nat :=
  match file_length with
  | O => O
  | S k => if Ascii.eqb (byte_at result k) newline then strip_newlines result k
           else file_length
  end.

(** The string that a [char *] to these bytes, with a NUL behind them, is. *)
Fixpoint c_string (bytes : list Ascii.ascii) : list Ascii.ascii :=
  match bytes with
  | [] => []
  | c :: rest => if Ascii.eqb c NUL then [] else c :: c_string rest
  end.

(** [read_comment_file].  [fread] is asked for one item of [file_length]
    bytes; for an empty file it gives 0 items, which is taken as an
    error. *)
Definition read_comment_file (file : file_read) : outcome (list Ascii.ascii) :=
  match file with
  | CannotOpen => Exit 1 "Cannot open comment file"
  | ReadError => Exit 1 "Error reading comment file"
  | Holds bytes =>
      let file_length := length bytes in
      if (file_length =? 0)%nat then Exit 1 "Error reading comment file"
      else Ret (c_string (take (strip_newlines bytes file_length) bytes))
  end.

(** ** The command line: [parse_options_and_filenames] and [main] *)

Definition MAX_INPUT_FILES : nat := 32.
Definition MAX_FILES : nat := MAX_INPUT_FILES + 2. (* 1 output file plus record input *)

Definition too_many_filenames : string :=
  "Too many filenames; maximum is 32 input files and 1 output file".

(** [rg_mode] *)
Inductive rg_mode : Type :=
| RG_off
| RG_track
| RG_album.

(** The plot methods of sox.h, by name. *)
Inductive plot_method : Type :=
| sox_plot_off
| sox_plot_octave
| sox_plot_gnuplot.

(** The items of [endian_options]. *)
Inductive endian_t : Type :=
| ENDIAN_little
| ENDIAN_big
| ENDIAN_swap.

(** The globals that [main] sets from [argv[0]] and that the options set.
    [bufsiz] is [sox_bufsiz], [plot] is [effects_global_info.plot] and
    [verbosity] is [sox_output_verbosity_level], an unsigned of 32 bits. *)
Record globals : Type := {
  play : bool;
  rec : bool;
  combine_method : combine_method_t;
  uservolume : bool;
  bufsiz : Z;
  interactive : bool;
  plot : plot_method;
  replay_gain_mode : rg_mode;
  repeatable_random : bool;
  show_progress : sox_option_t;
  verbosity : Z
}.

(** A playlist file as [parse_playlist] finds it in the file system.
    [PlCannotOpen] is a file that [fopen] does not open.  The others are
    what the scan of the lines (lines 313-340) finds in a file that is open,
    one entry after the other: the end of the file; a file name, made
    relative to the playlist's directory; the name of a playlist, given
    with that playlist file; or a read that fails ([ferror]), after which
    nothing more is read. *)
Inductive playlist : Type :=
| PlNil
| PlFile (id : string) (rest : playlist)
| PlNested (sub : playlist) (rest : playlist)
| PlReadError
| PlCannotOpen.

Definition cannot_open_playlist : string := "Can't open playlist file".
Definition error_reading_playlist : string := "Error reading playlist file".

(** The options of sox.c, as [getopt_long] returns them.  A number is given
    as [sscanf] reads it from the argument with ["%i %c"] or ["%lf %c"],
    [None] where that does not read just a number; the item of an
    enumeration is given as [find_enum_text] finds it, [None] where it
    finds none; a comment file is given with what the file system holds
    for its name. *)
Inductive option_t : Type :=
| Opt_buffer (i : option Z)             (* --buffer *)
| Opt_combine (m : option combine_method_t)   (* --combine *)
| Opt_comment_file (file : file_read)   (* --comment-file *)
| Opt_comment (s : string)              (* --comment *)
| Opt_endian (e : option endian_t)      (* --endian *)
| Opt_interactive                       (* --interactive *)
| Opt_help_effect                       (* --help-effect *)
| Opt_plot (m : option plot_method)     (* --plot *)
| Opt_replay_gain (m : option rg_mode)  (* --replay-gain *)
| Opt_version                           (* --version *)
| Opt_m                                 (* -m *)
| Opt_M                                 (* -M *)
| Opt_R                                 (* -R *)
| Opt_n                                 (* -n, -e *)
| Opt_h                                 (* -h, and options getopt rejects *)
| Opt_t (s : string)                    (* -t *)
| Opt_r (n : option Z)                  (* -r *)
| Opt_v (d : option double)             (* -v *)
| Opt_c (n : option Z)                  (* -c *)
| Opt_C (d : option double)             (* -C *)
| Opt_1 | Opt_2 | Opt_3 | Opt_4 | Opt_8           (* -1 -2 -3 -4 -8 *)
| Opt_s | Opt_u | Opt_f | Opt_a | Opt_D | Opt_i | Opt_o | Opt_g
                                        (* -s -u -f -a -D -i -o -g *)
| Opt_U | Opt_A                         (* -U -A *)
| Opt_L | Opt_B | Opt_x                 (* -L -B -x *)
| Opt_X | Opt_N                         (* -X -N *)
| Opt_S | Opt_q                         (* -S -q *)
| Opt_V (level : option (option Z)).    (* -V, with its argument if it has one *)

(** The arguments before the first effect name. *)
Inductive arg : Type :=
| Aopt (o : option_t)
| Afile (file : string)                       (* not a playlist *)
| Aplaylist (file : string) (entries : playlist).

Definition with_filename (n : string) (f : file_info) : file_info :=
  {| filename := n; filetype := filetype f; signal := signal f; volume := volume f;
     replay_gain := replay_gain f; comment := comment f;
     volume_clips := volume_clips f; desc := desc f |}.

Definition with_filetype (t : option string) (f : file_info) : file_info :=
  {| filename := filename f; filetype := t; signal := signal f; volume := volume f;
     replay_gain := replay_gain f; comment := comment f;
     volume_clips := volume_clips f; desc := desc f |}.

Definition with_signal (s : sox_signalinfo_t) (f : file_info) : file_info :=
  {| filename := filename f; filetype := filetype f; signal := s; volume := volume f;
     replay_gain := replay_gain f; comment := comment f;
     volume_clips := volume_clips f; desc := desc f |}.

Definition with_volume (v : double) (f : file_info) : file_info :=
  {| filename := filename f; filetype := filetype f; signal := signal f; volume := v;
     replay_gain := replay_gain f; comment := comment f;
     volume_clips := volume_clips f; desc := desc f |}.

Definition with_replay_gain (g : double) (f : file_info) : file_info :=
  {| filename := filename f; filetype := filetype f; signal := signal f;
     volume := volume f; replay_gain := g; comment := comment f;
     volume_clips := volume_clips f; desc := desc f |}.

Definition with_comment (c : option string) (f : file_info) : file_info :=
  {| filename := filename f; filetype := filetype f; signal := signal f;
     volume := volume f; replay_gain := replay_gain f; comment := c;
     volume_clips := volume_clips f; desc := desc f |}.

Definition with_desc (d : option sox_format) (f : file_info) : file_info :=
  {| filename := filename f; filetype := filetype f; signal := signal f;
     volume := volume f; replay_gain := replay_gain f; comment := comment f;
     volume_clips := volume_clips f; desc := d |}.

Definition with_rate (r : Z) (s : sox_signalinfo_t) : sox_signalinfo_t :=
  {| si_rate := r; si_size := si_size s; si_encoding := si_encoding s;
     si_channels := si_channels s; si_compression := si_compression s;
     si_reverse_bytes := si_reverse_bytes s;
     si_reverse_nibbles := si_reverse_nibbles s; si_reverse_bits := si_reverse_bits s |}.

Definition with_compression (d : double) (s : sox_signalinfo_t) : sox_signalinfo_t :=
  {| si_rate := si_rate s; si_size := si_size s; si_encoding := si_encoding s;
     si_channels := si_channels s; si_compression := d;
     si_reverse_bytes := si_reverse_bytes s;
     si_reverse_nibbles := si_reverse_nibbles s; si_reverse_bits := si_reverse_bits s |}.

Definition with_size (z : Z) (s : sox_signalinfo_t) : sox_signalinfo_t :=
  {| si_rate := si_rate s; si_size := z; si_encoding := si_encoding s;
     si_channels := si_channels s; si_compression := si_compression s;
     si_reverse_bytes := si_reverse_bytes s;
     si_reverse_nibbles := si_reverse_nibbles s; si_reverse_bits := si_reverse_bits s |}.

Definition with_encoding (e : sox_encoding_t) (s : sox_signalinfo_t) : sox_signalinfo_t :=
  {| si_rate := si_rate s; si_size := si_size s; si_encoding := e;
     si_channels := si_channels s; si_compression := si_compression s;
     si_reverse_bytes := si_reverse_bytes s;
     si_reverse_nibbles := si_reverse_nibbles s; si_reverse_bits := si_reverse_bits s |}.

Definition with_reverse_bytes (r : reverse_bytes_t) (s : sox_signalinfo_t)
  : sox_signalinfo_t :=
  {| si_rate := si_rate s; si_size := si_size s; si_encoding := si_encoding s;
     si_channels := si_channels s; si_compression := si_compression s;
     si_reverse_bytes := r;
     si_reverse_nibbles := si_reverse_nibbles s; si_reverse_bits := si_reverse_bits s |}.

Definition with_reverse_nibbles (r : sox_option_t) (s : sox_signalinfo_t)
  : sox_signalinfo_t :=
  {| si_rate := si_rate s; si_size := si_size s; si_encoding := si_encoding s;
     si_channels := si_channels s; si_compression := si_compression s;
     si_reverse_bytes := si_reverse_bytes s;
     si_reverse_nibbles := r; si_reverse_bits := si_reverse_bits s |}.

Definition with_reverse_bits (r : sox_option_t) (s : sox_signalinfo_t)
  : sox_signalinfo_t :=
  {| si_rate := si_rate s; si_size := si_size s; si_encoding := si_encoding s;
     si_channels := si_channels s; si_compression := si_compression s;
     si_reverse_bytes := si_reverse_bytes s;
     si_reverse_nibbles := si_reverse_nibbles s; si_reverse_bits := r |}.

Definition set_channels (c : Z) (s : sox_signalinfo_t) : sox_signalinfo_t :=
  {| si_rate := si_rate s; si_size := si_size s; si_encoding := si_encoding s;
     si_channels := c; si_compression := si_compression s;
     si_reverse_bytes := si_reverse_bytes s;
     si_reverse_nibbles := si_reverse_nibbles s; si_reverse_bits := si_reverse_bits s |}.

Definition with_combine_method (m : combine_method_t) (g : globals) : globals :=
  {| play := play g; rec := rec g; combine_method := m; uservolume := uservolume g;
     bufsiz := bufsiz g; interactive := interactive g; plot := plot g;
     replay_gain_mode := replay_gain_mode g; repeatable_random := repeatable_random g;
     show_progress := show_progress g; verbosity := verbosity g |}.

Definition with_uservolume (b : bool) (g : globals) : globals :=
  {| play := play g; rec := rec g; combine_method := combine_method g;
     uservolume := b;
     bufsiz := bufsiz g; interactive := interactive g; plot := plot g;
     replay_gain_mode := replay_gain_mode g; repeatable_random := repeatable_random g;
     show_progress := show_progress g; verbosity := verbosity g |}.

Definition with_bufsiz (i : Z) (g : globals) : globals :=
  {| play := play g; rec := rec g; combine_method := combine_method g;
     uservolume := uservolume g;
     bufsiz := i; interactive := interactive g; plot := plot g;
     replay_gain_mode := replay_gain_mode g; repeatable_random := repeatable_random g;
     show_progress := show_progress g; verbosity := verbosity g |}.

Definition with_interactive (b : bool) (g : globals) : globals :=
  {| play := play g; rec := rec g; combine_method := combine_method g;
     uservolume := uservolume g;
     bufsiz := bufsiz g; interactive := b; plot := plot g;
     replay_gain_mode := replay_gain_mode g; repeatable_random := repeatable_random g;
     show_progress := show_progress g; verbosity := verbosity g |}.

Definition with_plot (m : plot_method) (g : globals) : globals :=
  {| play := play g; rec := rec g; combine_method := combine_method g;
     uservolume := uservolume g;
     bufsiz := bufsiz g; interactive := interactive g; plot := m;
     replay_gain_mode := replay_gain_mode g; repeatable_random := repeatable_random g;
     show_progress := show_progress g; verbosity := verbosity g |}.

Definition with_replay_gain_mode (m : rg_mode) (g : globals) : globals :=
  {| play := play g; rec := rec g; combine_method := combine_method g;
     uservolume := uservolume g;
     bufsiz := bufsiz g; interactive := interactive g; plot := plot g;
     replay_gain_mode := m; repeatable_random := repeatable_random g;
     show_progress := show_progress g; verbosity := verbosity g |}.

Definition with_repeatable_random (b : bool) (g : globals) : globals :=
  {| play := play g; rec := rec g; combine_method := combine_method g;
     uservolume := uservolume g;
     bufsiz := bufsiz g; interactive := interactive g; plot := plot g;
     replay_gain_mode := replay_gain_mode g; repeatable_random := b;
     show_progress := show_progress g; verbosity := verbosity g |}.

Definition with_show_progress (o : sox_option_t) (g : globals) : globals :=
  {| play := play g; rec := rec g; combine_method := combine_method g;
     uservolume := uservolume g;
     bufsiz := bufsiz g; interactive := interactive g; plot := plot g;
     replay_gain_mode := replay_gain_mode g; repeatable_random := repeatable_random g;
     show_progress := o; verbosity := verbosity g |}.

Definition with_verbosity (v : Z) (g : globals) : globals :=
  {| play := play g; rec := rec g; combine_method := combine_method g;
     uservolume := uservolume g;
     bufsiz := bufsiz g; interactive := interactive g; plot := plot g;
     replay_gain_mode := replay_gain_mode g; repeatable_random := repeatable_random g;
     show_progress := show_progress g; verbosity := v |}.

(** [usage(message)] with a message: exit code 1; [usage(NULL)]: exit code 0. *)
Definition usage {A : Type} (message : option string) : outcome A :=
  match message with
  | Some m => Exit 1 m
  | None => Exit 0 ""
  end.

(** [#define SOX_BUFMIN 16] *)
Definition SOX_BUFMIN : Z := 16.

(** [doopts], one option: whether the file is the null file, the file and
    the globals. *)
Definition doopt (o : option_t) (f : file_info) (g : globals)
  : outcome (bool * file_info * globals) :=
  let size z := Ret (false, with_signal (with_size z (signal f)) f, g) in
  let encoding e := Ret (false, with_signal (with_encoding e (signal f)) f, g) in
  let law e :=
    let s := with_encoding e (signal f) in
    let s := if si_size s =? -1 then with_size SOX_SIZE_BYTE s else s in
    Ret (false, with_signal s f, g) in
  let reverse_bytes r :=
    Ret (false, with_signal (with_reverse_bytes r (signal f)) f, g) in
  match o with
  | Opt_buffer (Some i) =>
      if i <=? SOX_BUFMIN then Exit 1 "Buffer size must be > 16"
      else Ret (false, f, with_bufsiz i g)
  | Opt_buffer None => Exit 1 "Buffer size must be > 16"
  | Opt_combine (Some m) => Ret (false, f, with_combine_method m g)
  | Opt_combine None => Exit 1 "--combine: not one of: sequence, concatenate, mix, merge"
  | Opt_comment_file file =>
      do c <- read_comment_file file;
      Ret (false, with_comment (Some (String.string_of_list_ascii c)) f, g)
  | Opt_comment s => Ret (false, with_comment (Some s) f, g)
  | Opt_endian (Some ENDIAN_little) => reverse_bytes REVERSE_IS_BIGENDIAN
  | Opt_endian (Some ENDIAN_big) => reverse_bytes REVERSE_IS_LITTLEENDIAN
  | Opt_endian (Some ENDIAN_swap) => reverse_bytes REVERSE_YES
  | Opt_endian None => Exit 1 "--endian: not one of: little, big, swap"
  | Opt_interactive => Ret (false, f, with_interactive true g)
  | Opt_help_effect => Exit 1 ""                        (* usage_effect *)
  | Opt_plot (Some m) => Ret (false, f, with_plot m g)
  | Opt_plot None => Exit 1 "--plot: not one of: off, octave, gnuplot"
  | Opt_replay_gain (Some m) => Ret (false, f, with_replay_gain_mode m g)
  | Opt_replay_gain None => Exit 1 "--replay-gain: not one of: off, track, album"
  | Opt_version => Exit 0 ""
  | Opt_m => Ret (false, f, with_combine_method sox_mix g)
  | Opt_M => Ret (false, f, with_combine_method sox_merge g)
  | Opt_R => Ret (false, f, with_repeatable_random true g)
  | Opt_n => Ret (true, f, g)
  | Opt_h => usage None
  | Opt_t s =>
      let filetype := match s with
                      | String c rest =>
                          if Ascii.eqb c (Ascii.ascii_of_nat 46) then rest else s
                      | EmptyString => s
                      end in
      Ret (false, with_filetype (Some filetype) f, g)
  | Opt_r (Some i) =>
      if i <=? 0 then Exit 1 "Rate value is not a positive integer"
      else Ret (false, with_signal (with_rate i (signal f)) f, g)
  | Opt_r None => Exit 1 "Rate value is not a positive integer"
  | Opt_v (Some d) => Ret (false, with_volume d f, with_uservolume true g)
  | Opt_v None => Exit 1 "Volume value is not a number"
  | Opt_c (Some i) =>
      if i <=? 0 then Exit 1 "Channels value is not a positive integer"
      else Ret (false, with_signal (set_channels i (signal f)) f, g)
  | Opt_c None => Exit 1 "Channels value is not a positive integer"
  | Opt_C (Some d) => Ret (false, with_signal (with_compression d (signal f)) f, g)
  | Opt_C None => Exit 1 "Compression value is not a number"
  | Opt_1 => size SOX_SIZE_BYTE
  | Opt_2 => size SOX_SIZE_16BIT
  | Opt_3 => size SOX_SIZE_24BIT
  | Opt_4 => size SOX_SIZE_32BIT
  | Opt_8 => size SOX_SIZE_64BIT
  | Opt_s => encoding SOX_ENCODING_SIGN2
  | Opt_u => encoding SOX_ENCODING_UNSIGNED
  | Opt_f => encoding SOX_ENCODING_FLOAT
  | Opt_a => encoding SOX_ENCODING_ADPCM
  | Opt_D => encoding SOX_ENCODING_MS_ADPCM
  | Opt_i => encoding SOX_ENCODING_IMA_ADPCM
  | Opt_o => encoding SOX_ENCODING_OKI_ADPCM
  | Opt_g => encoding SOX_ENCODING_GSM
  | Opt_U => law SOX_ENCODING_ULAW
  | Opt_A => law SOX_ENCODING_ALAW
  | Opt_L => reverse_bytes REVERSE_IS_BIGENDIAN
  | Opt_B => reverse_bytes REVERSE_IS_LITTLEENDIAN
  | Opt_x => reverse_bytes REVERSE_YES
  | Opt_X => Ret (false, with_signal (with_reverse_bits SOX_OPTION_YES (signal f)) f, g)
  | Opt_N => Ret (false, with_signal (with_reverse_nibbles SOX_OPTION_YES (signal f)) f, g)
  | Opt_S => Ret (false, f, with_show_progress SOX_OPTION_YES g)
  | Opt_q => Ret (false, f, with_show_progress SOX_OPTION_NO g)
  | Opt_V None => Ret (false, f, with_verbosity ((verbosity g + 1) mod 2 ^ 32) g)
  | Opt_V (Some (Some i)) =>
      if i <? 0 then Exit 1 "Verbosity value is not a non-negative integer"
      else Ret (false, f, with_verbosity i g)
  | Opt_V (Some None) => Exit 1 "Verbosity value is not a non-negative integer"
  end.

(** [parse_playlist]: the files named by a playlist are added to [files];
    [file_count] is the length of [files].  A playlist that cannot be
    opened (lines 307-310) or read (lines 372-375) ends the program. *)
Fixpoint parse_playlist (f0 : file_info) (pl : playlist) (files : list file_info)
  : outcome (list file_info) :=
  match pl with
  | PlCannotOpen => Exit 1 cannot_open_playlist
  | PlReadError => Exit 1 error_reading_playlist
  | PlNil => Ret files
  | PlFile id rest =>
      if (MAX_FILES <=? length files)%nat then Exit 1 too_many_filenames
      else parse_playlist f0 rest (files ++ [with_filename id f0])
  | PlNested sub rest =>
      if (MAX_FILES <=? length files)%nat then Exit 1 too_many_filenames
      else
        do files' <- parse_playlist f0 sub files;
        parse_playlist f0 rest files'
  end.

(** The loop of [parse_options_and_filenames], lines 386-413, an argument at
    a time.  [cur] is the file [f] whose options are being read; a round of
    the loop starts where it is [None]. *)
Fixpoint parse_filenames (args : list arg) (cur : option file_info) (g : globals)
    (files : list file_info) : outcome (option file_info * globals * list file_info) :=
  match args with
  | [] => Ret (cur, g, files)
  | a :: rest =>
      do f <- match cur with
              | Some f => Ret f
              | None =>
                  if (MAX_FILES <=? length files)%nat then Exit 1 too_many_filenames
                  else Ret new_file
              end;
      match a with
      | Aopt o =>
          do (isnull, f', g') <- doopt o f g;
          if isnull : bool
          then parse_filenames rest None g'
                 (files ++ [with_filename "-n" (with_filetype (Some "null") f')])
          else parse_filenames rest (Some f') g' files
      | Afile n => parse_filenames rest None g (files ++ [with_filename n f])
      | Aplaylist n pl =>
          do files' <- parse_playlist f pl files;
          parse_filenames rest None g files'
      end
  end.

(** [f] differs from [fi_none], the file as [new_file] gives it, under
    [memcmp]: on the fields that an option sets.  The names by which
    [reverse_bytes] is set are taken to differ from SOX_OPTION_DEFAULT. *)
Definition file_opts_given (f : file_info) : bool :=
  negb (bool_decide (filetype f = None)
        && (si_rate (signal f) =? 0)
        && (si_size (signal f) =? -1)
        && match si_encoding (signal f) with SOX_ENCODING_UNKNOWN => true | _ => false end
        && (si_channels (signal f) =? 0)
        && double_eqb (si_compression (signal f)) HUGE_VAL
        && match si_reverse_bytes (signal f) with REVERSE_DEFAULT => true | _ => false end
        && match si_reverse_nibbles (signal f) with
           | SOX_OPTION_DEFAULT => true | _ => false end
        && match si_reverse_bits (signal f) with
           | SOX_OPTION_DEFAULT => true | _ => false end
        && double_eqb (volume f) HUGE_VAL
        && bool_decide (comment f = None)).

Section Main.
(** [set_device]: the type and name of the default audio device for
    playing or recording, if one is configured. *)
Variable default_device : bool -> option (string * string).
(** [sox_open_read(filename, &signal, filetype)] *)
Variable sox_open_read : string -> sox_signalinfo_t -> option string -> option sox_format.
(** The gain [set_replay_gain] finds in a comment with [strncasecmp] and
    [atof], if there is one for the mode in force. *)
Variable comment_replay_gain : string -> option double.
(** [pow] of math.h *)
Variable pow : double -> double -> double.
(** [lt_dlinit() == 0] in [find_formats] *)
Variable plugins_found : bool.

Definition set_device (f : file_info) (recording : bool) : outcome file_info :=
  match default_device recording with
  | Some (t, n) => Ret (with_filename n (with_filetype (Some t) f))
  | None => Exit 1 "Sorry, there is no default audio device configured"
  end.

(** [parse_options_and_filenames]. *)
Definition parse_options_and_filenames (args : list arg) (g : globals)
  : outcome (globals * list file_info) :=
  do (cur, g, files) <- parse_filenames args None g [];
  do files <-
    (if play g then
       if (MAX_FILES <=? length files)%nat then Exit 1 too_many_filenames
       else
         do f <- set_device (default new_file cur) false;
         Ret (files ++ [f])
     else
       match cur with
       | Some f => if file_opts_given f then usage (Some "missing filename")
                   else Ret files
       | None => Ret files
       end);
  if rec g then
    if (MAX_FILES <=? length files)%nat then Exit 1 too_many_filenames
    else
      do f <- set_device new_file true;
      Ret (g, f :: files)
  else Ret (g, files).

Definition set_replay_gain (c : string) (f : file_info) : file_info :=
  match comment_replay_gain c with
  | Some gain => with_replay_gain gain f
  | None => f
  end.

(** [main], lines 535-553: the input [files[j]] as it is passed to
    [sox_open_read]. *)
Definition prepare_input (g : globals) (input_count : nat) (j : nat)
    (files : list file_info) : file_info :=
  let f := files !!! j in
  let f := if combine_method_eqb (combine_method g) sox_mix && negb (uservolume g)
           then with_volume (double_div (Fin 1) (double_of_Z (Z.of_nat input_count))) f
           else f in
  if rec g && (j =? 0)%nat then
    let src := if (1 <? input_count)%nat
               then ft_signal (desc_of (files !!! 1%nat))
               else signal (files !!! 1%nat) in
    with_signal (set_channels (si_channels src) (with_rate (si_rate src) (signal f))) f
  else f.

(** [main], lines 534-565, the loop that opens the inputs, last input
    first, from round [i] on for [n] rounds.  [opened] lists the names
    passed to [sox_open_read]. *)
Fixpoint open_inputs (g : globals) (input_count : nat) (i n : nat)
    (opened : list string) (files : list file_info)
  : list string * outcome (list file_info) :=
  match n with
  | O => (opened, Ret files)
  | S n' =>
      let j := (input_count - 1 - i)%nat in
      let f := prepare_input g input_count j files in
      match sox_open_read (filename f) (signal f) (filetype f) with
      | None => (opened ++ [filename f], Exit 2 "")
      | Some d =>
          let f := with_desc (Some d) f in
          let f := match ft_comment d with
                   | Some c => set_replay_gain c f
                   | None => f
                   end in
          open_inputs g input_count (S i) n' (opened ++ [filename f]) (<[j := f]> files)
      end
  end.

(** Lines 523-531: options given to the wrong kind of file. *)
Fixpoint check_input_options (files : list file_info) (n : nat) : outcome unit :=
  match n, files with
  | S n', f :: rest =>
      if negb (double_eqb (si_compression (signal f)) HUGE_VAL)
      then usage (Some "A compression factor can only be given for an output file")
      else if negb (bool_decide (comment f = None))
      then usage (Some "A comment can only be given for an output file")
      else check_input_options rest n'
  | _, _ => Ret tt
  end.

(** [main], lines 517-531: the checks between the command line and the
    opening of the inputs; the result is [input_count]. *)
Definition check_files (g : globals) (files : list file_info) : outcome nat :=
  let file_count := length files in
  let input_count := if (file_count =? 0)%nat then 0%nat else (file_count - 1)%nat in
  let required := if combine_rank (combine_method g) <=? combine_rank sox_concatenate
                  then 1%nat else 2%nat in
  if (input_count <? required)%nat
  then usage (Some "Not enough input filenames specified")
  else
    do _ <- check_input_options files input_count;
    if negb (double_eqb (volume (files !!! (file_count - 1)%nat)) HUGE_VAL)
    then usage (Some "-v can only be given for an input file")
    else Ret input_count.

(** [main] up to the opening of the inputs: the names passed to
    [sox_open_read], and the globals and the files, input files first. *)
Definition main_open (args : list arg) (g : globals)
  : list string * outcome (globals * list file_info) :=
  match parse_options_and_filenames args g with
  | Exit code msg => ([], Exit code msg)
  | Ret (g, files) =>
      if negb plugins_found then ([], Exit 1 "lt_dlinit failed")
      else
        match check_files g files with
        | Exit code msg => ([], Exit code msg)
        | Ret input_count =>
            match open_inputs g input_count 0 input_count [] files with
            | (opened, Exit code msg) => (opened, Exit code msg)
            | (opened, Ret files) => (opened, Ret (g, files))
            end
        end
  end.

End Main.

(** ** The properties claimed, in terms of the model *)

(** The first [n] entries of an array. *)
Definition first_files (files : list file_info) (n : nat) : list file_info :=
  (fun i => files !!! i) <$> seq 0 n.

Definition first_effects {P F : Type} `{Libsox P F} (tab : list (sox_effect P)) (n : nat)
  : list (sox_effect P) := (fun i => tab !!! i) <$> seq 0 n.

(** The length of an input in wide samples. *)
Definition wide_length (f : file_info) : Z := desc_length f / desc_channels f.

Definition sum_list_Z (l : list Z) : Z := foldr Z.add 0 l.
Definition max_list_Z (l : list Z) : Z := foldr Z.max 0 l.

(** The output length claimed for a combine method, the inputs and the
    user's effects. *)
Definition predicted_length {P : Type} (m : combine_method_t) (inputs : list file_info)
    (users : list (sox_effect P)) : Z :=
  match m with
  | sox_sequence => 0
  | _ =>
      if existsb (fun e => has_flag e SOX_EFF_LENGTH) users
         || existsb (fun f => desc_length f =? 0) inputs
      then 0
      else match m with
           | sox_concatenate => sum_list_Z (wide_length <$> inputs)
           | _ => max_list_Z (wide_length <$> inputs)
           end
  end.

(** The number of effects that have a flag. *)
Definition count_flag {P : Type} (flag : Z) (l : list (sox_effect P)) : Z :=
  foldr (fun e n => (if has_flag e flag then 1 else 0) + n) 0 l.

(** The chain claimed for a combiner signal, an output signal and the user's
    effects: the names of the effects after the input entry. *)
Definition expected_chain {P : Type} (combiner ofile_signal : sox_signalinfo_t)
    (users : list (sox_effect P)) : list (option string) :=
  let need_chan := negb (si_channels combiner =? si_channels ofile_signal)
                   && negb (existsb (fun e => has_flag e SOX_EFF_CHAN) users) in
  let need_rate := negb (si_rate combiner =? si_rate ofile_signal)
                   && negb (existsb (fun e => has_flag e SOX_EFF_RATE) users) in
  let mixer_first := need_chan && (si_channels ofile_signal <? si_channels combiner) in
  let resample_first := need_rate && (si_rate ofile_signal <? si_rate combiner) in
  (if mixer_first then [Some "mixer"] else [])
  ++ (if resample_first then [Some "resample"] else [])
  ++ (name <$> users)
  ++ (if need_rate && negb resample_first then [Some "resample"] else [])
  ++ (if need_chan && negb mixer_first then [Some "mixer"] else []).

(** The chain of a table: the entries after the input entry. *)
Definition chain {P : Type} (t : effects_table P) : list (sox_effect P) :=
  take (neffects t - 1) (drop 1 (efftab t)).

(** What the chain builder relies on in libSoX: [sox_geteffect] gives the
    effect of the name asked for, and [sox_updateeffect] keeps the name. *)
Definition libsox_names_ok {P F : Type} `{Libsox P F} : Prop :=
  (forall n, name (sox_geteffect n) = Some n)
  /\ (forall e i o m, name (fst (sox_updateeffect e i o m)) = name e).

(** The entries that both [efftab] and [efftabR] have (MAX_EFF in
    sox.c). *)
Definition capacity {P : Type} (t : effects_table P) : nat :=
  length (efftab t) `min` length (efftabR t).

(** The entries of [efftabR] beside the chain. *)
Definition chainR {P : Type} (t : effects_table P) : list (sox_effect P) :=
  take (neffects t - 1) (drop 1 (efftabR t)).

(** A default effect as [add_default_effect] sets it up: what
    [sox_geteffect] gives for the name, after its [getopts] with no
    option. *)
Definition default_effect {P F : Type} `{Libsox P F} (nm : string) : sox_effect P :=
  let e := sox_geteffect nm in
  let r := default sox_effect_nothing_getopts (h_getopts (h e)) (priv e) (clips e) [] in
  set_effp (cr_priv r) (cr_clips r) e.

(** The effects the chain is claimed to be made of, in the order claimed:
    as [expected_chain], with the effects in the place of their names. *)
Definition chain_sources {P F : Type} `{Libsox P F}
    (combiner ofile_signal : sox_signalinfo_t) (users : list (sox_effect P))
  : list (sox_effect P) :=
  let need_chan := negb (si_channels combiner =? si_channels ofile_signal)
                   && negb (existsb (fun e => has_flag e SOX_EFF_CHAN) users) in
  let need_rate := negb (si_rate combiner =? si_rate ofile_signal)
                   && negb (existsb (fun e => has_flag e SOX_EFF_RATE) users) in
  let mixer_first := need_chan && (si_channels ofile_signal <? si_channels combiner) in
  let resample_first := need_rate && (si_rate ofile_signal <? si_rate combiner) in
  (if mixer_first then [default_effect "mixer"] else [])
  ++ (if resample_first then [default_effect "resample"] else [])
  ++ users
  ++ (if need_rate && negb resample_first then [default_effect "resample"] else [])
  ++ (if need_chan && negb mixer_first then [default_effect "mixer"] else []).

(** [sox_updateeffect] on each effect in turn, between the combiner and the
    output signal, with the mask that the one before has left: the effects
    as they are left, and the last mask. *)
Fixpoint update_all {P F : Type} `{Libsox P F} (combiner ofile_signal : sox_signalinfo_t)
    (mask : Z) (es : list (sox_effect P)) : list (sox_effect P) * Z :=
  match es with
  | [] => ([], mask)
  | e :: es' =>
      let '(e', m) := sox_updateeffect e combiner ofile_signal mask in
      let '(l, m') := update_all combiner ofile_signal m es' in
      (e' :: l, m')
  end.

(** What belongs in [efftabR] beside an effect: the effect again where it
    is to run as twins, a zeroed entry where not. *)
Definition twin_of {P F : Type} `{Libsox P F} (e : sox_effect P) : sox_effect P :=
  if (1 <? si_channels (ininfo e)) && negb (has_flag e SOX_EFF_MCHAN)
  then e else zero_effect.

(** The tables after the effects [done] have been added to those of [t0],
    [mask] being the mask then. *)
Definition built {P F : Type} `{Libsox P F} (combiner ofile_signal : sox_signalinfo_t)
    (t0 t : effects_table P) (done : list (sox_effect P)) (mask : Z) : Prop :=
  neffects t = S (length done)
  /\ chain t = fst (update_all combiner ofile_signal 0 done)
  /\ chainR t = twin_of <$> chain t
  /\ mask = snd (update_all combiner ofile_signal 0 done)
  /\ efftab t !! 0%nat = efftab t0 !! 0%nat
  /\ efftabR t !! 0%nat = efftabR t0 !! 0%nat
  /\ length (efftab t) = length (efftab t0)
  /\ length (efftabR t) = length (efftabR t0).

(** The same where a store may have gone past the end: then it was at an
    index from the shorter array's length on, for one of [done]. *)
Definition built_or_past {P F : Type} `{Libsox P F}
    (combiner ofile_signal : sox_signalinfo_t) (t0 : effects_table P)
    (st : in_bounds (effects_table P * Z)) (done : list (sox_effect P)) : Prop :=
  match st with
  | Within (t, mask) => built combiner ofile_signal t0 t done mask
  | PastEnd i =>
      (capacity t0 <= i <= length done)%nat
  end.

(** A default effect refuses its default options. *)
Definition default_getopts_fail {P F : Type} `{Libsox P F} : Prop :=
  exists nm,
    cr_status (default sox_effect_nothing_getopts (h_getopts (h (sox_geteffect nm)))
                 (priv (sox_geteffect nm)) (clips (sox_geteffect nm)) [])
    = SOX_EOF.

(** What a stage of the builder leaves after the effects [done]: it has
    left through [exit(2)] as a default effect refused its options, or the
    tables are built, or a store has gone past the end. *)
Definition stage {P F : Type} `{Libsox P F} (combiner ofile_signal : sox_signalinfo_t)
    (t0 : effects_table P) (done : list (sox_effect P))
    (r : outcome (in_bounds (effects_table P * Z))) : Prop :=
  match r with
  | Exit code _ => code = 2 /\ default_getopts_fail
  | Ret st => built_or_past combiner ofile_signal t0 st done
  end.

(** The inputs a combine method needs. *)
Definition required_inputs (m : combine_method_t) : nat :=
  match m with
  | sox_mix | sox_merge => 2
  | _ => 1
  end.

Definition not_enough_message : string := "Not enough input filenames specified".


(** The default effects take their default options. *)
Definition default_getopts_ok {P F : Type} `{Libsox P F} : Prop :=
  forall nm,
    cr_status (default sox_effect_nothing_getopts (h_getopts (h (sox_geteffect nm)))
                 (priv (sox_geteffect nm)) (clips (sox_geteffect nm)) [])
    <> SOX_EOF.

Definition multiple_chan_message : string :=
  "Cannot specify multiple effects that change number of channels".

(** The contract of [flow] and [drain]: up to [*isamp] samples are
    consumed and up to [*osamp] samples are produced. *)
Definition flow_ok {P : Type} (f : flow_fn P) : Prop :=
  forall p c ibuf isamp osamp, 0 <= isamp -> 0 <= osamp ->
    0 <= fr_isamp (f p c ibuf isamp osamp) <= isamp
    /\ Z.of_nat (length (fr_obuf (f p c ibuf isamp osamp))) <= osamp.

Definition drain_ok {P : Type} (d : drain_fn P) : Prop :=
  forall p c osamp, 0 <= osamp ->
    Z.of_nat (length (dr_obuf (d p c osamp))) <= osamp.

Definition handlers_ok {P F : Type} `{Libsox P F} (e : sox_effect P) : Prop :=
  flow_ok (default sox_effect_nothing_flow (h_flow (h e)))
  /\ drain_ok (default sox_effect_nothing_drain (h_drain (h e))).

(** The handlers of libSoX keep the contract, and [sox_write] returns a
    number of samples. *)
Definition libsox_ok {P F : Type} `{Libsox P F} : Prop :=
  flow_ok sox_effect_nothing_flow
  /\ drain_ok sox_effect_nothing_drain
  /\ (forall d buf, 0 <= snd (sox_write d buf)).

(** The invariant of a stage's buffer. *)
Definition buffer_ok `{Platform} {P : Type} (e : sox_effect P) : Prop :=
  0 <= odone e /\ odone e <= olen e /\ olen e <= sox_bufsiz.

(** A used-up buffer has been reset. *)
Definition buffer_reused {P : Type} (e : sox_effect P) : Prop :=
  odone e = olen e -> odone e = 0 /\ olen e = 0.

Definition stage_ok `{Platform} {P F : Type} `{Libsox P F} (e : sox_effect P) : Prop :=
  handlers_ok e /\ buffer_ok e.

(** Every stage of the chain keeps the contract and the invariant. *)
Definition sched_ok `{Platform} {P F : Type} `{Libsox P F} (s : sched P F) : Prop :=
  Forall stage_ok (take (neffects (sc_tab s)) (efftab (sc_tab s))).

(** The stages from [k] on whose buffer is used up have been reset. *)
Definition reused_from {P F : Type} `{Libsox P F} (k : nat) (s : sched P F) : Prop :=
  forall e, (k <= e < neffects (sc_tab s))%nat -> buffer_reused (eff s e).

(** ** More of the driver *)

(** *** What the merge is to compute *)

Section Merged.
Variable files : list file_info.
Variable input_count : nat.
Variable ilen : list Z.
Variable ibuf : list (list Z).

(** Sample [s] of wide sample [ws] of input [i], zero once the input has no
    wide sample [ws] in the block read. *)
Definition merged_sample (ws i s : nat) : Z :=
  if Z.of_nat ws <? ilen !!! i
  then (ibuf !!! i) !!! (ws * Z.to_nat (desc_channels (files !!! i)) + s)%nat
  else 0.

(** Wide sample [ws] of the merge: the wide samples [ws] of the inputs, one
    after the other. *)
Definition merged_wide (ws : nat) : list Z :=
  flat_map (fun i => merged_sample ws i <$> seq 0 (Z.to_nat (desc_channels (files !!! i))))
    (seq 0 input_count).

Definition merged_block (olen : nat) : list Z := flat_map merged_wide (seq 0 olen).
End Merged.

(** A step of the combiner that stores the samples [w] at [p] and moves [p]
    past them. *)
Definition stores (g : combiner_state -> combiner_state) (w : list Z) : Prop :=
  forall st,
    g st = {| cs_obuf := list_inserts (cs_p st) w (cs_obuf st);
              cs_p := (cs_p st + length w)%nat;
              cs_mixing_clips := cs_mixing_clips st |}.

(** Samples that are small enough for a sum of [n] of them to stay in the
    sample range. *)
Definition small_sample (n : nat) (x : Z) : Prop :=
  Z.abs x * Z.of_nat n <= SOX_SAMPLE_MAX.

(** The first [n] inputs agree on what [get] reads from their
    descriptors. *)
Definition inputs_agree (get : file_info -> Z) (files : list file_info) (n : nat) : Prop :=
  forall i j, (i < n)%nat -> (j < n)%nat -> get (files !!! i) = get (files !!! j).

(** The default effects that [build_effects_table] adds: one to change the
    number of channels and one to change the rate, each where the number or
    the rate differs between the combiner and the output and no user
    effect is there to change it. *)
Definition default_effects {P : Type} (combiner ofile_signal : sox_signalinfo_t)
    (users : list (sox_effect P)) : nat :=
  (if negb (si_channels combiner =? si_channels ofile_signal)
      && negb (existsb (fun e => has_flag e SOX_EFF_CHAN) users) then 1 else 0)
  + (if negb (si_rate combiner =? si_rate ofile_signal)
        && negb (existsb (fun e => has_flag e SOX_EFF_RATE) users) then 1 else 0).

(** ** [parse_effects] *)

Section ParseEffects.
Context {P F : Type} `{Libsox P F}.
(** [sox_geteffect_opt(e, argc, argv)] of libSoX: for arguments that start
    with the name of an effect, the effect and the number of the arguments
    that are its own; SOX_EOF, here [None], where they do not. *)
Variable sox_geteffect_opt : list string -> option (sox_effect P * nat).

(** The loop of [parse_effects] over the arguments from [argv[optind]] on;
    [skip] counts the arguments of the effect just read that [optind] is
    still to pass. *)
Fixpoint parse_effects_from (args : list string) (skip : nat)
    (user_efftab : list (sox_effect P)) (nuser_effects : nat)
  : outcome (list (sox_effect P) * nat) :=
  match args with
  | [] => Ret (user_efftab, nuser_effects)
  | a :: rest =>
      match skip with
      | S skip' => parse_effects_from rest skip' user_efftab nuser_effects
      | O =>
          if (MAX_USER_EFF <=? nuser_effects)%nat
          then Exit 1 "too many effects specified (at most 14 allowed)"
          else
            match sox_geteffect_opt (a :: rest) with
            | None => Exit 1 "Effect does not exist!"
            | Some (e, argc_effect) =>
                let getopts := default sox_effect_nothing_getopts (h_getopts (h e)) in
                let r := getopts (priv e) (clips e) (take argc_effect rest) in
                if cr_status r =? SOX_EOF then Exit 2 ""
                else
                  parse_effects_from rest argc_effect
                    (<[nuser_effects := set_effp (cr_priv r) (cr_clips r) e]> user_efftab)
                    (S nuser_effects)
            end
      end
  end.

(** [parse_effects]: [user_efftab] and [nuser_effects]. *)
Definition parse_effects (args : list string) (user_efftab : list (sox_effect P))
  : outcome (list (sox_effect P) * nat) :=
  parse_effects_from args 0 user_efftab 0.
End ParseEffects.

(** The name of each effect of the chain and whether it has the flag
    SOX_EFF_NULL. *)
Definition chain_marks {P : Type} (t : effects_table P) : list (option string * bool) :=
  (fun e => (name e, has_flag e SOX_EFF_NULL)) <$> chain t.

(** What every step of the scheduler keeps: [input_eff] does not go down,
    [user_abort] and [neffects] stay, and during a user abort the output
    file is left alone. *)
Definition carries_on {P F : Type} (s s' : sched P F) : Prop :=
  (input_eff s <= input_eff s')%nat
  /\ user_abort s' = user_abort s
  /\ neffects (sc_tab s') = neffects (sc_tab s)
  /\ (user_abort s = true -> ofile_desc s' = ofile_desc s).

(** ** [balance_input] *)

Section Balance.
Context `{Platform}.
(** SOX_ROUND_CLIP_COUNT of sox.h on a double that need not be a whole
    number: the sample and the new count of clips. *)
Variable round_clip_count : double -> Z -> Z * Z.

(** The body of the loop of [balance_input]: sample [k] of [buf]. *)
Definition balance_sample (vol : double) (k : nat) (st : list Z * Z) : list Z * Z :=
  let d := double_mul vol (double_of_Z (fst st !!! k)) in
  let '(v, clips) := round_clip_count d (snd st) in
  (<[k := v]> (fst st), clips).

(** [balance_input(buf, ws, f)]: the buffer and [f->volume_clips]. *)
Definition balance_input (buf : list Z) (ws : Z) (f : file_info) : list Z * Z :=
  let s := sz (ws * desc_channels f) in
  if negb (double_eqb (volume f) (Fin 1))
  then for_up 0 (Z.to_nat s) (balance_sample (volume f)) (buf, volume_clips f)
  else (buf, volume_clips f).
End Balance.

(** *** What the clip count is to be *)

(** The clips an input has: those of its format and those of its volume. *)
Definition file_clips (f : file_info) : Z := ft_clips (desc_of f) + volume_clips f.

(** What [total_clips] counts for the effect [i]: the clips of
    [efftab[i]], twice where [efftabR[i]] is in use. *)
Definition counted_clips {P F : Type} `{Libsox P F} (t : effects_table P) (i : nat) : Z :=
  match name (efftabR t !!! i) with
  | Some _ => 2 * clips (efftab t !!! i)
  | None => clips (efftab t !!! i)
  end.

(** An effect with what [stop] may change left out. *)
Definition stopped_like {P : Type} (e e' : sox_effect P) : Prop :=
  name e' = name e /\ h e' = h e /\ ininfo e' = ininfo e /\ outinfo e' = outinfo e
  /\ obuf e' = obuf e /\ olen e' = olen e /\ odone e' = odone e.

(** What [stop_effects] passes to its warning for the effect [e] of a
    table that has been stopped: nothing where the count is 0. *)
Definition reported_clips {P F : Type} `{Platform} `{Libsox P F}
    (t : effects_table P) (e : nat) : option (option string * Z) :=
  let c := match name (efftabR t !!! e) with
           | Some _ => sz (2 * clips (efftab t !!! e))
           | None => clips (efftab t !!! e)
           end in
  if c =? 0 then None else Some (name (efftab t !!! e), c).

(** The file names of a playlist, those of the playlists it names in their
    place. *)
Fixpoint playlist_names (pl : playlist) : list string :=
  match pl with
  | PlNil | PlReadError | PlCannotOpen => []
  | PlFile id rest => id :: playlist_names rest
  | PlNested sub rest => playlist_names sub ++ playlist_names rest
  end.

(** The playlist and the playlists it names can all be opened and read to
    their end. *)
Fixpoint readable (pl : playlist) : bool :=
  match pl with
  | PlNil => true
  | PlFile _ rest => readable rest
  | PlNested sub rest => readable sub && readable rest
  | PlReadError | PlCannotOpen => false
  end.

(** ** Signals: [since] and [sigint] *)

(** [struct timeval] *)
Record timeval : Type := {
  tv_sec : Z;
  tv_usec : Z
}.

(** The microseconds from [then_] to [now]. *)
Definition elapsed_usec (then_ now : timeval) : Z :=
  (tv_sec now - tv_sec then_) * 1000000 + (tv_usec now - tv_usec then_).

(** A time as [gettimeofday] gives it. *)
Definition timeval_ok (t : timeval) : Prop := 0 <= tv_usec t < 1000000.

(** Where the doubles of [since] are exact: [secs] is a whole number of
    64ths of a second, so that [secs * 1e6] is a whole number, and the
    times are no more than 10^9 seconds apart; every double of line 1023 is
    then a whole number below 2^53.  The [1.] of [sigint] is such a [secs];
    the [.15] of [update_status] is not. *)
Definition exact_secs (secs : Q) : Prop :=
  exists k : Z, (secs == k # 64)%Q /\ Z.abs k <= 2 ^ 39.

Definition near (then_ now : timeval) : Prop :=
  Z.abs (tv_sec now - tv_sec then_) <= 10 ^ 9.

(** [since(&then, secs, always_reset)] with the doubles of line 1023 as
    they are computed: [fl] gives the double that a real number is rounded
    to, and every conversion to double and every product and sum of
    doubles is rounded by it.  [secs] is a double, [1e6] is the double
    1000000 and [ceil] of a double is a double.  [now] is what
    [gettimeofday] gives; the result is [ret] and the new [then]. *)
Definition since_double (fl : Q -> Q) (then_ now : timeval) (secs : Q)
    (always_reset : bool) : bool * timeval :=
  let d := tv_sec now - tv_sec then_ in
  let ret :=
    negb (Qle_bool (fl (inject_Z d)) (inject_Z (Qceiling secs)))
    || Qle_bool (fl (secs * inject_Z 1000000)%Q)
         (fl (fl (inject_Z (tv_usec now - tv_usec then_))
              + fl (fl (inject_Z d) * inject_Z 1000000))%Q) in
  (ret, if ret || always_reset then now else then_).

(** What is used of the rounding: a whole number up to 2^53 is a double. *)
Definition rounding_ok (fl : Q -> Q) : Prop :=
  (forall a b : Q, (a == b)%Q -> (fl a == fl b)%Q)
  /\ (forall n : Z, Z.abs n <= 2 ^ 53 -> (fl (inject_Z n) == inject_Z n)%Q).

(** [since] without the roundings: this is [since_double] for
    [exact_secs] and times that are [near], and not where a double of line
    1023 is rounded. *)
Definition since (then_ now : timeval) (secs : Q) (always_reset : bool) : bool * timeval :=
  let d := tv_sec now - tv_sec then_ in
  let ret :=
    (Qceiling secs <? d)
    || Qle_bool (secs * inject_Z 1000000)
         (inject_Z (tv_usec now - tv_usec then_) + inject_Z d * inject_Z 1000000) in
  (ret, if ret || always_reset then now else then_).

(** The numbers of the signals, as POSIX has them; sox.c names them only. *)
Definition SIGINT : Z := 2.
Definition SIGTERM : Z := 15.

(** What [sigint] reads and writes: its static [then] and the flags
    [user_skip] and [user_abort]. *)
Record signal_state : Type := {
  sg_then : timeval;
  user_skip : bool;
  sg_user_abort : bool
}.

(** [sigint(s)], the handler of SIGINT and SIGTERM. *)
Definition sigint (show_progress : bool) (combine_method : combine_method_t)
    (now : timeval) (s : Z) (st : signal_state) : signal_state :=
  if show_progress && (s =? SIGINT)
     && (combine_rank combine_method <=? combine_rank sox_concatenate)
  then
    let '(ret, then') := since (sg_then st) now 1 true in
    if ret
    then {| sg_then := then'; user_skip := true; sg_user_abort := sg_user_abort st |}
    else {| sg_then := then'; user_skip := user_skip st; sg_user_abort := true |}
  else {| sg_then := sg_then st; user_skip := user_skip st; sg_user_abort := true |}.

(** ** [set_replay_gain]: the scan of the comment (lines 261-280)

    A C string is the list of its characters before the NUL. *)

(** [rg ^= RG_track ^ RG_album], for [rg] one of the two. *)
Definition rg_other (rg : rg_mode) : rg_mode :=
  match rg with
  | RG_track => RG_album
  | RG_album => RG_track
  | RG_off => RG_off
  end.

Definition rg_target (rg : rg_mode) : list Ascii.ascii :=
  match rg with
  | RG_track => String.list_ascii_of_string "REPLAYGAIN_TRACK_GAIN="
  | _ => String.list_ascii_of_string "REPLAYGAIN_ALBUM_GAIN="
  end.

(** [tolower] of the C locale. *)
Definition tolower (c : Ascii.ascii) : Ascii.ascii :=
  let n := Ascii.nat_of_ascii c in
  if (65 <=? n)%nat && (n <=? 90)%nat then Ascii.ascii_of_nat (n + 32) else c.

(** [strncasecmp(p, target, strlen(target)) == 0] *)
Fixpoint starts_nocase (target p : list Ascii.ascii) : bool :=
  match target, p with
  | [], _ => true
  | t :: target', c :: p' => Ascii.eqb (tolower c) (tolower t) && starts_nocase target' p'
  | _ :: _, [] => false
  end.

(** [strchr("\r\n\t\f ", c)] for a [c] that is not NUL. *)
Definition is_blank (c : Ascii.ascii) : bool :=
  existsb (Ascii.eqb c)
    [Ascii.ascii_of_nat 13; Ascii.ascii_of_nat 10; Ascii.ascii_of_nat 9;
     Ascii.ascii_of_nat 12; Ascii.ascii_of_nat 32].

(** [while ( *p && *p != '\n') ++p;] *)
Fixpoint skip_line (p : list Ascii.ascii) : list Ascii.ascii :=
  match p with
  | [] => []
  | c :: p' => if Ascii.eqb c newline then p else skip_line p'
  end.

(** [while ( *p && strchr("\r\n\t\f ", *p)) ++p;] *)
Fixpoint skip_blank (p : list Ascii.ascii) : list Ascii.ascii :=
  match p with
  | [] => []
  | c :: p' => if is_blank c then skip_blank p' else p
  end.

(** The loop [do ... while ( *p)] of the scan for [target]: what follows
    the target where it is found, that is [p + strlen(target)].  Every round
    but the last moves [p] on, so that [rounds] rounds are enough when
    [rounds] is more than the length of [p]. *)
Fixpoint scan_comment_from (rounds : nat) (target p : list Ascii.ascii)
  : option (list Ascii.ascii) :=
  match rounds with
  | O => None
  | S rounds' =>
      if starts_nocase target p then Some (drop (length target) p)
      else
        let p' := skip_blank (skip_line p) in
        match p' with
        | [] => None
        | _ :: _ => scan_comment_from rounds' target p'
        end
  end.

Definition scan_comment (target p : list Ascii.ascii) : option (list Ascii.ascii) :=
  scan_comment_from (S (length p)) target p.

(** [set_replay_gain(comment, f)]: the gain it stores in [f->replay_gain],
    [None] where it stores none.  [atof] is that of the C library. *)
Definition find_replay_gain (atof : list Ascii.ascii -> double)
    (replay_gain_mode : rg_mode) (comment : list Ascii.ascii) : option double :=
  let rg := replay_gain_mode in
  match rg with
  | RG_off => None
  | _ =>
      match scan_comment (rg_target rg) comment with
      | Some rest => Some (atof rest)
      | None =>
          let rg := rg_other rg in
          match scan_comment (rg_target rg) comment with
          | Some rest => Some (atof rest)
          | None => None
          end
      end
  end.

(** *** Comments of lines *)

(** The lines with a newline between them. *)
Fixpoint join_lines (lines : list (list Ascii.ascii)) : list Ascii.ascii :=
  match lines with
  | [] => []
  | [l] => l
  | l :: ls => l ++ newline :: join_lines ls
  end.

(** A line: it holds no newline and starts with a character that is not
    blank. *)
Definition text_line (l : list Ascii.ascii) : Prop :=
  Forall (fun c => c <> newline) l
  /\ exists c l', l = c :: l' /\ is_blank c = false.

(** What follows the target in the comment from the first line on that
    starts with it. *)
Fixpoint first_tagged (target : list Ascii.ascii) (lines : list (list Ascii.ascii))
  : option (list Ascii.ascii) :=
  match lines with
  | [] => None
  | l :: ls =>
      if starts_nocase target l then Some (drop (length target) (join_lines lines))
      else first_tagged target ls
  end.

(** ** A platform and a libSoX to run the driver on

    32-bit sizes and a buffer of 32 samples (--buffer 32); effects whose
    private state is a number; an output file that takes every sample it is
    given and is the list of the samples written. *)

Definition platform32 : Platform :=
  {| SOX_SIZE_MAX := 4294967295; sox_bufsiz := 32 |}.

Definition call_nothing : call_fn Z :=
  fun p c => {| cr_priv := p; cr_clips := c; cr_status := SOX_SUCCESS |}.

Definition getopts_nothing : getopts_fn Z :=
  fun p c _ => {| cr_priv := p; cr_clips := c; cr_status := SOX_SUCCESS |}.

(** Samples pass through. *)
Definition flow_nothing : flow_fn Z :=
  fun p c ibuf isamp osamp =>
    {| fr_priv := p; fr_clips := c; fr_status := SOX_SUCCESS;
       fr_isamp := Z.min (Z.of_nat (length (take (Z.to_nat (Z.min isamp osamp)) ibuf)))
                     (Z.min isamp osamp);
       fr_obuf := take (Z.to_nat (Z.min isamp osamp)) ibuf |}.

Definition drain_nothing : drain_fn Z :=
  fun p c _ => {| dr_priv := p; dr_clips := c; dr_status := SOX_EOF; dr_obuf := [] |}.

(** An effect that takes its input, gives nothing and is at its end, as
    trim is once its length has passed. *)
Definition flow_finished : flow_fn Z :=
  fun p c ibuf isamp osamp =>
    {| fr_priv := p; fr_clips := c; fr_status := SOX_EOF;
       fr_isamp := isamp; fr_obuf := [] |}.

Definition handlers (flags : Z) (flow : option (flow_fn Z)) : sox_effect_t Z :=
  {| h_flags := flags; h_getopts := None; h_start := None; h_flow := flow;
     h_drain := None; h_stop := None; h_kill := None |}.

Definition stereo : sox_signalinfo_t :=
  {| si_rate := 44100; si_size := SOX_SIZE_16BIT; si_encoding := SOX_ENCODING_SIGN2;
     si_channels := 2;
     si_compression := HUGE_VAL; si_reverse_bytes := REVERSE_DEFAULT;
     si_reverse_nibbles := SOX_OPTION_DEFAULT; si_reverse_bits := SOX_OPTION_DEFAULT |}.

Definition half_rate_mono : sox_signalinfo_t :=
  {| si_rate := 22050; si_size := SOX_SIZE_16BIT; si_encoding := SOX_ENCODING_SIGN2;
     si_channels := 1;
     si_compression := HUGE_VAL; si_reverse_bytes := REVERSE_DEFAULT;
     si_reverse_nibbles := SOX_OPTION_DEFAULT; si_reverse_bits := SOX_OPTION_DEFAULT |}.

Definition mono : sox_signalinfo_t :=
  {| si_rate := 44100; si_size := SOX_SIZE_16BIT; si_encoding := SOX_ENCODING_SIGN2;
     si_channels := 1;
     si_compression := HUGE_VAL; si_reverse_bytes := REVERSE_DEFAULT;
     si_reverse_nibbles := SOX_OPTION_DEFAULT; si_reverse_bits := SOX_OPTION_DEFAULT |}.

(** An effect table entry with an empty buffer of [sox_bufsiz] samples. *)
Definition effect (n : string) (hd : sox_effect_t Z) (c : Z) : sox_effect Z :=
  {| name := Some n; h := hd; priv := 0; clips := c;
     ininfo := stereo; outinfo := stereo;
     obuf := replicate 32 0; olen := 0; odone := 0 |}.

Definition geteffect (n : string) : sox_effect Z :=
  effect n (handlers (if String.eqb n "mixer" then Z.lor SOX_EFF_CHAN SOX_EFF_MCHAN
                      else if String.eqb n "resample" then SOX_EFF_RATE
                      else 0) None) 0.

Definition updateeffect (e : sox_effect Z) (i o : sox_signalinfo_t) (mask : Z)
  : sox_effect Z * Z :=
  ({| name := name e; h := h e; priv := priv e; clips := clips e;
      ininfo := i; outinfo := o; obuf := obuf e; olen := olen e; odone := odone e |},
   Z.lor mask (Z.land (h_flags (h e)) (Z.lor SOX_EFF_CHAN SOX_EFF_RATE))).

Definition libsox_list : Libsox Z (list Z) :=
  {| zero_priv := 0;
     sox_effect_nothing := call_nothing;
     sox_effect_nothing_getopts := getopts_nothing;
     sox_effect_nothing_flow := flow_nothing;
     sox_effect_nothing_drain := drain_nothing;
     sox_geteffect := geteffect;
     sox_updateeffect := updateeffect;
     sox_write := fun d buf => (d ++ buf, Z.of_nat (length buf)) |}.

(** The input entry of the table with [n] samples read into its buffer. *)
Definition input_entry (samples : list Z) : sox_effect Z :=
  {| name := Some "input"; h := null_handlers; priv := 0; clips := 0;
     ininfo := stereo; outinfo := stereo;
     obuf := samples ++ replicate (32 - length samples) 0;
     olen := Z.of_nat (length samples); odone := 0 |}.

Definition zero_entry : sox_effect Z := @zero_effect Z (list Z) libsox_list.

(** A scheduler state over a table, at the start of a run. *)
Definition start_state (tab tabR : list (sox_effect Z)) : sched Z (list Z) :=
  {| sc_tab := {| efftab := tab; efftabR := tabR; neffects := length tab |};
     input_eff := 0; input_eff_eof := false;
     ibufl := replicate 16 0; ibufr := replicate 16 0;
     obufl := replicate 16 0; obufr := replicate 16 0;
     user_abort := false; ofile_desc := []; ofile_channels := 2;
     output_samples := 0 |}.

(** The globals when the program is run as sox. *)
Definition sox_globals : globals :=
  {| play := false; rec := false; combine_method := sox_concatenate;
     uservolume := false; bufsiz := 8192; interactive := false; plot := sox_plot_off;
     replay_gain_mode := RG_off; repeatable_random := false;
     show_progress := SOX_OPTION_DEFAULT; verbosity := 2 |}.

(** Every file opens as two seconds of stereo with no comment. *)
Definition open_stereo (_ : string) (_ : sox_signalinfo_t) (_ : option string)
  : option sox_format :=
  Some {| ft_signal := stereo; ft_length := 176400; ft_clips := 0; ft_comment := None |}.

Definition alsa_device (_ : bool) : option (string * string) := Some ("alsa", "default").

Definition no_replay_gain (_ : string) : option double := None.


(** A left and a right instance of an effect with 1 and 2 clips. *)
Definition twin_table : effects_table Z :=
  {| efftab := [input_entry []; effect "vol" (handlers 0 None) 1];
     efftabR := [zero_entry; effect "vol" (handlers 0 None) 2];
     neffects := 2 |}.

(** A command line of [n] file names. *)
Definition file_names (n : nat) : list arg := replicate n (Afile "a.wav").

(** An input that is open, with [len] samples. *)
Definition open_file (n : string) (sig : sox_signalinfo_t) (len : Z) : file_info :=
  with_desc (Some {| ft_signal := sig; ft_length := len; ft_clips := 0;
                     ft_comment := None |})
    (with_filename n new_file).

(** A stereo and a mono input. *)
Definition two_inputs : list file_info :=
  [open_file "a.wav" stereo 176400; open_file "b.wav" mono 44100].

(** Two stereo inputs. *)
Definition stereo_inputs : list file_info :=
  [open_file "a.wav" stereo 176400; open_file "b.wav" stereo 88200].

(** An empty effect table. *)
Definition empty_table : effects_table Z :=
  {| efftab := replicate MAX_EFF zero_entry; efftabR := replicate MAX_EFF zero_entry;
     neffects := 0 |}.

(** A chain of the input and an effect that passes its input on, with four
    samples read; the same with an effect that is at its end; and chains of
    an effect run as twins, with four and with three samples read. *)
Definition copy_chain : sched Z (list Z) :=
  start_state [input_entry [1; 2; 3; 4]; effect "copy" (handlers SOX_EFF_MCHAN None) 0]
              [zero_entry; zero_entry].

Definition finished_chain : sched Z (list Z) :=
  start_state [input_entry [1; 2; 3; 4];
               effect "trim" (handlers SOX_EFF_MCHAN (Some flow_finished)) 0]
              [zero_entry; zero_entry].

Definition twin_chain : sched Z (list Z) :=
  start_state [input_entry [1; 2; 3; 4]; effect "vol" (handlers 0 None) 0]
              [zero_entry; effect "vol" (handlers 0 None) 0].

Definition odd_twin_chain : sched Z (list Z) :=
  start_state [input_entry [1; 2; 3]; effect "vol" (handlers 0 None) 0]
              [zero_entry; effect "vol" (handlers 0 None) 0].



Definition mix_args_one : list arg :=
  [Aopt Opt_m; Afile "a.wav"; Afile "out.wav"].

(** As many effects as [parse_effects] admits, none of which changes the
    channels or the rate. *)
Definition fourteen_effects : list (sox_effect Z) :=
  replicate MAX_USER_EFF (effect "vol" (handlers 0 None) 0).

(** Two effects that change the number of channels. *)
Definition two_chan_effects : list (sox_effect Z) :=
  [effect "mixer" (handlers (Z.lor SOX_EFF_CHAN SOX_EFF_MCHAN) None) 0;
   effect "pan" (handlers (Z.lor SOX_EFF_CHAN SOX_EFF_MCHAN) None) 0].

(** The chain that passes its input on, after the user has asked to stop. *)
Definition aborted_chain : sched Z (list Z) :=
  {| sc_tab := sc_tab copy_chain;
     input_eff := 0; input_eff_eof := false;
     ibufl := replicate 16 0; ibufr := replicate 16 0;
     obufl := replicate 16 0; obufr := replicate 16 0;
     user_abort := true; ofile_desc := []; ofile_channels := 2;
     output_samples := 0 |}.

(** A libSoX whose output file takes at most three samples at a time. *)
Definition libsox_short : Libsox Z (list Z) :=
  {| zero_priv := 0;
     sox_effect_nothing := call_nothing;
     sox_effect_nothing_getopts := getopts_nothing;
     sox_effect_nothing_flow := flow_nothing;
     sox_effect_nothing_drain := drain_nothing;
     sox_geteffect := geteffect;
     sox_updateeffect := updateeffect;
     sox_write := fun d buf => (d ++ take 3 buf, Z.of_nat (length (take 3 buf))) |}.

(** A table with an effect that does nothing between the input and a
    volume effect. *)
Definition null_table : effects_table Z :=
  {| efftab := [input_entry []; effect "rate" (handlers SOX_EFF_NULL None) 0;
                effect "vol" (handlers SOX_EFF_MCHAN None) 0];
     efftabR := [zero_entry; zero_entry; zero_entry];
     neffects := 3 |}.

(** A playlist that names a file and a playlist of two files. *)
Definition nested_playlist : playlist :=
  PlFile "a.wav" (PlNested (PlFile "b.wav" (PlFile "c.wav" PlNil)) PlNil).

(** The globals when the program is run as rec, and its files: the
    recording device, which parse_options_and_filenames has put first, an
    input and the output. *)
Definition rec_globals : globals :=
  {| play := false; rec := true; combine_method := sox_concatenate;
     uservolume := false; bufsiz := 8192; interactive := false; plot := sox_plot_off;
     replay_gain_mode := RG_off; repeatable_random := false;
     show_progress := SOX_OPTION_DEFAULT; verbosity := 2 |}.

Definition rec_files : list file_info :=
  [with_filetype (Some "alsa") (with_filename "default" new_file);
   with_filename "a.wav" new_file; with_filename "out.wav" new_file].

(** A comment file of one line. *)
Definition comment_text : list Ascii.ascii := String.list_ascii_of_string "Processed by SoX".

(** Two times of day, 0.2 s apart. *)
Definition first_signal : timeval := {| tv_sec := 100; tv_usec := 900000 |}.
Definition second_signal : timeval := {| tv_sec := 101; tv_usec := 100000 |}.

(** A rounding that leaves the numbers as they are, in lowest terms; it
    stands for the rounding to a double where every number is one. *)
Definition round_near (q : Q) : Q := Qred q.

(** The state of the signal handler before any signal. *)
Definition no_signal : signal_state :=
  {| sg_then := {| tv_sec := 0; tv_usec := 0 |}; user_skip := false;
     sg_user_abort := false |}.

(** An effect that has two samples left to give when it is drained, as
    echo has, and a chain of it and an effect that passes its input on,
    at the end of the input. *)
Definition drain_tail : drain_fn Z :=
  fun p c osamp =>
    {| dr_priv := p; dr_clips := c; dr_status := SOX_EOF;
       dr_obuf := take (Z.to_nat osamp) [7; 8] |}.

Definition echo_chain : sched Z (list Z) :=
  with_input_eff 1 false
    (start_state [input_entry [];
                  effect "echo" {| h_flags := SOX_EFF_MCHAN; h_getopts := None;
                                   h_start := None; h_flow := None;
                                   h_drain := Some drain_tail; h_stop := None;
                                   h_kill := None |} 0;
                  effect "copy" (handlers SOX_EFF_MCHAN None) 0]
                 [zero_entry; zero_entry; zero_entry]).

(** A comment of three lines, with the album gain before the track gain,
    and a stand-in for [atof] that reads the sign of the number. *)
Definition gain_lines : list (list Ascii.ascii) :=
  [String.list_ascii_of_string "TITLE=Song";
   String.list_ascii_of_string "REPLAYGAIN_ALBUM_GAIN=+3.00 dB";
   String.list_ascii_of_string "replaygain_track_gain=-6.50 dB"].

Definition atof_sign (s : list Ascii.ascii) : double :=
  match s with
  | c :: _ => if Ascii.eqb c (Ascii.ascii_of_nat 45) then Fin (-1) else Fin 1
  | [] => Fin 0
  end.

(** * Proofs *)

(** ** Loops, wrap-around and clipping *)

Lemma for_up_0 {S : Type} (start : nat) (body : nat -> S -> S) (s : S) :
  for_up start 0 body s = s.
Proof. reflexivity. Qed.

Lemma for_up_S {S : Type} (start n : nat) (body : nat -> S -> S) (s : S) :
  for_up start (Datatypes.S n) body s = body (start + n)%nat (for_up start n body s).
Proof. unfold for_up. rewrite seq_S, foldl_snoc. reflexivity. Qed.

(** Loop invariants: [Inv k] holds after [k] rounds. *)
Lemma for_up_ind {S : Type} (Inv : nat -> S -> Prop) (start n : nat)
    (body : nat -> S -> S) (s : S) :
  Inv 0%nat s ->
  (forall k st, (k < n)%nat -> Inv k st -> Inv (Datatypes.S k) (body (start + k)%nat st)) ->
  Inv n (for_up start n body s).
Proof.
  intros H0 Hstep. induction n as [|n IH].
  - exact H0.
  - rewrite for_up_S. apply Hstep; [lia|]. apply IH. intros k st Hk. apply Hstep. lia.
Qed.

Lemma sz_small `{Platform} (x : Z) : 0 <= x <= SOX_SIZE_MAX -> sz x = x.
Proof. intros Hx. unfold sz. apply Z.mod_small. lia. Qed.

Lemma sz_add_l `{Platform} (a b : Z) : sz (sz a + b) = sz (a + b).
Proof. unfold sz. apply Zplus_mod_idemp_l. Qed.

Lemma SOX_ROUND_CLIP_COUNT_spec `{Platform} (d clips : Z) :
  SOX_ROUND_CLIP_COUNT d clips
  = (clip_sample d, if saturates d then sz (clips + 1) else clips).
Proof.
  unfold SOX_ROUND_CLIP_COUNT, clip_sample, saturates, SOX_SAMPLE_MIN, SOX_SAMPLE_MAX.
  repeat case_match; simpl in *; f_equal; lia.
Qed.

Lemma clip_sample_range (d : Z) : SOX_SAMPLE_MIN <= clip_sample d <= SOX_SAMPLE_MAX.
Proof. unfold clip_sample, SOX_SAMPLE_MIN, SOX_SAMPLE_MAX. lia. Qed.

Lemma clip_sample_id (d : Z) :
  SOX_SAMPLE_MIN <= d <= SOX_SAMPLE_MAX -> clip_sample d = d.
Proof. unfold clip_sample, SOX_SAMPLE_MIN, SOX_SAMPLE_MAX. lia. Qed.

(** Where no addition saturates, the saturating sum is the sum. *)
Lemma saturating_fold_exact (xs : list Z) :
  forall acc, saturations_from acc xs = 0 ->
    foldl (fun a x => clip_sample (a + x)) acc xs = acc + foldr Z.add 0 xs.
Proof.
  assert (Hpos : forall l a, 0 <= saturations_from a l).
  { induction l as [|x l IH]; intros a; simpl; [lia|].
    specialize (IH (clip_sample (a + x))). destruct (saturates (a + x)); lia. }
  induction xs as [|x xs IH]; intros acc Hs; simpl in *; [lia|].
  pose proof (Hpos xs (clip_sample (acc + x))) as Hp.
  destruct (saturates (acc + x)) eqn:E; [lia|].
  unfold saturates in E. apply orb_false_elim in E as [E1 E2].
  apply Z.ltb_ge in E1, E2. rewrite clip_sample_id in * by lia.
  rewrite IH by lia. lia.
Qed.

Lemma omap_cons_Some {A B : Type} (f : A -> option B) (a : A) (l : list A) (b : B) :
  f a = Some b -> omap f (a :: l) = b :: omap f l.
Proof.
  intros E.
  change (omap f (a :: l))
    with (match f a with Some y => y :: omap f l | None => omap f l end).
  by rewrite E.
Qed.

Lemma omap_cons_None {A B : Type} (f : A -> option B) (a : A) (l : list A) :
  f a = None -> omap f (a :: l) = omap f l.
Proof.
  intros E.
  change (omap f (a :: l))
    with (match f a with Some y => y :: omap f l | None => omap f l end).
  by rewrite E.
Qed.

Lemma row_major_inj (c w s w' s' : nat) :
  (s < c)%nat -> (s' < c)%nat -> (w * c + s = w' * c + s')%nat -> w = w' /\ s = s'.
Proof.
  intros Hs Hs' E.
  assert (w = w').
  { destruct (Nat.lt_trichotomy w w') as [Hlt|[->|Hlt]]; [|reflexivity|].
    - pose proof (Nat.mul_le_mono_r (S w) w' c Hlt). lia.
    - pose proof (Nat.mul_le_mono_r (S w') w c Hlt). lia. }
  subst w'. lia.
Qed.

Lemma existsb_snoc {A : Type} (p : A -> bool) (l : list A) (x : A) :
  existsb p (l ++ [x]) = existsb p l || p x.
Proof. rewrite existsb_app. simpl. by rewrite orb_false_r. Qed.

(** ** The mix *)

Section MixProofs.
Context `{Platform}.
Variable files : list file_info.
Variable input_count : nat.
Variable ilen : list Z.
Variable ibuf : list (list Z).
(* every block read fits the index type *)
Hypothesis Hfit : forall i, (i < input_count)%nat ->
  ilen !!! i * desc_channels (files !!! i) <= SOX_SIZE_MAX + 1.

Lemma ibuf_at_plain (i : nat) (ws s : Z) :
  (i < input_count)%nat -> 0 <= ws < ilen !!! i ->
  0 <= s < desc_channels (files !!! i) ->
  ibuf_at files ibuf i ws s
  = (ibuf !!! i) !!! Z.to_nat (ws * desc_channels (files !!! i) + s).
Proof.
  intros Hi Hws Hs. unfold ibuf_at. specialize (Hfit i Hi).
  assert (0 <= ws * desc_channels (files !!! i)) by nia.
  assert (ws * desc_channels (files !!! i) + s < SOX_SIZE_MAX + 1) by nia.
  rewrite (sz_small (ws * _)) by lia. rewrite sz_small by lia. reflexivity.
Qed.

(** The loop over the inputs, over any list of input indices. *)
Lemma mix_inputs_fold (ws s : Z) (l : list nat) :
  0 <= ws -> 0 <= s -> Forall (fun i => (i < input_count)%nat) l ->
  forall (obuf : list Z) (p : nat) (acc c0 n : Z),
    (p < length obuf)%nat -> obuf !!! p = acc ->
    let cs := omap (fun i =>
          if (ws <? ilen !!! i) && (s <? desc_channels (files !!! i))
          then Some ((ibuf !!! i) !!! Z.to_nat (ws * desc_channels (files !!! i) + s))
          else None) l in
    let st := foldl (fun a i => mix_input files ilen ibuf ws s i a)
                {| cs_obuf := obuf; cs_p := p; cs_mixing_clips := sz (c0 + n) |} l in
    cs_obuf st = <[p := foldl (fun a x => clip_sample (a + x)) acc cs]> obuf
    /\ cs_p st = p
    /\ cs_mixing_clips st = sz (c0 + (n + saturations_from acc cs)).
Proof.
  intros Hws Hs Hl. induction Hl as [|i l Hi Hl IH]; intros obuf p acc c0 n Hp Hacc.
  - simpl. split; [|split]; [|reflexivity|f_equal; lia].
    subst acc. symmetry. apply list_insert_id. by apply list_lookup_lookup_total_lt.
  - cbn zeta. cbn [foldl].
    set (st0 := {| cs_obuf := obuf; cs_p := p; cs_mixing_clips := sz (c0 + n) |}).
    destruct ((ws <? ilen !!! i) && (s <? desc_channels (files !!! i))) eqn:Hc.
    + set (x := (ibuf !!! i) !!! Z.to_nat (ws * desc_channels (files !!! i) + s)).
      assert (Hstep : mix_input files ilen ibuf ws s i st0 =
                {| cs_obuf := <[p := clip_sample (acc + x)]> obuf; cs_p := p;
                   cs_mixing_clips :=
                     sz (c0 + (n + if saturates (acc + x) then 1 else 0)) |}).
      { unfold mix_input. rewrite Hc. apply andb_prop in Hc as [Hc1 Hc2].
        apply Z.ltb_lt in Hc1, Hc2. rewrite ibuf_at_plain by lia.
        rewrite SOX_ROUND_CLIP_COUNT_spec. simpl. rewrite Hacc. fold x.
        f_equal. destruct (saturates (acc + x)); [rewrite sz_add_l|]; f_equal; lia. }
      rewrite Hstep. rewrite (omap_cons_Some _ _ _ x) by (by rewrite Hc).
      edestruct (IH (<[p:=clip_sample (acc + x)]> obuf) p (clip_sample (acc + x)) c0
                    (n + if saturates (acc + x) then 1 else 0)) as (E1 & E2 & E3).
      { by rewrite length_insert. }
      { by apply list_lookup_total_insert_eq. }
      rewrite list_insert_insert_eq in E1.
      split; [exact E1|split; [exact E2|]]. rewrite E3. apply (f_equal sz).
      simpl. destruct (saturates (acc + x)); lia.
    + assert (Hstep : mix_input files ilen ibuf ws s i st0 = st0).
      { unfold mix_input. by rewrite Hc. }
      rewrite Hstep. rewrite omap_cons_None by (by rewrite Hc). by apply IH.
Qed.

(** One output sample: lines 1248-1256. *)
Lemma mix_sample_spec (ws : Z) (s : nat) (obuf : list Z) (p : nat) (c0 n : Z) :
  0 <= ws -> (p < length obuf)%nat ->
  mix_sample files input_count ilen ibuf ws s
    {| cs_obuf := obuf; cs_p := p; cs_mixing_clips := sz (c0 + n) |}
  = {| cs_obuf := <[p := saturating_sum
                          (contributions files input_count ilen ibuf ws (Z.of_nat s))]> obuf;
       cs_p := S p;
       cs_mixing_clips :=
         sz (c0 + (n + saturations
                         (contributions files input_count ilen ibuf ws (Z.of_nat s)))) |}.
Proof.
  intros Hws Hp. unfold mix_sample, for_up. cbn [cs_obuf cs_p cs_mixing_clips].
  edestruct (mix_inputs_fold ws (Z.of_nat s) (seq 0 input_count) Hws (Nat2Z.is_nonneg s))
    as (E1 & E2 & E3).
  { apply Forall_forall. intros i Hi. apply in_seq in Hi. lia. }
  { rewrite length_insert. exact Hp. }
  { by apply list_lookup_total_insert_eq. }
  rewrite E1, E2, E3. rewrite list_insert_insert_eq. reflexivity.
Qed.

Variable channels : nat.             (* combiner.channels *)

Lemma mixed_upto_row_end (obuf : list Z) (c0 : Z) (ws : nat) (st : combiner_state) :
  mixed_upto (contributions files input_count ilen ibuf) channels obuf c0 ws channels st
  <-> mixed_upto (contributions files input_count ilen ibuf) channels obuf c0 (S ws) 0 st.
Proof.
  assert (E : (S ws * channels + 0 = ws * channels + channels)%nat) by lia.
  unfold mixed_upto. rewrite E. unfold block_saturations at 2. rewrite for_up_S.
  rewrite Nat.add_0_l. unfold row_saturations at 2. rewrite for_up_0.
  reflexivity.
Qed.

Lemma mix_row_spec (obuf : list Z) (c0 : Z) (ws : nat) (st : combiner_state) :
  (S ws * channels <= length obuf)%nat ->
  mixed_upto (contributions files input_count ilen ibuf) channels obuf c0 ws 0 st ->
  mixed_upto (contributions files input_count ilen ibuf) channels obuf c0 (S ws) 0
    (for_up 0 channels (mix_sample files input_count ilen ibuf (Z.of_nat ws)) st).
Proof.
  intros Hlen H0. apply mixed_upto_row_end.
  apply (for_up_ind (fun j st' =>
           mixed_upto (contributions files input_count ilen ibuf) channels obuf c0 ws j st'));
    [exact H0|].
  intros j [ob p cl] Hj (Hp & Hl & Hv & Hc). cbn [cs_obuf cs_p cs_mixing_clips] in *.
  subst p cl. rewrite Nat.add_0_l. rewrite mix_sample_spec by lia.
  split; [|split; [|split]]; cbn [cs_obuf cs_p cs_mixing_clips].
  - lia.
  - by rewrite length_insert.
  - intros w s Hs Hw.
    destruct (decide ((w * channels + s)%nat = (ws * channels + j)%nat)) as [E|NE].
    + assert (w = ws /\ s = j) as [-> ->] by (by apply (row_major_inj channels)).
      rewrite list_lookup_insert_eq by lia. reflexivity.
    + rewrite list_lookup_insert_ne by lia. apply Hv; [exact Hs|lia].
  - unfold row_saturations at 2. rewrite for_up_S. rewrite Nat.add_0_l.
    fold (row_saturations (contributions files input_count ilen ibuf) ws j
            (block_saturations (contributions files input_count ilen ibuf) channels ws)).
    apply (f_equal sz). lia.
Qed.

Lemma mix_block_spec (obuf : list Z) (c0 : Z) (olen : nat) :
  0 <= c0 <= SOX_SIZE_MAX ->
  (olen * channels <= length obuf)%nat ->
  mixed_upto (contributions files input_count ilen ibuf) channels obuf c0 olen 0
    (for_up 0 olen
       (fun ws st => for_up 0 channels
                       (mix_sample files input_count ilen ibuf (Z.of_nat ws)) st)
       {| cs_obuf := obuf; cs_p := 0; cs_mixing_clips := c0 |}).
Proof.
  intros Hc0 Hlen.
  apply (for_up_ind (fun ws st' =>
           mixed_upto (contributions files input_count ilen ibuf) channels obuf c0 ws 0 st')).
  - split; [|split; [|split]]; cbn [cs_obuf cs_p cs_mixing_clips].
    + lia.
    + reflexivity.
    + intros w s _ Hw. lia.
    + unfold block_saturations, row_saturations. rewrite !for_up_0.
      rewrite Z.add_0_r. symmetry. by apply sz_small.
  - intros ws st Hws Hinv. rewrite Nat.add_0_l. apply mix_row_spec; [nia|exact Hinv].
Qed.
End MixProofs.

(** C1.  In a mix, every output sample [(ws, s)] of the block is the
    saturating sum, clipped to the sample range, of the balanced samples at
    wide sample [ws] and channel [s] of the inputs that have more than [s]
    channels and a wide sample [ws] in the block read; and the counter
    [mixing_clips] goes up by the number of additions that saturate. *)
Theorem mix_block_saturating_sum `{Platform} (files : list file_info) (input_count : nat)
    (ilen : list Z) (ibuf : list (list Z)) (combiner_channels olen : Z)
    (obuf : list Z) (mixing_clips : Z) :
  (forall i, (i < input_count)%nat ->
     ilen !!! i * desc_channels (files !!! i) <= SOX_SIZE_MAX + 1) ->
  0 <= mixing_clips <= SOX_SIZE_MAX ->
  0 <= olen -> 0 <= combiner_channels ->
  olen * combiner_channels <= Z.of_nat (length obuf) ->
  let st := combine_block files input_count ilen ibuf sox_mix combiner_channels olen
              obuf mixing_clips in
  (forall ws s, 0 <= ws < olen -> 0 <= s < combiner_channels ->
     cs_obuf st !! Z.to_nat (ws * combiner_channels + s)
     = Some (saturating_sum (contributions files input_count ilen ibuf ws s)))
  /\ cs_mixing_clips st
     = sz (mixing_clips
           + block_saturations (contributions files input_count ilen ibuf)
               (Z.to_nat combiner_channels) (Z.to_nat olen)).
Proof.
  intros Hfit Hclips Holen Hch Hroom. cbn zeta.
  destruct (mix_block_spec files input_count ilen ibuf Hfit
              (Z.to_nat combiner_channels) obuf mixing_clips (Z.to_nat olen) Hclips)
    as (Hp & Hl & Hv & Hc).
  { nia. }
  split.
  - intros ws s Hws Hs.
    replace (Z.to_nat (ws * combiner_channels + s))
      with (Z.to_nat ws * Z.to_nat combiner_channels + Z.to_nat s)%nat by nia.
    replace ws with (Z.of_nat (Z.to_nat ws)) at 2 by lia.
    replace s with (Z.of_nat (Z.to_nat s)) at 2 by lia.
    apply Hv; [lia|]. nia.
  - unfold row_saturations in Hc. rewrite for_up_0 in Hc. exact Hc.
Qed.

(** ** The predicted output length *)

Lemma first_files_S (files : list file_info) (n : nat) :
  first_files files (S n) = first_files files n ++ [files !!! n].
Proof. unfold first_files. rewrite seq_S, fmap_app. reflexivity. Qed.

Lemma first_effects_S {P F : Type} `{Libsox P F} (tab : list (sox_effect P)) (n : nat) :
  first_effects tab (S n) = first_effects tab n ++ [tab !!! n].
Proof. unfold first_effects. rewrite seq_S, fmap_app. reflexivity. Qed.

Lemma sum_list_Z_snoc (l : list Z) (x : Z) : sum_list_Z (l ++ [x]) = sum_list_Z l + x.
Proof. unfold sum_list_Z. induction l as [|y l IH]; simpl; lia. Qed.

Lemma max_list_Z_snoc (l : list Z) (x : Z) :
  max_list_Z (l ++ [x]) = Z.max (max_list_Z l) x.
Proof. unfold max_list_Z. induction l as [|y l IH]; simpl; lia. Qed.

Section LengthProofs.
Context {P F : Type} `{Platform} `{Libsox P F}.
Variable m : combine_method_t.
Variable files : list file_info.

Lemma scan_inputs_spec (n : nat) :
  let a := for_up 0 n (scan_input m files) (scan_start m) in
  known_length a
  = negb (combine_method_eqb m sox_sequence)
    && negb (existsb (fun f => desc_length f =? 0) (first_files files n))
  /\ scan_olen a
     = if combine_method_eqb m sox_concatenate
       then sz (sum_list_Z (wide_length <$> first_files files n))
       else max_list_Z (wide_length <$> first_files files n).
Proof.
  cbn zeta.
  apply (for_up_ind (fun k a =>
    known_length a
    = negb (combine_method_eqb m sox_sequence)
      && negb (existsb (fun f => desc_length f =? 0) (first_files files k))
    /\ scan_olen a
       = if combine_method_eqb m sox_concatenate
         then sz (sum_list_Z (wide_length <$> first_files files k))
         else max_list_Z (wide_length <$> first_files files k))).
  - simpl. rewrite andb_true_r. split; [reflexivity|].
    destruct (combine_method_eqb m sox_concatenate); reflexivity.
  - intros k a _ [Hk Ho]. rewrite Nat.add_0_l. rewrite first_files_S.
    rewrite existsb_snoc, fmap_app.
    change (wide_length <$> [files !!! k]) with [wide_length (files !!! k)].
    rewrite sum_list_Z_snoc, max_list_Z_snoc.
    unfold scan_input; cbn [known_length scan_olen]. rewrite Hk, Ho. split.
    + rewrite negb_orb. by rewrite andb_assoc.
    + destruct (combine_method_eqb m sox_concatenate); [|reflexivity].
      by rewrite sz_add_l.
Qed.

Lemma length_hint_spec (tab : list (sox_effect P)) (n : nat) (known : bool) (olen : Z) :
  length_hint tab n known olen
  = if known && negb (existsb (fun e => has_flag e SOX_EFF_LENGTH) (first_effects tab n))
    then olen else 0.
Proof.
  unfold length_hint.
  assert (E : for_up 0 n (fun i k => k && negb (has_flag (tab !!! i) SOX_EFF_LENGTH)) known
              = known && negb (existsb (fun e => has_flag e SOX_EFF_LENGTH)
                                 (first_effects tab n))).
  { apply (for_up_ind (fun j k => k = known && negb (existsb (fun e => has_flag e SOX_EFF_LENGTH)
                                 (first_effects tab j)))).
    - simpl. by rewrite andb_true_r.
    - intros j k _ ->. rewrite Nat.add_0_l. unfold first_effects.
      rewrite seq_S, fmap_app.
      change ((fun i => tab !!! i) <$> [(0 + j)%nat]) with [tab !!! j].
      rewrite existsb_snoc, negb_orb. by rewrite andb_assoc. }
  by rewrite E.
Qed.

(** C3.  The length passed to [sox_open_write] is 0 in sequence mode, the
    sum of the inputs' lengths in wide samples in concatenate mode and their
    maximum in mix and merge mode, and 0 whenever a user effect has the
    LENGTH flag or the length of an input is 0 (unknown). *)
Theorem open_write_length_predicted (input_count current_input : nat)
    (user_efftab : list (sox_effect P)) (nuser_effects : nat) (hint : Z) :
  0 <= sum_list_Z (wide_length <$> first_files files input_count) <= SOX_SIZE_MAX ->
  open_write_length m files input_count current_input user_efftab nuser_effects = Ret hint ->
  hint = predicted_length m (first_files files input_count)
           (first_effects user_efftab nuser_effects).
Proof.
  intros Hsum. unfold open_write_length, check_inputs.
  destruct (scan_inputs_spec input_count) as [Hk Ho]. cbn zeta in Hk, Ho.
  destruct m; cbn [combine_method_eqb combine_rank Z.eqb Pos.eqb negb andb] in *.
  - (* sequence *) simpl. rewrite length_hint_spec. simpl. congruence.
  - (* concatenate *)
    repeat case_match; simpl; try discriminate.
    intros [= <-]. rewrite length_hint_spec, Hk, Ho. simpl.
    rewrite sz_small by exact Hsum.
    rewrite orb_comm. rewrite <- negb_orb. by destruct (_ || _).
  - repeat case_match; simpl; try discriminate.
    intros [= <-]. rewrite length_hint_spec, Hk, Ho. simpl.
    rewrite orb_comm. rewrite <- negb_orb. by destruct (_ || _).
  - repeat case_match; simpl; try discriminate.
    intros [= <-]. rewrite length_hint_spec, Hk, Ho. simpl.
    rewrite orb_comm. rewrite <- negb_orb. by destruct (_ || _).
Qed.
End LengthProofs.

(** ** The chain builder *)

Lemma count_flag_snoc {P : Type} (flag : Z) (l : list (sox_effect P)) (e : sox_effect P) :
  count_flag flag (l ++ [e]) = count_flag flag l + (if has_flag e flag then 1 else 0).
Proof. unfold count_flag. induction l as [|x l IH]; simpl; [lia|]. rewrite IH. lia. Qed.

Section ChainProofs.
Context {P F : Type} `{Libsox P F}.
Variable combiner ofile_signal : sox_signalinfo_t.
Variable user_efftab : list (sox_effect P).

Lemma scan_user_effects_spec (n : nat) (a0 : user_scan) :
  let users := first_effects user_efftab n in
  for_up 0 n (scan_user_effect user_efftab) a0
  = {| need_chan := need_chan a0 && negb (existsb (fun e => has_flag e SOX_EFF_CHAN) users);
       need_rate := need_rate a0 && negb (existsb (fun e => has_flag e SOX_EFF_RATE) users);
       user_chan_effects := user_chan_effects a0 + count_flag SOX_EFF_CHAN users;
       user_rate_effects := user_rate_effects a0 + count_flag SOX_EFF_RATE users |}.
Proof.
  induction n as [|n IH].
  - cbn. destruct a0; simpl. rewrite !andb_true_r. f_equal; lia.
  - rewrite for_up_S, Nat.add_0_l. cbn zeta in IH. rewrite IH. clear IH.
    cbn zeta. rewrite first_effects_S.
    rewrite !existsb_snoc, !count_flag_snoc, !negb_orb.
    unfold scan_user_effect.
    destruct (has_flag (user_efftab !!! n) SOX_EFF_CHAN) eqn:Ec;
      destruct (has_flag (user_efftab !!! n) SOX_EFF_RATE) eqn:Er;
      cbn [need_chan need_rate user_chan_effects user_rate_effects];
      rewrite ?andb_false_r, ?andb_true_r; f_equal; lia.
Qed.

Lemma update_all_snoc (m : Z) (es : list (sox_effect P)) (e : sox_effect P) :
  update_all combiner ofile_signal m (es ++ [e])
  = (fst (update_all combiner ofile_signal m es)
       ++ [fst (sox_updateeffect e combiner ofile_signal
                  (snd (update_all combiner ofile_signal m es)))],
     snd (sox_updateeffect e combiner ofile_signal
            (snd (update_all combiner ofile_signal m es)))).
Proof.
  revert m. induction es as [|x es IH]; intros m; cbn [app update_all fst snd].
  - by destruct (sox_updateeffect e combiner ofile_signal m).
  - destruct (sox_updateeffect x combiner ofile_signal m) as [x' m1].
    rewrite IH. by destruct (update_all combiner ofile_signal m1 es).
Qed.

Lemma update_all_length (m : Z) (es : list (sox_effect P)) :
  length (fst (update_all combiner ofile_signal m es)) = length es.
Proof.
  revert m. induction es as [|x es IH]; intros m; cbn [update_all]; [done|].
  destruct (sox_updateeffect x combiner ofile_signal m) as [x' m1].
  specialize (IH m1). destruct (update_all combiner ofile_signal m1 es).
  cbn [fst length] in *. by rewrite IH.
Qed.

(** The entries after the first, up to a new last one. *)
Lemma chain_insert {A : Type} (l : list A) (k : nat) (x : A) :
  (S k < length l)%nat ->
  take (S k) (drop 1 (<[S k := x]> l)) = take k (drop 1 l) ++ [x].
Proof.
  intros Hk. rewrite drop_insert_ge by lia.
  replace (S k - 1)%nat with k by lia.
  rewrite (take_S_r _ _ x).
  - by rewrite take_insert_ge by lia.
  - apply list_lookup_insert_eq. rewrite length_drop. lia.
Qed.

(** A store of [e] at [efftab[neffects]] and [add_effect]. *)
Lemma add_effect_step (t0 t : effects_table P) (done : list (sox_effect P)) (m : Z)
    (e : sox_effect P) :
  built combiner ofile_signal t0 t done m ->
  built_or_past combiner ofile_signal t0
    (if (length (efftab t) <=? neffects t)%nat then PastEnd (neffects t)
     else add_effect combiner ofile_signal
            {| efftab := <[neffects t := e]> (efftab t); efftabR := efftabR t;
               neffects := neffects t |} m)
    (done ++ [e]).
Proof.
  intros (Hn & Hc & HcR & Hm & H0 & H0R & Hl & HlR).
  destruct (length (efftab t) <=? neffects t)%nat eqn:E.
  { apply Nat.leb_le in E. unfold built_or_past, capacity.
    rewrite length_app. cbn [length]. lia. }
  apply Nat.leb_gt in E. unfold add_effect. cbn [efftab efftabR neffects].
  rewrite length_insert.
  destruct (neffects t <? length (efftab t))%nat eqn:E1;
    [|apply Nat.ltb_ge in E1; lia].
  destruct (neffects t <? length (efftabR t))%nat eqn:E2; cbn [andb].
  2:{ apply Nat.ltb_ge in E2. unfold built_or_past, capacity.
      rewrite length_app. cbn [length]. lia. }
  apply Nat.ltb_lt in E2.
  rewrite list_lookup_total_insert_eq by lia.
  pose proof (update_all_snoc 0 done e) as Hs. rewrite <- Hm in Hs.
  destruct (sox_updateeffect e combiner ofile_signal m) as [e' m'].
  cbn [fst snd] in Hs. rewrite list_insert_insert_eq.
  unfold built_or_past, built, chain, chainR in *. cbn [efftab efftabR neffects].
  rewrite Hn in *. rewrite Hs. cbn [fst snd].
  replace (S (S (length done)) - 1)%nat with (S (length done)) by lia.
  replace (S (length done) - 1)%nat with (length done) in Hc, HcR by lia.
  rewrite !chain_insert by lia. rewrite Hc, HcR, length_app, fmap_app.
  cbn [length fmap list_fmap]. rewrite !length_insert.
  rewrite !list_lookup_insert_ne by lia.
  split_and!; try done; [lia|]. by rewrite Hc.
Qed.

Lemma add_user_effects_step (t0 : effects_table P) (n : nat)
    (st : in_bounds (effects_table P * Z)) (done : list (sox_effect P)) :
  built_or_past combiner ofile_signal t0 st done ->
  built_or_past combiner ofile_signal t0
    (for_up 0 n (add_user_effect combiner ofile_signal user_efftab) st)
    (done ++ first_effects user_efftab n).
Proof.
  intros Hst.
  apply (for_up_ind (fun k st' =>
           built_or_past combiner ofile_signal t0 st'
             (done ++ first_effects user_efftab k))).
  - unfold first_effects. cbn. by rewrite app_nil_r.
  - intros k st' _ Hk. rewrite Nat.add_0_l, first_effects_S, app_assoc.
    destruct st' as [[t1 m1]|i]; cbn [add_user_effect].
    + by apply add_effect_step.
    + unfold built_or_past in *. rewrite length_app. cbn [length]. lia.
Qed.

Lemma add_default_effect_step (t0 t : effects_table P) (done : list (sox_effect P))
    (m : Z) (nm : string) :
  built combiner ofile_signal t0 t done m ->
  stage combiner ofile_signal t0 (done ++ [default_effect nm])
    (add_default_effect combiner ofile_signal nm t m).
Proof.
  intros Hb. pose proof (add_effect_step t0 t done m (default_effect nm) Hb) as Hs.
  unfold add_default_effect.
  destruct (length (efftab t) <=? neffects t)%nat; [exact Hs|].
  destruct (cr_status _ =? SOX_EOF) eqn:E; [|exact Hs].
  apply Z.eqb_eq in E. split; [done|]. by exists nm.
Qed.

Lemma default_stage (t0 t : effects_table P) (done : list (sox_effect P)) (m : Z)
    (nm : string) (b : bool) :
  built combiner ofile_signal t0 t done m ->
  stage combiner ofile_signal t0 (done ++ if b then [default_effect nm] else [])
    (if b then add_default_effect combiner ofile_signal nm t m
     else Ret (Within (t, m))).
Proof.
  intros Hb. destruct b; [by apply add_default_effect_step|].
  by rewrite app_nil_r.
Qed.

(** A stage and what comes after it. *)
Lemma bind_within_stage {A : Type} (t0 : effects_table P) (done : list (sox_effect P))
    (r : outcome (in_bounds (effects_table P * Z)))
    (k : effects_table P * Z -> outcome (in_bounds A))
    (Q : outcome (in_bounds A) -> Prop) :
  stage combiner ofile_signal t0 done r ->
  (forall code msg, code = 2 /\ default_getopts_fail -> Q (Exit code msg)) ->
  (forall i, (capacity t0 <= i <= length done)%nat -> Q (Ret (PastEnd i))) ->
  (forall t m, built combiner ofile_signal t0 t done m -> Q (k (t, m))) ->
  Q (bind_within r k).
Proof.
  intros Hr He Hp Hk. destruct r as [[[t m]|i]|code msg]; cbn [bind_within]; auto.
Qed.

(** The early default effects, with the flag that says what is still
    needed, as a stage. *)
Lemma early_default_stage {A : Type} (b need : bool) (nm : string)
    (t : effects_table P) (m : Z)
    (k : effects_table P * Z * bool -> outcome (in_bounds A)) :
  bind_within
    (if b
     then dow (t', m') <- add_default_effect combiner ofile_signal nm t m;
          Ret (Within (t', m', false))
     else Ret (Within (t, m, need))) k
  = bind_within
      (if b then add_default_effect combiner ofile_signal nm t m
       else Ret (Within (t, m)))
      (fun '(t', m') => k (t', m', need && negb b)).
Proof.
  destruct b.
  - destruct (add_default_effect combiner ofile_signal nm t m) as [[[t' m']|i]|c msg];
      cbn [bind_within]; [|done..]. by rewrite andb_false_r.
  - cbn [bind_within]. by rewrite andb_true_r.
Qed.

(** What [build_effects_table] leaves: it leaves through [exit(2)], for
    more than one CHAN effect or a default effect that refuses its options;
    or it has stored past the end of a table, which does not hold the chain;
    or the tables hold the chain. *)
Lemma build_effects_table_spec (nuser_effects : nat) (t0 : effects_table P) :
  let users := first_effects user_efftab nuser_effects in
  let sources := chain_sources combiner ofile_signal users in
  match build_effects_table combiner ofile_signal user_efftab nuser_effects t0 with
  | Exit code _ =>
      code = 2 /\ (1 < count_flag SOX_EFF_CHAN users \/ default_getopts_fail)
  | Ret (PastEnd i) => (capacity t0 <= i <= length sources)%nat
  | Ret (Within t) =>
      exists mask, built combiner ofile_signal t0 t sources mask
  end.
Proof.
  cbn zeta. unfold build_effects_table.
  rewrite scan_user_effects_spec. cbn [need_chan need_rate user_chan_effects].
  rewrite Z.add_0_l.
  destruct (1 <? _) eqn:Ec; [apply Z.ltb_lt in Ec; auto|]. clear Ec.
  unfold chain_sources.
  set (users := first_effects user_efftab nuser_effects).
  set (nc := negb (si_channels combiner =? si_channels ofile_signal)
             && negb (existsb (fun e => has_flag e SOX_EFF_CHAN) users)).
  set (nr := negb (si_rate combiner =? si_rate ofile_signal)
             && negb (existsb (fun e => has_flag e SOX_EFF_RATE) users)).
  set (mf := nc && (si_channels ofile_signal <? si_channels combiner)).
  set (rf := nr && (si_rate ofile_signal <? si_rate combiner)).
  set (A1 := if mf then [default_effect "mixer"] else []).
  set (A2 := if rf then [default_effect "resample"] else []).
  set (A4 := if nr && negb rf then [default_effect "resample"] else []).
  set (A5 := if nc && negb mf then [default_effect "mixer"] else []).
  set (t1 := {| efftab := efftab t0; efftabR := efftabR t0; neffects := 1 |}).
  set (Q := fun r : outcome (in_bounds (effects_table P)) =>
              match r with
              | Exit code _ =>
                  code = 2 /\ (1 < count_flag SOX_EFF_CHAN users \/ default_getopts_fail)
              | Ret (PastEnd i) =>
                  (capacity t0 <= i <= length (A1 ++ A2 ++ users ++ A4 ++ A5))%nat
              | Ret (Within t) =>
                  exists mask,
                    built combiner ofile_signal t0 t (A1 ++ A2 ++ users ++ A4 ++ A5) mask
              end).
  change (Q (dow (t, effects_mask, still_need_chan) <-
               (if mf
                then dow (t', m) <- add_default_effect combiner ofile_signal "mixer" t1 0;
                     Ret (Within (t', m, false))
                else Ret (Within (t1, 0, nc)));
             dow (t, effects_mask, still_need_rate) <-
               (if rf
                then dow (t', m) <- add_default_effect combiner ofile_signal "resample"
                                       t effects_mask;
                     Ret (Within (t', m, false))
                else Ret (Within (t, effects_mask, nr)));
             dow (t, effects_mask) <-
               Ret (for_up 0 nuser_effects
                      (add_user_effect combiner ofile_signal user_efftab)
                      (Within (t, effects_mask)));
             dow (t, effects_mask) <-
               (if still_need_rate
                then add_default_effect combiner ofile_signal "resample" t effects_mask
                else Ret (Within (t, effects_mask)));
             dow (t, _) <-
               (if still_need_chan
                then add_default_effect combiner ofile_signal "mixer" t effects_mask
                else Ret (Within (t, effects_mask)));
             Ret (Within t))).
  assert (HQe : forall code msg, code = 2 /\ default_getopts_fail -> Q (Exit code msg)).
  { intros code msg [-> Hf]. cbn. auto. }
  assert (H1 : built combiner ofile_signal t0 t1 [] 0).
  { unfold built, chain, chainR, t1. cbn. split_and!; done. }
  rewrite early_default_stage.
  apply (bind_within_stage t0 ([] ++ A1)); [by apply default_stage|exact HQe|..].
  { intros i Hi. cbn. rewrite !length_app in *. cbn [length] in Hi. lia. }
  intros ta ma Ha. cbn [app] in Ha.
  rewrite early_default_stage.
  apply (bind_within_stage t0 (A1 ++ A2)); [by apply default_stage|exact HQe|..].
  { intros i Hi. cbn. rewrite !length_app in *. lia. }
  intros tb mb Hb.
  apply (bind_within_stage t0 ((A1 ++ A2) ++ users)); [|exact HQe|..].
  { cbn [stage]. by apply add_user_effects_step. }
  { intros i Hi. cbn. rewrite !length_app in *. lia. }
  intros tc mc Hc.
  apply (bind_within_stage t0 (((A1 ++ A2) ++ users) ++ A4));
    [by apply default_stage|exact HQe|..].
  { intros i Hi. cbn. rewrite !length_app in *. lia. }
  intros td md Hd.
  apply (bind_within_stage t0 ((((A1 ++ A2) ++ users) ++ A4) ++ A5));
    [by apply default_stage|exact HQe|..].
  { intros i Hi. cbn. rewrite !length_app in *. lia. }
  intros te me He. cbn. exists me.
  by rewrite <- !app_assoc in He.
Qed.

Lemma chain_sources_length (users : list (sox_effect P)) :
  length (chain_sources combiner ofile_signal users)
  = (length users + default_effects combiner ofile_signal users)%nat.
Proof.
  unfold chain_sources, default_effects. rewrite !length_app.
  destruct (negb (si_channels combiner =? si_channels ofile_signal)
            && negb (existsb (fun e => has_flag e SOX_EFF_CHAN) users)),
           (negb (si_rate combiner =? si_rate ofile_signal)
            && negb (existsb (fun e => has_flag e SOX_EFF_RATE) users)),
           (si_channels ofile_signal <? si_channels combiner),
           (si_rate ofile_signal <? si_rate combiner); cbn; lia.
Qed.

(** The names of the chain are those claimed, for a libSoX that gives the
    effect asked for and keeps its name. *)
Lemma chain_sources_names (users : list (sox_effect P)) (m : Z) :
  libsox_names_ok ->
  name <$> fst (update_all combiner ofile_signal m
                  (chain_sources combiner ofile_signal users))
  = expected_chain combiner ofile_signal users.
Proof.
  intros [Hget Hupd].
  assert (Hu : forall es m', name <$> fst (update_all combiner ofile_signal m' es)
                             = name <$> es).
  { induction es as [|e es IH]; intros m'; cbn [update_all]; [done|].
    specialize (Hupd e combiner ofile_signal m').
    destruct (sox_updateeffect e combiner ofile_signal m') as [e' m1].
    specialize (IH m1). destruct (update_all combiner ofile_signal m1 es).
    cbn [fst fmap list_fmap] in *. by rewrite Hupd, IH. }
  rewrite Hu. unfold chain_sources, expected_chain. rewrite !fmap_app.
  assert (Hd : forall nm, name (default_effect nm) = Some nm).
  { intros nm. unfold default_effect. cbn [set_effp name]. apply Hget. }
  repeat match goal with
         | |- context [if ?b then _ else _] => destruct b
         end; cbn [fmap list_fmap]; by rewrite ?Hd.
Qed.

(** X5.  [build_effects_table] leaves in one of three ways.  It leaves
    through [exit(2)], for more than one CHAN effect among the user's or a
    default effect that refuses its options.  Or it stores past the end of
    [efftab] or [efftabR], which happens only where the chain is longer
    than the tables allow.  Or the tables hold the chain: after the input
    entry, which is untouched, the default mixer and resampler where they
    reduce the channels and the rate, the user's effects in their order
    and the resampler and the mixer that are still needed, each as
    [sox_updateeffect] leaves it between the combiner and the output
    signal with the mask of the one before; [efftabR] holds the effect
    again where it is to run as twins and a zeroed entry where not; and
    [neffects] is one more than the user's effects and the default
    effects. *)
Theorem build_effects_table_chain (nuser_effects : nat) (t0 : effects_table P) :
  let users := first_effects user_efftab nuser_effects in
  let sources := chain_sources combiner ofile_signal users in
  length sources = (nuser_effects + default_effects combiner ofile_signal users)%nat
  /\ match build_effects_table combiner ofile_signal user_efftab nuser_effects t0 with
     | Exit code _ =>
         code = 2 /\ (1 < count_flag SOX_EFF_CHAN users \/ default_getopts_fail)
     | Ret (PastEnd i) =>
         (capacity t0 <= i <= length sources)%nat
     | Ret (Within t) =>
         neffects t = S (length sources)
         /\ chain t = fst (update_all combiner ofile_signal 0 sources)
         /\ chainR t = twin_of <$> chain t
         /\ efftab t !! 0%nat = efftab t0 !! 0%nat
         /\ efftabR t !! 0%nat = efftabR t0 !! 0%nat
         /\ length (efftab t) = length (efftab t0)
         /\ length (efftabR t) = length (efftabR t0)
     end.
Proof.
  cbn zeta. split.
  - rewrite chain_sources_length. unfold first_effects.
    by rewrite length_fmap, length_seq.
  - pose proof (build_effects_table_spec nuser_effects t0) as Hs. cbn zeta in Hs.
    destruct (build_effects_table _ _ _ _ _) as [[t|i]|code msg]; [|exact Hs..].
    destruct Hs as (mask & Hn & Hc & HcR & _ & H0 & H0R & Hl & HlR).
    split_and!; assumption.
Qed.

(** Where the chain fits the tables, there is at most one CHAN effect and
    the default effects take their default options, the builder returns
    with the tables built. *)
Lemma build_effects_table_returns (nuser_effects : nat) (t0 : effects_table P) :
  let users := first_effects user_efftab nuser_effects in
  default_getopts_ok ->
  count_flag SOX_EFF_CHAN users <= 1 ->
  (length (chain_sources combiner ofile_signal users) < capacity t0)%nat ->
  exists t,
    build_effects_table combiner ofile_signal user_efftab nuser_effects t0
    = Ret (Within t).
Proof.
  cbn zeta. intros Hg Hcount Hfit.
  pose proof (build_effects_table_spec nuser_effects t0) as Hs. cbn zeta in Hs.
  destruct (build_effects_table _ _ _ _ _) as [[t|i]|code msg].
  - by exists t.
  - lia.
  - destruct Hs as [_ [Hs|(nm & Hs)]]; [lia|]. by destruct (Hg nm).
Qed.

(** The names of the chain built are those the claim lists. *)
Lemma build_effects_table_names (nuser_effects : nat) (t0 t : effects_table P) :
  libsox_names_ok ->
  build_effects_table combiner ofile_signal user_efftab nuser_effects t0
  = Ret (Within t) ->
  name <$> chain t
  = expected_chain combiner ofile_signal (first_effects user_efftab nuser_effects).
Proof.
  intros Hlib Hb.
  pose proof (build_effects_table_spec nuser_effects t0) as Hs. cbn zeta in Hs.
  rewrite Hb in Hs. destruct Hs as (mask & _ & -> & _).
  by apply chain_sources_names.
Qed.
End ChainProofs.

Section ChanProofs.
Context {P F : Type} `{Libsox P F}.

(** C7, as amended.  With more than one CHAN effect among the user's
    effects the chain builder leaves through [exit(2)] with its message,
    and [process] ends with exit code 2 before the [start] of any effect is
    called. *)
Theorem multiple_chan_effects_exit (opened : option sox_format)
    (combiner : sox_signalinfo_t) (user_efftab : list (sox_effect P))
    (nuser_effects : nat) (t0 : effects_table P) :
  1 < count_flag SOX_EFF_CHAN (first_effects user_efftab nuser_effects) ->
  (forall ofile_signal,
     build_effects_table combiner ofile_signal user_efftab nuser_effects t0
     = Exit 2 multiple_chan_message)
  /\ exists msg,
       process_setup opened combiner user_efftab nuser_effects t0 = ([], Exit 2 msg).
Proof.
  intros Hcount.
  assert (Hb : forall ofile_signal,
     build_effects_table combiner ofile_signal user_efftab nuser_effects t0
     = Exit 2 multiple_chan_message).
  { intros o. unfold build_effects_table. rewrite scan_user_effects_spec.
    cbn [user_chan_effects]. rewrite Z.add_0_l.
    destruct (1 <? _) eqn:E; [reflexivity|]. apply Z.ltb_ge in E. lia. }
  split; [exact Hb|]. unfold process_setup. destruct opened as [d|].
  - rewrite Hb. eauto.
  - eauto.
Qed.
End ChanProofs.

(** ** The scheduler *)

Section Join.
Context {P F : Type} `{Platform} `{Libsox P F}.

Lemma join_output_spec (n : nat) (l r dst : list Z) (start : nat) :
  (start + 2 * n <= length dst)%nat ->
  let d := join_output (Z.of_nat n) l r dst start in
  length d = length dst
  /\ forall i, (i < n)%nat ->
       d !! (start + 2 * i)%nat = Some (l !!! i)
       /\ d !! (start + 2 * i + 1)%nat = Some (r !!! i).
Proof.
  intros Hroom. cbn zeta. unfold join_output. rewrite Nat2Z.id.
  apply (for_up_ind (fun k d =>
    length d = length dst
    /\ forall i, (i < k)%nat ->
         d !! (start + 2 * i)%nat = Some (l !!! i)
         /\ d !! (start + 2 * i + 1)%nat = Some (r !!! i))).
  - split; [reflexivity|]. intros i Hi. lia.
  - intros k d Hk [Hlen Hprev]. rewrite Nat.add_0_l. split.
    + by rewrite !length_insert.
    + intros i Hi. destruct (decide (i = k)) as [->|Hne].
      * split.
        -- rewrite list_lookup_insert_ne by lia.
           apply list_lookup_insert_eq. lia.
        -- apply list_lookup_insert_eq. rewrite length_insert. lia.
      * rewrite !list_lookup_insert_ne by lia. apply Hprev. lia.
Qed.

Lemma scratch_lookup (out scratch : list Z) (i : nat) :
  (i < length out)%nat -> (length out <= length scratch)%nat ->
  Some (list_inserts 0 out scratch !!! i) = out !! i.
Proof.
  intros Hi Hlen. rewrite list_lookup_total_inserts by lia.
  rewrite Nat.sub_0_r. symmetry. by apply list_lookup_lookup_total_lt.
Qed.

(** The left buffer after the left twin has written [out] into it. *)
Lemma scratch_lookup_total (out scratch : list Z) (i : nat) :
  (i < length scratch)%nat ->
  Some (list_inserts 0 out scratch !!! i) = list_inserts 0 out scratch !! i.
Proof.
  intros Hi. symmetry. apply list_lookup_lookup_total_lt. by rewrite length_inserts.
Qed.

(** C8, as amended.  Where an effect runs as left and right twins, in
    [flow_effect] and in [drain_effect], the two output counts are not
    compared: [olen] moves by their sum, and as many pairs as the right twin
    gave samples go into the buffer of the stage, each of a sample of the
    left buffer and a sample of the right twin; where the two counts are
    equal, these are the samples of the left and of the right twin, pair by
    pair. *)
Theorem twins_interleave (e : nat) (s : sched P F) :
  (0 < e < length (efftab (sc_tab s)))%nat ->
  let cur := eff s e in
  (* flow *)
  (let rl := flow_left e s in
   let rr := flow_right e s in
   let s' := snd (flow_split e s) in
   olen (eff s' e)
   = sz (olen cur + (Z.of_nat (length (fr_obuf rl)) + Z.of_nat (length (fr_obuf rr))))
   /\ ((length (fr_obuf rr) <= length (obufl s))%nat ->
       (length (fr_obuf rr) <= length (obufr s))%nat ->
       (Z.to_nat (olen cur) + 2 * length (fr_obuf rr) <= length (obuf cur))%nat ->
       forall i, (i < length (fr_obuf rr))%nat ->
         obuf (eff s' e) !! (Z.to_nat (olen cur) + 2 * i)%nat
         = list_inserts 0 (fr_obuf rl) (obufl s) !! i
         /\ obuf (eff s' e) !! (Z.to_nat (olen cur) + 2 * i + 1)%nat = fr_obuf rr !! i
         /\ (length (fr_obuf rl) = length (fr_obuf rr) ->
             obuf (eff s' e) !! (Z.to_nat (olen cur) + 2 * i)%nat = fr_obuf rl !! i)))
  (* drain *)
  /\ (let rl := drain_left e s in
      let rr := drain_right e s in
      let s' := snd (drain_split e s) in
      olen (eff s' e)
      = sz (Z.of_nat (length (dr_obuf rl)) + Z.of_nat (length (dr_obuf rr)))
      /\ ((length (dr_obuf rr) <= length (obufl s))%nat ->
          (length (dr_obuf rr) <= length (obufr s))%nat ->
          (2 * length (dr_obuf rr) <= length (obuf cur))%nat ->
          forall i, (i < length (dr_obuf rr))%nat ->
            obuf (eff s' e) !! (2 * i)%nat = list_inserts 0 (dr_obuf rl) (obufl s) !! i
            /\ obuf (eff s' e) !! (2 * i + 1)%nat = dr_obuf rr !! i
            /\ (length (dr_obuf rl) = length (dr_obuf rr) ->
                obuf (eff s' e) !! (2 * i)%nat = dr_obuf rl !! i))).
Proof.
  intros He. cbn zeta. split.
  - unfold flow_split. destruct (split_buffers e s) as [il ir]. cbn [snd].
    repeat match goal with
    | |- context [eff (with_scratch ?a ?b ?c ?d (with_efftabR ?r (with_efftab ?l ?s0))) ?e0] =>
        change (eff (with_scratch a b c d (with_efftabR r (with_efftab l s0))) e0)
          with (l !!! e0)
    end.
    rewrite list_lookup_total_insert_eq by (rewrite length_insert; lia).
    cbn [olen obuf set_olen set_obuf set_effp]. split; [reflexivity|].
    intros Hl Hr Hroom i Hi.
    destruct (join_output_spec (length (fr_obuf (flow_right e s)))
                (list_inserts 0 (fr_obuf (flow_left e s)) (obufl s))
                (list_inserts 0 (fr_obuf (flow_right e s)) (obufr s))
                (obuf (eff s e)) (Z.to_nat (olen (eff s e))) Hroom) as [_ Hj].
    destruct (Hj i Hi) as [-> ->].
    split; [apply scratch_lookup_total; lia|].
    split; [apply scratch_lookup; lia|].
    intros Heq. apply scratch_lookup; lia.
  - unfold drain_split. cbn [snd].
    repeat match goal with
    | |- context [eff (with_scratch ?a ?b ?c ?d (with_efftabR ?r (with_efftab ?l ?s0))) ?e0] =>
        change (eff (with_scratch a b c d (with_efftabR r (with_efftab l s0))) e0)
          with (l !!! e0)
    end.
    rewrite list_lookup_total_insert_eq by lia.
    cbn [olen obuf set_olen set_obuf set_effp set_odone]. split; [reflexivity|].
    intros Hl Hr Hroom i Hi.
    destruct (join_output_spec (length (dr_obuf (drain_right e s)))
                (list_inserts 0 (dr_obuf (drain_left e s)) (obufl s))
                (list_inserts 0 (dr_obuf (drain_right e s)) (obufr s))
                (obuf (eff s e)) 0 ltac:(simpl; lia)) as [_ Hj].
    destruct (Hj i Hi) as [Ha Hb]. simpl in Ha, Hb.
    replace (i + (i + 0))%nat with (2 * i)%nat in Ha, Hb by lia.
    rewrite Ha, Hb.
    split; [apply scratch_lookup_total; lia|].
    split; [apply scratch_lookup; lia|].
    intros Heq. apply scratch_lookup; lia.
Qed.
End Join.

Section SchedProofs.
Context {P F : Type} `{Platform} `{Libsox P F}.
Hypothesis Hplat : platform_ok.
Hypothesis Hlib : libsox_ok.

Lemma stage_ok_zero : stage_ok zero_effect.
Proof.
  destruct Hlib as (Hf & Hd & _). destruct Hplat as [Hb _].
  split; [split; assumption|]. unfold buffer_ok. simpl. lia.
Qed.

Lemma eff_ok (s : sched P F) (e : nat) :
  sched_ok s -> (e < neffects (sc_tab s))%nat -> stage_ok (eff s e).
Proof.
  intros Hs He. unfold eff.
  destruct (efftab (sc_tab s) !! e) as [x|] eqn:Ex.
  - rewrite (list_lookup_total_correct _ _ _ Ex).
    unfold sched_ok in Hs. rewrite Forall_lookup in Hs. apply (Hs e).
    rewrite lookup_take_lt by lia. exact Ex.
  - rewrite list_lookup_total_alt, Ex. apply stage_ok_zero.
Qed.

Lemma take_insert_Forall {A} (Q : A -> Prop) (l : list A) (n i : nat) (x : A) :
  Forall Q (take n l) -> Q x -> Forall Q (take n (<[i := x]> l)).
Proof.
  intros Hl Hx. destruct (decide (i < n)%nat).
  - rewrite take_insert_lt by lia. by apply Forall_insert.
  - by rewrite take_insert_ge by lia.
Qed.

Lemma sched_ok_insert (s : sched P F) (l : list (sox_effect P)) (i : nat) x :
  sched_ok (with_efftab l s) -> stage_ok x ->
  sched_ok (with_efftab (<[i := x]> l) s).
Proof. unfold sched_ok. simpl. apply take_insert_Forall. Qed.

Lemma sched_ok_same_tab (s s' : sched P F) :
  efftab (sc_tab s') = efftab (sc_tab s) ->
  neffects (sc_tab s') = neffects (sc_tab s) ->
  sched_ok s -> sched_ok s'.
Proof. unfold sched_ok. by intros -> ->. Qed.

Lemma flow_whole_ok (e : nat) (s : sched P F) :
  sched_ok s -> (0 < e < neffects (sc_tab s))%nat ->
  let s' := snd (flow_whole e s) in
  sched_ok s' /\ neffects (sc_tab s') = neffects (sc_tab s)
  /\ input_eff s' = input_eff s /\ input_eff_eof s' = input_eff_eof s
  /\ forall k, k <> e -> k <> (e - 1)%nat -> eff s' k = eff s k.
Proof.
  intros Hs He. cbn zeta.
  destruct (eff_ok s (e - 1) Hs ltac:(lia)) as [Hhp (Hp0 & Hp1 & Hp2)].
  destruct (eff_ok s e Hs ltac:(lia)) as [[Hfl Hdr] (Hc0 & Hc1 & Hc2)].
  destruct Hplat as [Hb0 Hb1].
  unfold flow_whole. cbn [snd].
  rewrite (sz_small (olen (eff s (e - 1)) - odone (eff s (e - 1)))) by lia.
  rewrite (sz_small (sox_bufsiz - olen (eff s e))) by lia.
  set (r := default sox_effect_nothing_flow (h_flow (h (eff s e))) _ _ _ _ _).
  destruct (Hfl (priv (eff s e)) (clips (eff s e))
              (take (Z.to_nat (olen (eff s (e - 1)) - odone (eff s (e - 1))))
                 (drop (Z.to_nat (odone (eff s (e - 1)))) (obuf (eff s (e - 1)))))
              (olen (eff s (e - 1)) - odone (eff s (e - 1)))
              (sox_bufsiz - olen (eff s e))) as [Hi Ho]; [lia|lia|].
  fold r in Hi, Ho.
  split; [|split; [reflexivity|split; [reflexivity|split; [reflexivity|]]]].
  - apply sched_ok_insert; [apply sched_ok_insert|].
    + eapply sched_ok_same_tab; [..|exact Hs]; reflexivity.
    + split; [exact Hhp|]. unfold buffer_ok. cbn [odone olen set_odone].
      rewrite sz_small by lia. lia.
    + split; [split; assumption|]. unfold buffer_ok.
      cbn [odone olen set_odone set_olen set_obuf set_effp].
      rewrite sz_small by lia. lia.
  - intros k Hk1 Hk2. unfold eff. cbn [with_efftab sc_tab efftab].
    by rewrite !list_lookup_total_insert_ne by lia.
Qed.

Lemma flow_split_ok (e : nat) (s : sched P F) :
  sched_ok s -> (0 < e < neffects (sc_tab s))%nat ->
  let s' := snd (flow_split e s) in
  sched_ok s' /\ neffects (sc_tab s') = neffects (sc_tab s)
  /\ input_eff s' = input_eff s /\ input_eff_eof s' = input_eff_eof s
  /\ forall k, k <> e -> k <> (e - 1)%nat -> eff s' k = eff s k.
Proof.
  intros Hs He. cbn zeta.
  destruct (eff_ok s (e - 1) Hs ltac:(lia)) as [Hhp (Hp0 & Hp1 & Hp2)].
  destruct (eff_ok s e Hs ltac:(lia)) as [[Hfl Hdr] (Hc0 & Hc1 & Hc2)].
  destruct Hplat as [Hb0 Hb1].
  assert (Hq : 0 <= (sox_bufsiz - olen (eff s e)) / 2) by (apply Z.div_pos; lia).
  assert (Hq1 : 0 <= (olen (eff s (e - 1)) - odone (eff s (e - 1))) / 2)
    by (apply Z.div_pos; lia).
  assert (Hq2 : 0 <= (olen (eff s (e - 1)) - odone (eff s (e - 1)) + 1) / 2)
    by (apply Z.div_pos; lia).
  assert (Hq3 : (olen (eff s (e - 1)) - odone (eff s (e - 1)) + 1) / 2
                + (olen (eff s (e - 1)) - odone (eff s (e - 1))) / 2
                <= olen (eff s (e - 1)) - odone (eff s (e - 1)))
    by (Z.div_mod_to_equations; lia).
  assert (Hq4 : 2 * ((sox_bufsiz - olen (eff s e)) / 2) <= sox_bufsiz - olen (eff s e))
    by (Z.div_mod_to_equations; lia).
  assert (Hl : 0 <= fr_isamp (flow_left e s)
                 <= (olen (eff s (e - 1)) - odone (eff s (e - 1)) + 1) / 2
               /\ Z.of_nat (length (fr_obuf (flow_left e s)))
                  <= (sox_bufsiz - olen (eff s e)) / 2).
  { unfold flow_left.
    rewrite (sz_small (olen (eff s (e - 1)) - odone (eff s (e - 1)))) by lia.
    rewrite (sz_small (sox_bufsiz - olen (eff s e))) by lia.
    rewrite (sz_small (olen (eff s (e - 1)) - odone (eff s (e - 1)) + 1)) by lia.
    apply Hfl; lia. }
  assert (Hr : 0 <= fr_isamp (flow_right e s)
                 <= (olen (eff s (e - 1)) - odone (eff s (e - 1))) / 2
               /\ Z.of_nat (length (fr_obuf (flow_right e s)))
                  <= (sox_bufsiz - olen (eff s e)) / 2).
  { unfold flow_right.
    rewrite (sz_small (olen (eff s (e - 1)) - odone (eff s (e - 1)))) by lia.
    rewrite (sz_small (sox_bufsiz - olen (eff s e))) by lia.
    apply Hfl; lia. }
  destruct Hl as [Hli Hlo], Hr as [Hri Hro].
  unfold flow_split. destruct (split_buffers e s) as [il ir]. cbn [snd].
  split; [|split; [reflexivity|split; [reflexivity|split; [reflexivity|]]]].
  - unfold sched_ok. cbn [with_scratch with_efftabR with_efftab sc_tab efftab neffects].
    apply take_insert_Forall; [apply take_insert_Forall|].
    + exact Hs.
    + split; [exact Hhp|]. unfold buffer_ok. cbn [odone olen set_odone].
      rewrite sz_small by lia. lia.
    + split; [split; assumption|]. unfold buffer_ok.
      cbn [odone olen set_odone set_olen set_obuf set_effp].
      rewrite sz_small by lia. lia.
  - intros k Hk1 Hk2. unfold eff.
    cbn [with_scratch with_efftabR with_efftab sc_tab efftab].
    by rewrite !list_lookup_total_insert_ne by lia.
Qed.

(** [flow_effect] keeps the invariant and touches the stages [e - 1] and
    [e] only. *)
Lemma flow_effect_ok (e : nat) (s s' : sched P F) (st : Z) :
  sched_ok s -> (0 < e < neffects (sc_tab s))%nat ->
  flow_effect e s = Ret (st, s') ->
  sched_ok s' /\ neffects (sc_tab s') = neffects (sc_tab s)
  /\ input_eff s' = input_eff s /\ input_eff_eof s' = input_eff_eof s
  /\ forall k, k <> e -> k <> (e - 1)%nat -> eff s' k = eff s k.
Proof.
  intros Hs He. unfold flow_effect.
  destruct (user_abort s); [by intros [= <- <-]|].
  destruct (odone (eff s (e - 1)) =? olen (eff s (e - 1))); [by intros [= <- <-]|].
  destruct (negb (has_twin s e)).
  - pose proof (flow_whole_ok e s Hs He) as Hw. cbn zeta in Hw.
    destruct (flow_whole e s) as [[es dn] s1]. cbn [snd] in Hw.
    destruct (es =? SOX_EOF); [by intros [= <- <-]|].
    destruct (dn =? 0); [discriminate|]. by intros [= <- <-].
  - pose proof (flow_split_ok e s Hs He) as Hw. cbn zeta in Hw.
    destruct (flow_split e s) as [[es dn] s1]. cbn [snd] in Hw.
    destruct (es =? SOX_EOF); [by intros [= <- <-]|].
    destruct (dn =? 0); [discriminate|]. by intros [= <- <-].
Qed.

(** [drain_effect] keeps the invariant, touches stage [e] only and leaves
    [odone] of that stage at 0. *)
Lemma drain_effect_ok (e : nat) (s : sched P F) :
  sched_ok s -> (e < neffects (sc_tab s))%nat ->
  let s' := snd (drain_effect e s) in
  sched_ok s' /\ neffects (sc_tab s') = neffects (sc_tab s)
  /\ input_eff s' = input_eff s
  /\ buffer_reused (eff s' e)
  /\ forall k, k <> e -> eff s' k = eff s k.
Proof.
  intros Hs He. cbn zeta.
  destruct (eff_ok s e Hs He) as [[Hfl Hdr] (Hc0 & Hc1 & Hc2)].
  destruct Hplat as [Hb0 Hb1].
  assert (Hq : 0 <= sox_bufsiz / 2) by (apply Z.div_pos; lia).
  assert (Hq4 : 2 * (sox_bufsiz / 2) <= sox_bufsiz) by (Z.div_mod_to_equations; lia).
  unfold drain_effect. destruct (negb (has_twin s e)).
  - unfold drain_whole. cbn [snd].
    pose proof (Hdr (priv (eff s e)) (clips (eff s e)) sox_bufsiz) as Hd.
    split; [|split; [reflexivity|split; [reflexivity|split]]].
    + apply sched_ok_insert.
      * eapply sched_ok_same_tab; [..|exact Hs]; reflexivity.
      * split; [split; assumption|]. unfold buffer_ok.
        cbn [odone olen set_odone set_olen set_obuf set_effp]. lia.
    + unfold eff. cbn [with_efftab sc_tab efftab].
      destruct (decide (e < length (efftab (sc_tab s)))%nat).
      * rewrite list_lookup_total_insert_eq by lia. unfold buffer_reused.
        cbn [odone olen set_odone set_olen set_obuf set_effp]. intros <-. done.
      * rewrite list_insert_ge by lia. rewrite list_lookup_total_alt.
        rewrite lookup_ge_None_2 by lia. done.
    + intros k Hk. unfold eff. cbn [with_efftab sc_tab efftab].
      by rewrite list_lookup_total_insert_ne by lia.
  - unfold drain_split. cbn [snd].
    assert (Hl : Z.of_nat (length (dr_obuf (drain_left e s))) <= sox_bufsiz / 2)
      by (apply Hdr; lia).
    assert (Hr : Z.of_nat (length (dr_obuf (drain_right e s))) <= sox_bufsiz / 2)
      by (apply Hdr; lia).
    split; [|split; [reflexivity|split; [reflexivity|split]]].
    + unfold sched_ok. cbn [with_scratch with_efftabR with_efftab sc_tab efftab neffects].
      apply take_insert_Forall; [exact Hs|].
      split; [split; assumption|]. unfold buffer_ok.
      cbn [odone olen set_odone set_olen set_obuf set_effp].
      rewrite sz_small by lia. lia.
    + unfold eff. cbn [with_scratch with_efftabR with_efftab sc_tab efftab].
      destruct (decide (e < length (efftab (sc_tab s)))%nat).
      * rewrite list_lookup_total_insert_eq by lia. unfold buffer_reused.
        cbn [odone olen set_odone set_olen set_obuf set_effp]. intros <-. done.
      * rewrite list_insert_ge by lia. rewrite list_lookup_total_alt.
        rewrite lookup_ge_None_2 by lia. done.
    + intros k Hk. unfold eff. cbn [with_scratch with_efftabR with_efftab sc_tab efftab].
      by rewrite list_lookup_total_insert_ne by lia.
Qed.

(** The pull through the chain keeps the invariant. *)
Lemma pull_chain_ok (e : nat) :
  forall (s s' : sched P F),
    sched_ok s -> (e < neffects (sc_tab s))%nat ->
    pull_chain e s = Ret s' ->
    sched_ok s' /\ neffects (sc_tab s') = neffects (sc_tab s)
    /\ ofile_channels s' = ofile_channels s.
Proof.
  induction e as [|e IH]; intros s s' Hs He; cbn [pull_chain].
  - by intros [= <-].
  - destruct (S e <? input_eff s)%nat; [by intros [= <-]|].
    destruct ((S e =? input_eff s)%nat && input_eff_eof s).
    + intros Hp. apply IH in Hp; [exact Hp|exact Hs|lia].
    + destruct (flow_effect (S e) s) as [[st s1]|] eqn:Ef; [|discriminate].
      cbn [bind].
      destruct (flow_effect_ok (S e) s s1 st Hs ltac:(lia) Ef) as (Hs1 & Hn1 & _).
      assert (Hc1 : ofile_channels s1 = ofile_channels s).
      { revert Ef. unfold flow_effect.
        destruct (user_abort s); [by intros [= _ <-]|].
        destruct (_ =? _); [by intros [= _ <-]|].
        destruct (negb _).
        - unfold flow_whole. destruct (_ =? SOX_EOF); [by intros [= _ <-]|].
          destruct (_ =? 0); [discriminate|]. by intros [= _ <-].
        - unfold flow_split. destruct (split_buffers _ _).
          destruct (_ =? SOX_EOF); [by intros [= _ <-]|].
          destruct (_ =? 0); [discriminate|]. by intros [= _ <-]. }
      set (s2 := if st =? SOX_EOF then with_input_eff (S e) false s1 else s1).
      assert (Hs2 : sched_ok s2 /\ neffects (sc_tab s2) = neffects (sc_tab s)
                    /\ ofile_channels s2 = ofile_channels s).
      { unfold s2. destruct (st =? SOX_EOF); auto. }
      destruct Hs2 as (Hs2 & Hn2 & Hc2).
      destruct (odone (eff s2 (S e)) <? olen (eff s2 (S e))); [by intros [= <-]|].
      intros Hp. apply IH in Hp; [|exact Hs2|lia].
      destruct Hp as (? & ? & ?). split; [assumption|split; congruence].
Qed.

(** The write loop comes to an end. *)
Lemma write_output_total (fuel : nat) :
  forall (abort : bool) (buf : list Z) (len total : Z) (d : F),
    total < len -> len - total <= Z.of_nat fuel ->
    write_output fuel abort buf len total d <> None.
Proof.
  destruct Hlib as (_ & _ & Hw).
  induction fuel as [|fuel IH]; intros abort buf len total d Hlt Hfuel; [lia|].
  cbn [write_output]. destruct abort; [done|].
  specialize (Hw d (take (Z.to_nat (len - total)) (drop (Z.to_nat total) buf))).
  destruct (sox_write d _) as [d' written]. cbn [snd] in Hw.
  destruct (written =? 0) eqn:E0; [done|]. apply Z.eqb_neq in E0.
  destruct (total + written <? len) eqn:E1; [|done].
  apply Z.ltb_lt in E1. apply IH; lia.
Qed.

Lemma stage_ok_reset (x : sox_effect P) :
  stage_ok x -> stage_ok (set_olen 0 (set_odone 0 x)).
Proof.
  intros [Hh _]. split; [exact Hh|]. destruct Hplat as [Hb _].
  unfold buffer_ok. simpl. lia.
Qed.

Lemma reuse_buffer_ok (e : nat) (s : sched P F) (hd : bool) :
  sched_ok s -> (e < neffects (sc_tab s))%nat ->
  let s' := fst (reuse_buffer e (s, hd)) in
  sched_ok s' /\ neffects (sc_tab s') = neffects (sc_tab s)
  /\ input_eff s' = input_eff s /\ input_eff_eof s' = input_eff_eof s
  /\ buffer_reused (eff s' e)
  /\ forall k, buffer_reused (eff s k) -> buffer_reused (eff s' k).
Proof.
  intros Hs He. cbn zeta. unfold reuse_buffer.
  set (s1 := if odone (eff s e) =? olen (eff s e)
             then with_efftab (<[e := set_olen 0 (set_odone 0 (eff s e))]>
                                 (efftab (sc_tab s))) s
             else s).
  assert (Hfst : fst (if odone (eff s1 e) <? olen (eff s1 e)
                      then if ofile_channels s1 <=? sz (olen (eff s1 e) - odone (eff s1 e))
                           then (s1, true) else (s1, hd)
                      else (s1, hd)) = s1).
  { by repeat case_match. }
  rewrite Hfst. clear Hfst. unfold s1. clear s1.
  destruct (odone (eff s e) =? olen (eff s e)) eqn:E.
  - split; [|split; [reflexivity|split; [reflexivity|split; [reflexivity|split]]]].
    + apply sched_ok_insert.
      * eapply sched_ok_same_tab; [..|exact Hs]; reflexivity.
      * apply stage_ok_reset. by apply eff_ok.
    + unfold eff. cbn [with_efftab sc_tab efftab].
      destruct (decide (e < length (efftab (sc_tab s)))%nat).
      * rewrite list_lookup_total_insert_eq by lia. done.
      * rewrite list_insert_ge by lia. rewrite list_lookup_total_alt.
        rewrite lookup_ge_None_2 by lia. done.
    + intros k Hk. unfold eff. cbn [with_efftab sc_tab efftab].
      destruct (decide (k = e)) as [->|Hne].
      * destruct (decide (e < length (efftab (sc_tab s)))%nat).
        -- rewrite list_lookup_total_insert_eq by lia. done.
        -- rewrite list_insert_ge by lia. exact Hk.
      * rewrite list_lookup_total_insert_ne by lia. exact Hk.
  - split; [exact Hs|]. repeat (split; [reflexivity|]). split; [|auto].
    apply Z.eqb_neq in E. intros Heq. contradiction.
Qed.

Lemma reuse_buffers_fold (l : list nat) :
  forall (s : sched P F) (hd : bool),
    sched_ok s -> Forall (fun e => (e < neffects (sc_tab s))%nat) l ->
    let s' := fst (foldl (fun st e => reuse_buffer e st) (s, hd) l) in
    sched_ok s' /\ neffects (sc_tab s') = neffects (sc_tab s)
    /\ input_eff s' = input_eff s /\ input_eff_eof s' = input_eff_eof s
    /\ (forall e, e ∈ l -> buffer_reused (eff s' e))
    /\ forall k, buffer_reused (eff s k) -> buffer_reused (eff s' k).
Proof.
  induction l as [|e l IH]; intros s hd Hs Hl; cbn zeta.
  - simpl. repeat (split; [done|]). split; [|done]. intros e He. by apply elem_of_nil in He.
  - cbn [foldl]. inversion Hl as [|? ? He Hl']; subst. clear Hl. rename Hl' into Hl.
    destruct (reuse_buffer_ok e s hd Hs He) as (Hs1 & Hn1 & Hi1 & Hf1 & Hr1 & Hk1).
    destruct (reuse_buffer e (s, hd)) as [s1 hd1]. cbn [fst] in *.
    destruct (IH s1 hd1 Hs1 ltac:(by rewrite Hn1)) as (Hs2 & Hn2 & Hi2 & Hf2 & Hr2 & Hk2).
    split; [exact Hs2|]. split; [congruence|]. split; [congruence|].
    split; [congruence|]. split.
    + intros e' He'. apply elem_of_cons in He' as [->|He']; auto.
    + auto.
Qed.

Lemma reuse_buffers_ok (s : sched P F) :
  sched_ok s ->
  let s' := fst (reuse_buffers s) in
  sched_ok s' /\ neffects (sc_tab s') = neffects (sc_tab s)
  /\ input_eff s' = input_eff s /\ input_eff_eof s' = input_eff_eof s
  /\ reused_from (input_eff s) s'.
Proof.
  intros Hs. cbn zeta. unfold reuse_buffers.
  destruct (reuse_buffers_fold
              (reverse (seq (input_eff s) (neffects (sc_tab s) - input_eff s)))
              s false Hs) as (Hs' & Hn & Hi & Hf & Hr & _).
  { apply Forall_forall. intros e He. apply list_elem_of_In in He.
    apply elem_of_reverse, elem_of_seq in He. lia. }
  repeat (split; [assumption|]).
  intros e He. apply Hr. apply elem_of_reverse, elem_of_seq. lia.
Qed.

Lemma prime_pump_ok (rounds : nat) :
  forall (s : sched P F) (k : nat),
    sched_ok s -> (k <= input_eff s)%nat -> reused_from k s ->
    let s' := fst (prime_pump rounds s) in
    sched_ok s' /\ neffects (sc_tab s') = neffects (sc_tab s)
    /\ (input_eff s <= input_eff s')%nat
    /\ reused_from k s'.
Proof.
  induction rounds as [|rounds IH]; intros s k Hs Hk Hr; cbn zeta; cbn [prime_pump].
  - simpl. auto.
  - destruct (input_eff s <? neffects (sc_tab s))%nat eqn:E; [|simpl; auto].
    apply Nat.ltb_lt in E.
    pose proof (drain_effect_ok (input_eff s) s Hs E) as Hd. cbn zeta in Hd.
    destruct (drain_effect (input_eff s) s) as [rc s1]. cbn [snd] in Hd.
    destruct Hd as (Hs1 & Hn1 & Hi1 & Hr1 & Hk1).
    assert (Hr' : reused_from k s1).
    { intros e He. destruct (decide (e = input_eff s)) as [->|Hne]; [exact Hr1|].
      rewrite Hk1 by exact Hne. apply Hr. lia. }
    destruct (olen (eff s1 (input_eff s1)) =? 0).
    + destruct (IH (with_input_eff (S (input_eff s1)) false s1) k)
        as (Hs2 & Hn2 & Hi2 & Hr2).
      * exact Hs1.
      * simpl. lia.
      * exact Hr'.
      * split; [exact Hs2|]. split; [simpl in Hn2; congruence|].
        split; [simpl in Hi2; lia|exact Hr2].
    + cbn [fst]. split; [exact Hs1|]. split; [exact Hn1|].
      split; [simpl; lia|exact Hr'].
Qed.

Lemma flow_effect_exit (e : nat) (s : sched P F) code msg :
  flow_effect e s = Exit code msg -> code = 2.
Proof.
  unfold flow_effect. destruct (user_abort s); [discriminate|].
  destruct (_ =? _); [discriminate|].
  destruct (if negb (has_twin s e) then flow_whole e s else flow_split e s)
    as [[es dn] s1].
  destruct (es =? SOX_EOF); [discriminate|].
  destruct (dn =? 0); [|discriminate]. by intros [= <- _].
Qed.

Lemma pull_chain_exit (e : nat) :
  forall (s : sched P F) code msg, pull_chain e s = Exit code msg -> code = 2.
Proof.
  induction e as [|e IH]; intros s code msg; cbn [pull_chain]; [discriminate|].
  destruct (S e <? input_eff s)%nat; [discriminate|].
  destruct ((S e =? input_eff s)%nat && input_eff_eof s); [apply IH|].
  destruct (flow_effect (S e) s) as [[st s1]|c m] eqn:Ef; cbn [bind].
  - destruct (_ <? _); [discriminate|]. apply IH.
  - intros [= <- _]. by apply flow_effect_exit in Ef.
Qed.

Lemma write_phase_ok (s1 : sched P F) :
  sched_ok s1 -> (0 < neffects (sc_tab s1))%nat ->
  match write_phase s1 with
  | None => False
  | Some (inl s2) | Some (inr s2) =>
      efftab (sc_tab s2) = efftab (sc_tab s1)
      /\ neffects (sc_tab s2) = neffects (sc_tab s1)
  end.
Proof.
  intros Hs Hn. unfold write_phase.
  set (last := (neffects (sc_tab s1) - 1)%nat).
  destruct (eff_ok s1 last Hs ltac:(lia)) as [_ (Hb0 & Hb1 & Hb2)].
  destruct (odone (eff s1 last) <? olen (eff s1 last)) eqn:E; [|done].
  apply Z.ltb_lt in E.
  assert (Hw : write_output (Z.to_nat (olen (eff s1 last))) (user_abort s1)
                 (obuf (eff s1 last)) (olen (eff s1 last)) 0 (ofile_desc s1) <> None)
    by (apply write_output_total; lia).
  destruct (write_output _ _ _ _ _ _) as [[d [total|]]|]; done.
Qed.

Lemma reuse_phase_ok (s2 : sched P F) :
  sched_ok s2 -> (0 < neffects (sc_tab s2))%nat ->
  match reuse_phase s2 with
  | Again s' | Leaves s' =>
      sched_ok s' /\ neffects (sc_tab s') = neffects (sc_tab s2)
      /\ reused_from (input_eff s') s'
  | _ => False
  end.
Proof.
  intros Hs Hn. unfold reuse_phase.
  set (last := (neffects (sc_tab s2) - 1)%nat).
  set (s3 := with_efftab _ s2).
  assert (Hs3 : sched_ok s3).
  { unfold s3. apply sched_ok_insert.
    - eapply sched_ok_same_tab; [..|exact Hs]; reflexivity.
    - apply stage_ok_reset. apply eff_ok; [exact Hs|lia]. }
  destruct (reuse_buffers_ok s3 Hs3) as (Hs4 & Hn4 & Hi4 & Hf4 & Hr4).
  destruct (reuse_buffers s3) as [s4 hd]. cbn [fst] in *.
  assert (Hn34 : neffects (sc_tab s4) = neffects (sc_tab s2)) by (by rewrite Hn4).
  rewrite <- Hi4 in Hr4.
  destruct (negb hd && (0 <? input_eff s4)%nat).
  - set (s4' := if input_eff_eof s4 then with_input_eff (S (input_eff s4)) false s4 else s4).
    assert (H4' : sched_ok s4' /\ neffects (sc_tab s4') = neffects (sc_tab s4)
                  /\ (input_eff s4 <= input_eff s4')%nat
                  /\ reused_from (input_eff s4) s4').
    { unfold s4'. destruct (input_eff_eof s4); [|auto].
      split; [exact Hs4|]. split; [reflexivity|]. split; [simpl; lia|exact Hr4]. }
    destruct H4' as (Hs4' & Hn4' & Hi4' & Hr4').
    destruct (prime_pump_ok (neffects (sc_tab s4') - input_eff s4') s4' (input_eff s4)
                Hs4' Hi4' Hr4') as (Hs5 & Hn5 & Hi5 & Hr5).
    destruct (prime_pump _ s4') as [s5 hd5]. cbn [fst] in *.
    assert (Hres : sched_ok s5 /\ neffects (sc_tab s5) = neffects (sc_tab s2)
                   /\ reused_from (input_eff s5) s5).
    { split; [exact Hs5|]. split; [congruence|].
      intros e He. apply Hr5. lia. }
    by destruct hd5.
  - by destruct hd.
Qed.

(** A block read by [sox_read_wide] fits the buffer. *)
Lemma sox_read_wide_bound (combiner_channels signal_channels : Z) (sox_read : Z -> Z) :
  0 < signal_channels <= combiner_channels ->
  (forall n, 0 <= n -> 0 <= sox_read n <= n) ->
  0 <= sox_read_wide combiner_channels signal_channels sox_read
    <= sox_bufsiz / combiner_channels.
Proof.
  intros Hc Hread. destruct Hplat as [Hb0 Hb1]. unfold sox_read_wide.
  assert (Hlen : 0 <= sox_bufsiz / combiner_channels) by (apply Z.div_pos; lia).
  assert (Hmul : sox_bufsiz / combiner_channels * combiner_channels <= sox_bufsiz).
  { rewrite Z.mul_comm. apply Z.mul_div_le. lia. }
  assert (Hfit : 0 <= sox_bufsiz / combiner_channels * signal_channels <= SOX_SIZE_MAX)
    by nia.
  rewrite sz_small by exact Hfit.
  destruct (Hread (sox_bufsiz / combiner_channels * signal_channels)) as [Hr0 Hr1];
    [lia|].
  split; [apply Z.div_pos; lia|].
  apply Z.div_le_upper_bound; [lia|]. lia.
Qed.

(** The block handed over by [process] keeps the invariant of the input
    stage. *)
Lemma hand_over_ok (n combiner_channels : Z) (s : sched P F) :
  sched_ok s -> (0 < neffects (sc_tab s))%nat ->
  0 < combiner_channels -> 0 <= n <= sox_bufsiz / combiner_channels ->
  sched_ok (hand_over n combiner_channels s).
Proof.
  intros Hs Hn Hc Hlen. destruct Hplat as [Hb0 Hb1]. unfold hand_over.
  assert (Hmul : sox_bufsiz / combiner_channels * combiner_channels <= sox_bufsiz).
  { rewrite Z.mul_comm. apply Z.mul_div_le. lia. }
  apply sched_ok_insert.
  - eapply sched_ok_same_tab; [..|exact Hs]; reflexivity.
  - destruct (eff_ok s 0 Hs Hn) as [Hh _]. split; [exact Hh|].
    unfold buffer_ok. cbn [odone olen set_odone set_olen].
    rewrite sz_small by nia. nia.
Qed.

(** [process] starts the chain in order: once the chain is marked as empty
    and a block is handed over, every stage keeps the invariant. *)
Lemma chain_start_ok (n combiner_channels : Z) (s : sched P F) :
  Forall handlers_ok (take (neffects (sc_tab s)) (efftab (sc_tab s))) ->
  0 < combiner_channels -> 0 <= n <= sox_bufsiz / combiner_channels ->
  sched_ok (hand_over n combiner_channels (mark_chain_empty s)).
Proof.
  intros Hh Hc Hlen. destruct Hplat as [Hb0 Hb1].
  assert (Hmul : sox_bufsiz / combiner_channels * combiner_channels <= sox_bufsiz).
  { rewrite Z.mul_comm. apply Z.mul_div_le. lia. }
  assert (Hzero : handlers_ok (@zero_effect P F _)).
  { destruct Hlib as (Hf & Hd & _). by split. }
  assert (Hget : forall l e, Forall handlers_ok (take (neffects (sc_tab s)) l) ->
                   (e < neffects (sc_tab s))%nat -> handlers_ok (l !!! e)).
  { intros l e Hl He. destruct (l !! e) as [x|] eqn:Ex.
    - rewrite (list_lookup_total_correct _ _ _ Ex). rewrite Forall_lookup in Hl.
      apply (Hl e). by rewrite lookup_take_lt by lia.
    - by rewrite list_lookup_total_alt, Ex. }
  set (marked := for_up 1 (neffects (sc_tab s) - 1)
                   (fun e l => <[e := set_olen 0 (set_odone 0 (l !!! e))]> l)
                   (efftab (sc_tab s))).
  assert (Hm : Forall handlers_ok (take (neffects (sc_tab s)) marked)
               /\ forall e x, (1 <= e < 1 + (neffects (sc_tab s) - 1))%nat ->
                    marked !! e = Some x -> buffer_ok x).
  { unfold marked.
    apply (for_up_ind (fun k l =>
             Forall handlers_ok (take (neffects (sc_tab s)) l)
             /\ forall e x, (1 <= e < 1 + k)%nat -> l !! e = Some x -> buffer_ok x)).
    - split; [exact Hh|]. intros e x He. lia.
    - intros k l Hk [Hl Hb]. split.
      + apply take_insert_Forall; [exact Hl|]. apply (Hget l (1 + k)%nat Hl). lia.
      + intros e x He Hx. destruct (decide (e = (1 + k)%nat)) as [->|Hne].
        * apply list_lookup_insert_Some in Hx as [(_ & <- & _)|[Hx _]]; [|done].
          unfold buffer_ok. simpl. lia.
        * rewrite list_lookup_insert_ne in Hx by lia. apply (Hb e x); [lia|exact Hx]. }
  destruct Hm as [Hmh Hmb].
  unfold hand_over, mark_chain_empty, sched_ok, eff.
  cbn [with_efftab sc_tab efftab neffects]. fold marked.
  apply Forall_lookup. intros i x Hx.
  apply lookup_take_Some in Hx as [Hx Hi].
  destruct (decide (i = 0%nat)) as [->|Hne].
  - apply list_lookup_insert_Some in Hx as [(_ & <- & _)|[Hx _]]; [|done].
    split; [apply (Hget marked 0%nat Hmh); lia|].
    unfold buffer_ok. cbn [odone olen set_odone set_olen].
    rewrite sz_small by nia. nia.
  - rewrite list_lookup_insert_ne in Hx by lia. split.
    + rewrite Forall_lookup in Hmh. apply (Hmh i). by rewrite lookup_take_lt by lia.
    + apply (Hmb i x); [lia|exact Hx].
Qed.

(** C2, as amended.  After a round of the loop of [flow_effect_out], under
    the contract of the handlers, every stage of the chain has
    [0 <= odone <= olen <= sox_bufsiz], and every stage from [input_eff] on
    whose [odone] equals its [olen] has both at 0; the round ends, and where
    it leaves through [exit] the code is 2. *)
Theorem flow_round_buffers (s : sched P F) :
  sched_ok s -> (0 < neffects (sc_tab s))%nat ->
  match flow_effect_out_round s with
  | Again s' | Leaves s' =>
      (forall e, (e < neffects (sc_tab s'))%nat -> buffer_ok (eff s' e))
      /\ (forall e, (input_eff s' <= e < neffects (sc_tab s'))%nat ->
            odone (eff s' e) = olen (eff s' e) ->
            odone (eff s' e) = 0 /\ olen (eff s' e) = 0)
      /\ sched_ok s' /\ neffects (sc_tab s') = neffects (sc_tab s)
  | Returns _ s' =>
      (forall e, (e < neffects (sc_tab s'))%nat -> buffer_ok (eff s' e))
      /\ sched_ok s' /\ neffects (sc_tab s') = neffects (sc_tab s)
  | Exits code _ => code = 2
  | OutOfFuel => False
  end.
Proof.
  intros Hs Hn. unfold flow_effect_out_round.
  destruct (pull_chain (neffects (sc_tab s) - 1) s) as [s1|code msg] eqn:Ep.
  - destruct (pull_chain_ok (neffects (sc_tab s) - 1) s s1 Hs) as (Hs1 & Hn1 & _); [lia|exact Ep|].
    assert (Hn1' : (0 < neffects (sc_tab s1))%nat) by lia.
    pose proof (write_phase_ok s1 Hs1 Hn1') as Hw.
    destruct (write_phase s1) as [[s2|s2]|]; [| |done].
    + destruct Hw as [Ht2 Hn2].
      assert (Hs2 : sched_ok s2) by (by apply (sched_ok_same_tab s1)).
      split; [|split; [exact Hs2|congruence]].
      intros e He. by apply eff_ok.
    + destruct Hw as [Ht2 Hn2].
      assert (Hs2 : sched_ok s2) by (by apply (sched_ok_same_tab s1)).
      assert (Hn2' : (0 < neffects (sc_tab s2))%nat) by lia.
      pose proof (reuse_phase_ok s2 Hs2 Hn2') as Hr.
      destruct (reuse_phase s2) as [s'|s'| | |]; try done.
      * destruct Hr as (Hs' & Hn' & Hr').
        split; [intros e He; by apply eff_ok|].
        split; [intros e He; by apply Hr'|]. split; [exact Hs'|congruence].
      * destruct Hr as (Hs' & Hn' & Hr').
        split; [intros e He; by apply eff_ok|].
        split; [intros e He; by apply Hr'|]. split; [exact Hs'|congruence].
  - by apply pull_chain_exit in Ep.
Qed.
End SchedProofs.

(** ** The command line *)

(** A command line of file names only: the files are taken as long as there
    is room for them in [files], which has [MAX_FILES] entries. *)
Lemma parse_filenames_names (names : list string) (g : globals) :
  forall files, (length files <= MAX_FILES)%nat ->
    parse_filenames (Afile <$> names) None g files
    = if (length files + length names <=? MAX_FILES)%nat
      then Ret (None, g, files ++ ((fun n => with_filename n new_file) <$> names))
      else Exit 1 too_many_filenames.
Proof.
  induction names as [|n names IH]; intros files Hlen.
  - simpl. rewrite app_nil_r, Nat.add_0_r.
    destruct (length files <=? MAX_FILES)%nat eqn:E; [reflexivity|].
    apply Nat.leb_gt in E. lia.
  - cbn [fmap list_fmap parse_filenames].
    destruct (MAX_FILES <=? length files)%nat eqn:E.
    + apply Nat.leb_le in E. cbn [bind].
      destruct (length files + length (n :: names) <=? MAX_FILES)%nat eqn:E2;
        [|reflexivity].
      apply Nat.leb_le in E2. simpl in E2. lia.
    + apply Nat.leb_gt in E. cbn [bind].
      change (list_fmap string arg Afile names) with (Afile <$> names).
      rewrite IH by (rewrite length_app; simpl; lia).
      rewrite length_app. simpl length.
      replace (length files + 1 + length names)%nat
        with (length files + S (length names))%nat by lia.
      destruct (length files + S (length names) <=? MAX_FILES)%nat; [|reflexivity].
      by rewrite <- app_assoc.
Qed.

Section MainProofs.
Variable default_device : bool -> option (string * string).
Variable sox_open_read : string -> sox_signalinfo_t -> option string -> option sox_format.
Variable comment_replay_gain : string -> option double.
Variable pow : double -> double -> double.


(** C10.  Where the command line names fewer than two input files for a
    mix or a merge, or fewer than one for a sequence or a concatenation,
    [main] leaves through [usage] with "Not enough input filenames
    specified" and exit code 1, and no file has been opened. *)
Theorem not_enough_inputs (args : list arg) (g0 g : globals) (files : list file_info) :
  parse_options_and_filenames default_device args g0 = Ret (g, files) ->
  (length files - 1 < required_inputs (combine_method g))%nat ->
  main_open default_device sox_open_read comment_replay_gain true args g0
  = ([], Exit 1 not_enough_message).
Proof.
  intros Hp Hlt. unfold main_open. rewrite Hp. cbn [negb]. unfold check_files.
  assert (E : (if (length files =? 0)%nat then 0%nat else (length files - 1)%nat)
              = (length files - 1)%nat).
  { destruct (length files =? 0)%nat eqn:E0; [apply Nat.eqb_eq in E0; lia|reflexivity]. }
  rewrite E.
  assert (E1 : ((length files - 1 <?
                 (if (combine_rank (combine_method g) <=? combine_rank sox_concatenate)%Z
                  then 1%nat else 2%nat))%nat) = true).
  { apply Nat.ltb_lt. destruct (combine_method g); simpl in *; lia. }
  rewrite E1. reflexivity.
Qed.




End MainProofs.

(** ** Clip accounting *)

Section ClipProofs.
Context {P F : Type} `{Platform} `{Libsox P F}.

(** What [total_clips] adds for an effect that runs as twins: the counter of
    the left instance, twice. *)
Lemma effect_clips_twin (t : effects_table P) (i : nat) (c : Z) (n : string) :
  name (efftabR t !!! i) = Some n ->
  effect_clips t i c
  = sz (sz (c + clips (efftab t !!! i)) + clips (efftab t !!! i)).
Proof. intros E. unfold effect_clips. by rewrite E. Qed.

(** What [stop_effects] reports for an effect that runs as twins: twice the
    counter the left instance has after its [stop]; the counter of the right
    instance is not read. *)
Lemma stop_effect_twin (t : effects_table P) (e : nat) (n : string) :
  (e < length (efftab t))%nat ->
  name (efftabR t !!! e) = Some n ->
  let stop := default sox_effect_nothing (h_stop (h (efftab t !!! e))) in
  let c := cr_clips (stop (priv (efftab t !!! e)) (clips (efftab t !!! e))) in
  snd (stop_effect e t)
  = if sz (c + c) =? 0 then None else Some (name (efftab t !!! e), sz (c + c)).
Proof.
  intros He En. cbn zeta. unfold stop_effect.
  cbn [efftab efftabR neffects]. rewrite En.
  rewrite !list_lookup_total_insert_eq by lia. cbn [snd clips set_effp name].
  cbn [efftab]. rewrite list_lookup_total_insert_eq by lia. reflexivity.
Qed.
End ClipProofs.

(** ** Properties of more of the driver *)

(** *** The merge and the mix *)

Lemma flat_map_singleton {A B : Type} (g : A -> B) (l : list A) :
  flat_map (fun x => [g x]) l = g <$> l.
Proof. induction l as [|a l IH]; simpl; [reflexivity|]. by rewrite IH. Qed.

Lemma stores_for_up (n : nat) (f : nat -> combiner_state -> combiner_state)
    (w : nat -> list Z) :
  (forall k, (k < n)%nat -> stores (f k) (w k)) ->
  stores (for_up 0 n f) (flat_map w (seq 0 n)).
Proof.
  intros Hf. induction n as [|n IH]; intros st.
  - rewrite for_up_0. simpl. destruct st. simpl. f_equal. lia.
  - rewrite for_up_S, Nat.add_0_l. rewrite IH by (intros k Hk; apply Hf; lia).
    rewrite (Hf n) by lia. cbn [cs_obuf cs_p cs_mixing_clips].
    rewrite seq_S, flat_map_app. simpl. rewrite app_nil_r.
    rewrite list_inserts_app_l, length_app. f_equal; [|lia].
    f_equal. lia.
Qed.

Section MergeProofs.
Context `{Platform}.
Variable files : list file_info.
Variable input_count : nat.
Variable ilen : list Z.
Variable ibuf : list (list Z).
Hypothesis Hfit : forall i, (i < input_count)%nat ->
  ilen !!! i * desc_channels (files !!! i) <= SOX_SIZE_MAX + 1.

Lemma merge_sample_stores (ws i s : nat) :
  (i < input_count)%nat -> (s < Z.to_nat (desc_channels (files !!! i)))%nat ->
  stores (merge_sample files ilen ibuf (Z.of_nat ws) i s)
    [merged_sample files ilen ibuf ws i s].
Proof.
  intros Hi Hs st. unfold merge_sample, merged_sample. simpl.
  rewrite Nat.add_1_r. f_equal. f_equal.
  destruct (Z.of_nat ws <? ilen !!! i) eqn:E; [|lia].
  apply Z.ltb_lt in E. rewrite Z.mul_1_l.
  rewrite (ibuf_at_plain files input_count ilen ibuf Hfit) by lia.
  f_equal. nia.
Qed.

Lemma merge_wide_stores (ws : nat) (combiner_channels : Z) :
  stores (combine_wide files input_count ilen ibuf sox_merge combiner_channels ws)
    (merged_wide files input_count ilen ibuf ws).
Proof.
  unfold combine_wide. change (combine_method_eqb sox_merge sox_mix) with false.
  cbv iota. apply stores_for_up. intros i Hi. unfold merge_input.
  intros st.
  rewrite (stores_for_up _ _ (fun s => [merged_sample files ilen ibuf ws i s])).
  - by rewrite flat_map_singleton.
  - intros s Hs. by apply merge_sample_stores.
Qed.
End MergeProofs.

(** X1.  In a merge, the block is, wide sample after wide sample, the wide
    samples of the inputs one after the other, with zeros for an input that
    has no such wide sample in the block read; the samples after the block
    and the counter [mixing_clips] are left as they are. *)
Theorem merge_block_layout `{Platform} (files : list file_info) (input_count : nat)
    (ilen : list Z) (ibuf : list (list Z)) (combiner_channels olen : Z)
    (obuf : list Z) (mixing_clips : Z) :
  (forall i, (i < input_count)%nat ->
     ilen !!! i * desc_channels (files !!! i) <= SOX_SIZE_MAX + 1) ->
  let block := merged_block files input_count ilen ibuf (Z.to_nat olen) in
  (length block <= length obuf)%nat ->
  let st := combine_block files input_count ilen ibuf sox_merge combiner_channels olen
              obuf mixing_clips in
  cs_obuf st = block ++ drop (length block) obuf
  /\ cs_p st = length block
  /\ cs_mixing_clips st = mixing_clips.
Proof.
  intros Hfit block Hroom. cbn zeta. unfold combine_block.
  rewrite (stores_for_up _ _ (merged_wide files input_count ilen ibuf)).
  2:{ intros ws _. by apply merge_wide_stores. }
  cbn [cs_obuf cs_p cs_mixing_clips]. fold (merged_block files input_count ilen ibuf (Z.to_nat olen)).
  fold block. split; [|split; [lia|reflexivity]].
  rewrite <- (take_drop (length block) obuf) at 1.
  apply list_inserts_0_r. rewrite length_take. lia.
Qed.

Section MixFrame.
Context `{Platform}.
Variable files : list file_info.
Variable input_count : nat.
Variable ilen : list Z.
Variable ibuf : list (list Z).

(** The mix stores through [p] only, and [p] moves over one sample for each
    channel. *)
Lemma mix_input_frame (ws s : Z) (i : nat) (st : combiner_state) :
  cs_p (mix_input files ilen ibuf ws s i st) = cs_p st
  /\ length (cs_obuf (mix_input files ilen ibuf ws s i st)) = length (cs_obuf st)
  /\ forall k, k <> cs_p st ->
       cs_obuf (mix_input files ilen ibuf ws s i st) !! k = cs_obuf st !! k.
Proof.
  unfold mix_input. destruct (_ && _); [|done].
  destruct (SOX_ROUND_CLIP_COUNT _ _) as [v c]. cbn [cs_obuf cs_p].
  split; [reflexivity|]. split; [by rewrite length_insert|].
  intros k Hk. by rewrite list_lookup_insert_ne.
Qed.

Lemma mix_sample_frame (ws : Z) (s : nat) (st : combiner_state) :
  let st' := mix_sample files input_count ilen ibuf ws s st in
  cs_p st' = S (cs_p st)
  /\ length (cs_obuf st') = length (cs_obuf st)
  /\ forall k, k <> cs_p st -> cs_obuf st' !! k = cs_obuf st !! k.
Proof.
  cbn zeta. unfold mix_sample. cbn [cs_obuf cs_p cs_mixing_clips].
  set (st0 := {| cs_obuf := <[cs_p st:=0]> (cs_obuf st); cs_p := cs_p st;
                 cs_mixing_clips := cs_mixing_clips st |}).
  assert (Hin : let st1 := for_up 0 input_count (mix_input files ilen ibuf ws (Z.of_nat s)) st0 in
                cs_p st1 = cs_p st
                /\ length (cs_obuf st1) = length (cs_obuf st)
                /\ forall k, k <> cs_p st -> cs_obuf st1 !! k = cs_obuf st !! k).
  { apply (for_up_ind (fun _ st1 =>
             cs_p st1 = cs_p st
             /\ length (cs_obuf st1) = length (cs_obuf st)
             /\ forall k, k <> cs_p st -> cs_obuf st1 !! k = cs_obuf st !! k)).
    - unfold st0. cbn [cs_obuf cs_p]. split; [reflexivity|].
      split; [by rewrite length_insert|]. intros k Hk. by rewrite list_lookup_insert_ne.
    - intros i st1 _ (Hp & Hl & Hk).
      destruct (mix_input_frame ws (Z.of_nat s) (0 + i) st1) as (Hp' & Hl' & Hk').
      split; [congruence|]. split; [congruence|].
      intros k Hne. rewrite Hk' by congruence. by apply Hk. }
  destruct Hin as (Hp & Hl & Hk). by rewrite Hp.
Qed.

Lemma mix_block_frame (channels olen : nat) (st : combiner_state) :
  let st' := for_up 0 olen
               (fun ws st => for_up 0 channels
                               (mix_sample files input_count ilen ibuf (Z.of_nat ws)) st) st in
  cs_p st' = (cs_p st + olen * channels)%nat
  /\ length (cs_obuf st') = length (cs_obuf st)
  /\ forall k, (k < cs_p st \/ cs_p st + olen * channels <= k)%nat ->
       cs_obuf st' !! k = cs_obuf st !! k.
Proof.
  cbn zeta.
  apply (for_up_ind (fun ws st' =>
           cs_p st' = (cs_p st + ws * channels)%nat
           /\ length (cs_obuf st') = length (cs_obuf st)
           /\ forall k, (k < cs_p st \/ cs_p st + ws * channels <= k)%nat ->
                cs_obuf st' !! k = cs_obuf st !! k)).
  - split; [lia|]. done.
  - intros ws st1 _ (Hp & Hl & Hk). rewrite Nat.add_0_l.
    assert (Hrow : let st2 := for_up 0 channels
                       (mix_sample files input_count ilen ibuf (Z.of_nat ws)) st1 in
                   cs_p st2 = (cs_p st1 + channels)%nat
                   /\ length (cs_obuf st2) = length (cs_obuf st1)
                   /\ forall k, (k < cs_p st1 \/ cs_p st1 + channels <= k)%nat ->
                        cs_obuf st2 !! k = cs_obuf st1 !! k).
    { apply (for_up_ind (fun j st2 =>
               cs_p st2 = (cs_p st1 + j)%nat
               /\ length (cs_obuf st2) = length (cs_obuf st1)
               /\ forall k, (k < cs_p st1 \/ cs_p st1 + j <= k)%nat ->
                    cs_obuf st2 !! k = cs_obuf st1 !! k)).
      - split; [lia|]. done.
      - intros j st2 _ (Hp2 & Hl2 & Hk2).
        destruct (mix_sample_frame (Z.of_nat ws) (0 + j) st2) as (Hp' & Hl' & Hk').
        split; [lia|]. split; [congruence|].
        intros k Hne. rewrite Hk' by lia. apply Hk2. lia. }
    destruct Hrow as (Hp2 & Hl2 & Hk2).
    split; [lia|]. split; [congruence|].
    intros k Hne. rewrite Hk2 by lia. apply Hk. lia.
Qed.
End MixFrame.

Lemma saturating_sum_range (xs : list Z) :
  SOX_SAMPLE_MIN <= saturating_sum xs <= SOX_SAMPLE_MAX.
Proof.
  unfold saturating_sum.
  assert (Hg : forall acc, SOX_SAMPLE_MIN <= acc <= SOX_SAMPLE_MAX ->
            SOX_SAMPLE_MIN <= foldl (fun a x => clip_sample (a + x)) acc xs <= SOX_SAMPLE_MAX).
  { induction xs as [|x xs IH]; intros acc Hacc; simpl; [exact Hacc|].
    apply IH. apply clip_sample_range. }
  apply Hg. unfold SOX_SAMPLE_MIN, SOX_SAMPLE_MAX. lia.
Qed.

(** X2.  The mix stores the samples of the block and no other sample, and every
    sample it stores is in the sample range, whatever the inputs hold. *)
Theorem mix_block_in_range `{Platform} (files : list file_info) (input_count : nat)
    (ilen : list Z) (ibuf : list (list Z)) (combiner_channels olen : Z)
    (obuf : list Z) (mixing_clips : Z) :
  (forall i, (i < input_count)%nat ->
     ilen !!! i * desc_channels (files !!! i) <= SOX_SIZE_MAX + 1) ->
  0 <= mixing_clips <= SOX_SIZE_MAX ->
  0 <= olen -> 0 <= combiner_channels ->
  olen * combiner_channels <= Z.of_nat (length obuf) ->
  let st := combine_block files input_count ilen ibuf sox_mix combiner_channels olen
              obuf mixing_clips in
  length (cs_obuf st) = length obuf
  /\ (forall k, (k < Z.to_nat (olen * combiner_channels))%nat ->
        exists v, cs_obuf st !! k = Some v /\ SOX_SAMPLE_MIN <= v <= SOX_SAMPLE_MAX)
  /\ (forall k, (Z.to_nat (olen * combiner_channels) <= k)%nat ->
        cs_obuf st !! k = obuf !! k).
Proof.
  intros Hfit Hclips Holen Hch Hroom. cbn zeta.
  destruct (mix_block_spec files input_count ilen ibuf Hfit
              (Z.to_nat combiner_channels) obuf mixing_clips (Z.to_nat olen) Hclips)
    as (Hp & Hl & Hv & Hc); [nia|].
  destruct (mix_block_frame files input_count ilen ibuf (Z.to_nat combiner_channels)
              (Z.to_nat olen)
              {| cs_obuf := obuf; cs_p := 0; cs_mixing_clips := mixing_clips |})
    as (_ & _ & Hk).
  cbn [cs_obuf cs_p] in Hk.
  split; [exact Hl|]. split.
  - intros k Hlt.
    assert (Hpos : (0 < Z.to_nat combiner_channels)%nat) by nia.
    pose proof (Nat.div_mod_eq k (Z.to_nat combiner_channels)) as Hdm.
    pose proof (Nat.mod_upper_bound k (Z.to_nat combiner_channels) ltac:(lia)) as Hmod.
    set (w := (k / Z.to_nat combiner_channels)%nat) in *.
    set (s := (k mod Z.to_nat combiner_channels)%nat) in *.
    exists (saturating_sum (contributions files input_count ilen ibuf (Z.of_nat w) (Z.of_nat s))).
    split; [|apply saturating_sum_range].
    replace k with (w * Z.to_nat combiner_channels + s)%nat by lia.
    apply Hv; [exact Hmod|]. nia.
  - intros k Hge. apply Hk. right. nia.
Qed.

Lemma small_no_saturation (N : nat) (xs : list Z) :
  forall acc,
    Forall (small_sample N) xs ->
    (length xs <= N)%nat ->
    Z.abs acc * Z.of_nat N <= (Z.of_nat N - Z.of_nat (length xs)) * SOX_SAMPLE_MAX ->
    saturations_from acc xs = 0.
Proof.
  induction xs as [|x xs IH]; intros acc Hsm Hlen Hacc; [reflexivity|].
  inversion Hsm as [|? ? Hx Hxs]; subst. simpl in Hlen. cbn [saturations_from].
  unfold small_sample in Hx.
  assert (Hsum : Z.abs (acc + x) * Z.of_nat N
                 <= (Z.of_nat N - Z.of_nat (length xs)) * SOX_SAMPLE_MAX).
  { cbn [length] in Hacc. rewrite Nat2Z.inj_succ in Hacc.
    pose proof (Z.abs_triangle acc x) as Ht.
    pose proof (Z.mul_le_mono_nonneg_r _ _ (Z.of_nat N) (Nat2Z.is_nonneg N) Ht) as Hm.
    lia. }
  assert (Hin : SOX_SAMPLE_MIN <= acc + x <= SOX_SAMPLE_MAX).
  { assert (HN : 1 <= Z.of_nat N) by lia.
    assert (Hb : Z.abs (acc + x) * Z.of_nat N <= Z.of_nat N * SOX_SAMPLE_MAX).
    { unfold SOX_SAMPLE_MAX in *. lia. }
    assert (Z.abs (acc + x) <= SOX_SAMPLE_MAX) by nia.
    unfold SOX_SAMPLE_MIN, SOX_SAMPLE_MAX in *. lia. }
  rewrite clip_sample_id by exact Hin.
  rewrite (IH (acc + x) Hxs) by (lia || exact Hsum).
  unfold saturates. destruct (acc + x <? SOX_SAMPLE_MIN) eqn:E1; [lia|].
  destruct (SOX_SAMPLE_MAX <? acc + x) eqn:E2; [lia|]. reflexivity.
Qed.

Lemma omap_length_le {A B : Type} (f : A -> option B) (l : list A) :
  (length (omap f l) <= length l)%nat.
Proof.
  induction l as [|a l IH]; [done|].
  destruct (f a) as [b|] eqn:E.
  - rewrite (omap_cons_Some _ _ _ b E). simpl. lia.
  - rewrite (omap_cons_None _ _ _ E). simpl. lia.
Qed.

Lemma omap_Forall {A B : Type} (Q : B -> Prop) (f : A -> option B) (l : list A) :
  (forall a b, a ∈ l -> f a = Some b -> Q b) -> Forall Q (omap f l).
Proof.
  induction l as [|a l IH]; intros Hf; [constructor|].
  destruct (f a) as [b|] eqn:E.
  - rewrite (omap_cons_Some _ _ _ b E). constructor.
    + apply (Hf a b); [left|exact E].
    + apply IH. intros a' b' Ha'. apply Hf. by right.
  - rewrite (omap_cons_None _ _ _ E). apply IH. intros a' b' Ha'. apply Hf. by right.
Qed.

Lemma contributions_small (files : list file_info) (input_count : nat)
    (ilen : list Z) (ibuf : list (list Z)) (ws s : Z) :
  (forall i, (i < input_count)%nat ->
     ilen !!! i * desc_channels (files !!! i) <= Z.of_nat (length (ibuf !!! i))) ->
  (forall i, (i < input_count)%nat -> Forall (small_sample input_count) (ibuf !!! i)) ->
  0 <= ws -> 0 <= s ->
  saturations (contributions files input_count ilen ibuf ws s) = 0
  /\ saturating_sum (contributions files input_count ilen ibuf ws s)
     = sum_list_Z (contributions files input_count ilen ibuf ws s).
Proof.
  intros Hheld Hsmall Hws Hs0.
  assert (Hs : saturations (contributions files input_count ilen ibuf ws s) = 0).
  { unfold saturations. apply (small_no_saturation input_count).
    - unfold contributions. apply omap_Forall. intros i x Hi Hx.
      apply elem_of_seq in Hi.
      destruct ((ws <? ilen !!! i) && (s <? desc_channels (files !!! i))) eqn:E;
        [|discriminate].
      injection Hx as <-. apply andb_prop in E as [E1 E2]. apply Z.ltb_lt in E1, E2.
      assert (Hi' : (i < input_count)%nat) by lia.
      specialize (Hheld i Hi'). specialize (Hsmall i Hi').
      rewrite Forall_lookup in Hsmall.
      apply (Hsmall (Z.to_nat (ws * desc_channels (files !!! i) + s))).
      apply list_lookup_lookup_total_lt. nia.
    - unfold contributions. etransitivity; [apply omap_length_le|]. by rewrite length_seq.
    - pose proof (omap_length_le
        (fun i => if (ws <? ilen !!! i) && (s <? desc_channels (files !!! i))
                  then Some ((ibuf !!! i) !!! Z.to_nat (ws * desc_channels (files !!! i) + s))
                  else None) (seq 0 input_count)) as Hle.
      rewrite length_seq in Hle. unfold contributions, SOX_SAMPLE_MAX. simpl Z.abs. lia. }
  split; [exact Hs|].
  unfold saturating_sum. rewrite saturating_fold_exact by exact Hs.
  unfold sum_list_Z. lia.
Qed.

(** X3.  Where every sample of the [N] inputs of a mix is at most a [N]th of the
    largest sample in size (what balancing by 1/N gives), no addition
    saturates: every sample of the block is the sum of the input samples and
    [mixing_clips] is left as it is. *)
Theorem mix_small_inputs_exact `{Platform} (files : list file_info) (input_count : nat)
    (ilen : list Z) (ibuf : list (list Z)) (combiner_channels olen : Z)
    (obuf : list Z) (mixing_clips : Z) :
  (forall i, (i < input_count)%nat ->
     ilen !!! i * desc_channels (files !!! i) <= SOX_SIZE_MAX + 1) ->
  (forall i, (i < input_count)%nat ->
     ilen !!! i * desc_channels (files !!! i) <= Z.of_nat (length (ibuf !!! i))) ->
  (forall i, (i < input_count)%nat -> Forall (small_sample input_count) (ibuf !!! i)) ->
  0 <= mixing_clips <= SOX_SIZE_MAX ->
  0 <= olen -> 0 <= combiner_channels ->
  olen * combiner_channels <= Z.of_nat (length obuf) ->
  let st := combine_block files input_count ilen ibuf sox_mix combiner_channels olen
              obuf mixing_clips in
  (forall ws s, 0 <= ws < olen -> 0 <= s < combiner_channels ->
     cs_obuf st !! Z.to_nat (ws * combiner_channels + s)
     = Some (sum_list_Z (contributions files input_count ilen ibuf ws s)))
  /\ cs_mixing_clips st = mixing_clips.
Proof.
  intros Hfit Hheld Hsmall Hclips Holen Hch Hroom. cbn zeta.
  destruct (mix_block_spec files input_count ilen ibuf Hfit
              (Z.to_nat combiner_channels) obuf mixing_clips (Z.to_nat olen) Hclips)
    as (Hp & Hl & Hv & Hc); [nia|].
  split.
  - intros ws s Hws Hs.
    replace (Z.to_nat (ws * combiner_channels + s))
      with (Z.to_nat ws * Z.to_nat combiner_channels + Z.to_nat s)%nat by nia.
    rewrite <- (proj2 (contributions_small files input_count ilen ibuf ws s Hheld Hsmall
                         ltac:(lia) ltac:(lia))).
    replace ws with (Z.of_nat (Z.to_nat ws)) at 2 by lia.
    replace s with (Z.of_nat (Z.to_nat s)) at 2 by lia.
    apply Hv; [lia|]. nia.
  - unfold combine_block. unfold combine_wide.
    change (combine_method_eqb sox_mix sox_mix) with true. cbv iota.
    rewrite Hc. unfold row_saturations at 1. rewrite for_up_0.
    assert (Hz : block_saturations (contributions files input_count ilen ibuf)
                   (Z.to_nat combiner_channels) (Z.to_nat olen) = 0).
    { unfold block_saturations.
      apply (for_up_ind (fun _ a => a = 0)); [reflexivity|].
      intros ws a _ ->. unfold row_saturations.
      apply (for_up_ind (fun _ a => a = 0)); [reflexivity|].
      intros j a _ ->.
      rewrite (proj1 (contributions_small files input_count ilen ibuf _ _ Hheld Hsmall
                        (Nat2Z.is_nonneg _) (Nat2Z.is_nonneg _))).
      reflexivity. }
    rewrite Hz, Z.add_0_r. by apply sz_small.
Qed.

(** *** The checks of [process] on the inputs *)

Section CheckInputs.
Context `{Platform}.
Variable m : combine_method_t.
Variable files : list file_info.

(** The smallest and the largest of a value over the inputs scanned. *)
Lemma scan_min_max (get : file_info -> Z) (lo hi : input_scan -> Z) (n : nat) :
  (forall i a, lo (scan_input m files i a) = Z.min (lo a) (get (files !!! i))) ->
  (forall i a, hi (scan_input m files i a) = Z.max (hi a) (get (files !!! i))) ->
  lo (scan_start m) = SOX_SIZE_MAX -> hi (scan_start m) = 0 ->
  (forall i, (i < n)%nat -> 0 <= get (files !!! i) <= SOX_SIZE_MAX) ->
  (0 < n)%nat ->
  let a := for_up 0 n (scan_input m files) (scan_start m) in
  (forall i, (i < n)%nat -> lo a <= get (files !!! i) <= hi a)
  /\ (exists i, (i < n)%nat /\ get (files !!! i) = lo a)
  /\ (exists j, (j < n)%nat /\ get (files !!! j) = hi a).
Proof.
  intros Hlo Hhi Hlo0 Hhi0 Hrange Hn. cbn zeta.
  assert (Hinv : forall k, (k <= n)%nat ->
            let a := for_up 0 k (scan_input m files) (scan_start m) in
            (forall i, (i < k)%nat -> lo a <= get (files !!! i) <= hi a)
            /\ (k = 0%nat /\ lo a = SOX_SIZE_MAX /\ hi a = 0
                \/ (exists i, (i < k)%nat /\ get (files !!! i) = lo a)
                   /\ (exists j, (j < k)%nat /\ get (files !!! j) = hi a))).
  { induction k as [|k IH]; intros Hk; cbn zeta.
    - rewrite for_up_0. split; [intros i Hi; lia|]. left. auto.
    - rewrite for_up_S, Nat.add_0_l. specialize (IH ltac:(lia)). cbn zeta in IH.
      set (a := for_up 0 k (scan_input m files) (scan_start m)) in *.
      destruct IH as [Hb Hw]. rewrite Hlo, Hhi.
      pose proof (Hrange k ltac:(lia)) as Hrk.
      split.
      + intros i Hi. destruct (decide (i = k)) as [->|Hne]; [lia|].
        specialize (Hb i ltac:(lia)). lia.
      + right. destruct Hw as [(-> & Hl0 & Hh0)|[(i & Hi & Hil) (j & Hj & Hjh)]].
        * rewrite Hl0, Hh0. split; exists 0%nat; (split; [lia|lia]).
        * split.
          -- destruct (Z.le_ge_cases (lo a) (get (files !!! k))).
             ++ exists i. split; [lia|lia].
             ++ exists k. split; [lia|lia].
          -- destruct (Z.le_ge_cases (hi a) (get (files !!! k))).
             ++ exists k. split; [lia|lia].
             ++ exists j. split; [lia|lia]. }
  destruct (Hinv n (Nat.le_refl n)) as [Hb Hw]. split; [exact Hb|].
  destruct Hw as [(-> & _)|Hw]; [lia|exact Hw].
Qed.

Lemma agree_iff_min_max (get : file_info -> Z) (n : nat) (lo hi : Z) :
  (forall i, (i < n)%nat -> lo <= get (files !!! i) <= hi) ->
  (exists i, (i < n)%nat /\ get (files !!! i) = lo) ->
  (exists j, (j < n)%nat /\ get (files !!! j) = hi) ->
  (lo = hi <-> inputs_agree get files n).
Proof.
  intros Hb (i & Hi & Hil) (j & Hj & Hjh). split.
  - intros E a b Ha Hb'. pose proof (Hb a Ha). pose proof (Hb b Hb'). lia.
  - intros Hag. rewrite <- Hil, <- Hjh. by apply Hag.
Qed.

(** X4.  The checks of [process] on the inputs of a concatenation, a mix or a
    merge: [process] goes on only with inputs of one sample rate and, for a
    concatenation, of one number of channels, with a combiner of as many
    channels as the inputs have together (merge) or as the input with the
    most has (mix, concatenate); with any other inputs it ends in
    [exit(1)]. *)
Theorem check_inputs_agree (input_count current_input : nat) :
  m <> sox_sequence -> (0 < input_count)%nat ->
  (forall i, (i < input_count)%nat ->
     0 <= desc_rate (files !!! i) <= SOX_SIZE_MAX
     /\ 0 <= desc_channels (files !!! i) <= SOX_SIZE_MAX) ->
  match check_inputs m files input_count current_input with
  | Ret (combiner, _, _) =>
      inputs_agree desc_rate files input_count
      /\ (m = sox_concatenate -> inputs_agree desc_channels files input_count)
      /\ si_rate combiner = desc_rate (files !!! current_input)
      /\ si_channels combiner
         = if combine_method_eqb m sox_merge
           then sz (sum_list_Z (desc_channels <$> first_files files input_count))
           else max_list_Z (desc_channels <$> first_files files input_count)
  | Exit code _ =>
      code = 1
      /\ (~ inputs_agree desc_rate files input_count
          \/ m = sox_concatenate /\ ~ inputs_agree desc_channels files input_count)
  end.
Proof.
  intros Hm Hn Hrange. unfold check_inputs.
  assert (Hseq : combine_method_eqb m sox_sequence = false) by (by destruct m).
  rewrite Hseq.
  destruct (scan_min_max desc_rate min_rate max_rate input_count) as (Rb & Rlo & Rhi);
    try reflexivity; [intros i Hi; apply Hrange, Hi|exact Hn|].
  destruct (scan_min_max desc_channels min_channels max_channels input_count)
    as (Cb & Clo & Chi); try reflexivity; [intros i Hi; apply Hrange, Hi|exact Hn|].
  pose proof (agree_iff_min_max desc_rate input_count _ _ Rb Rlo Rhi) as HR.
  pose proof (agree_iff_min_max desc_channels input_count _ _ Cb Clo Chi) as HC.
  assert (Htot : let a := for_up 0 input_count (scan_input m files) (scan_start m) in
                 total_channels a
                 = sz (sum_list_Z (desc_channels <$> first_files files input_count))
                 /\ max_channels a
                    = max_list_Z (desc_channels <$> first_files files input_count)).
  { cbn zeta. clear -Hn. 
    apply (for_up_ind (fun k a =>
      total_channels a = sz (sum_list_Z (desc_channels <$> first_files files k))
      /\ max_channels a = max_list_Z (desc_channels <$> first_files files k))).
    - simpl. split; reflexivity.
    - intros k a _ [Ht Hx]. rewrite Nat.add_0_l, first_files_S, fmap_app.
      change (desc_channels <$> [files !!! k]) with [desc_channels (files !!! k)].
      rewrite sum_list_Z_snoc, max_list_Z_snoc. unfold scan_input.
      cbn [total_channels max_channels]. rewrite Ht, Hx, sz_add_l. split; reflexivity. }
  cbn zeta in Htot. destruct Htot as [Htot Hmax].
  set (a := for_up 0 input_count (scan_input m files) (scan_start m)) in *.
  destruct (negb (min_channels a =? max_channels a)
            && combine_method_eqb m sox_concatenate) eqn:E1.
  { apply andb_prop in E1 as [E1 E2]. split; [reflexivity|]. right.
    assert (m = sox_concatenate) by (by destruct m). split; [assumption|].
    intros Hag. apply HC in Hag. apply negb_true_iff, Z.eqb_neq in E1. contradiction. }
  destruct (negb (min_rate a =? max_rate a)) eqn:E2.
  { split; [reflexivity|]. left. intros Hag. apply HR in Hag.
    apply negb_true_iff, Z.eqb_neq in E2. contradiction. }
  apply negb_false_iff, Z.eqb_eq in E2.
  split; [by apply HR|]. split.
  - intros ->. apply HC. apply andb_false_iff in E1 as [E1|E1]; [|discriminate].
    by apply negb_false_iff, Z.eqb_eq in E1.
  - cbn [si_rate si_channels with_channels]. split; [reflexivity|].
    rewrite Htot, Hmax. reflexivity.
Qed.
End CheckInputs.

(** *** [parse_effects] *)

Section ParseEffectsProofs.
Context {P F : Type} `{Libsox P F}.
Variable sox_geteffect_opt : list string -> option (sox_effect P * nat).

Lemma parse_effects_from_bound (args : list string) :
  forall skip tab n tab' n',
    (n <= MAX_USER_EFF)%nat ->
    parse_effects_from sox_geteffect_opt args skip tab n = Ret (tab', n') ->
    (n <= n' <= MAX_USER_EFF)%nat /\ (n' <= n + length args)%nat
    /\ length tab' = length tab
    /\ forall k, (n' <= k)%nat -> tab' !! k = tab !! k.
Proof.
  induction args as [|a rest IH]; intros skip tab n tab' n' Hn; cbn [parse_effects_from].
  - intros [= <- <-]. simpl. split; [lia|]. split; [lia|]. auto.
  - destruct skip as [|skip].
    + destruct (MAX_USER_EFF <=? n)%nat eqn:E; [discriminate|]. apply Nat.leb_gt in E.
      destruct (sox_geteffect_opt (a :: rest)) as [[e argc_effect]|]; [|discriminate].
      destruct (cr_status _ =? SOX_EOF); [discriminate|].
      intros Hrec. apply IH in Hrec; [|lia].
      destruct Hrec as (H1 & H2 & H3 & H4). rewrite length_insert in H3.
      split; [lia|]. split; [simpl; lia|]. split; [exact H3|].
      intros k Hk. rewrite H4 by lia. apply list_lookup_insert_ne. lia.
    + intros Hrec. apply IH in Hrec; [|lia].
      destruct Hrec as (H1 & H2 & H3 & H4). split; [lia|]. split; [simpl; lia|]. auto.
Qed.

Lemma parse_effects_from_exit (args : list string) :
  forall skip tab n code msg,
    parse_effects_from sox_geteffect_opt args skip tab n = Exit code msg ->
    code = 1 \/ code = 2.
Proof.
  induction args as [|a rest IH]; intros skip tab n code msg; cbn [parse_effects_from];
    [discriminate|].
  destruct skip as [|skip]; [|apply IH].
  destruct (MAX_USER_EFF <=? n)%nat; [intros [= <- _]; by left|].
  destruct (sox_geteffect_opt (a :: rest)) as [[e argc_effect]|];
    [|intros [= <- _]; by left].
  destruct (cr_status _ =? SOX_EOF); [intros [= <- _]; by right|]. apply IH.
Qed.

(** X6.  Where [parse_effects] returns, it has read at most MAX_USER_EFF
    effects, written them into the first entries of [user_efftab] and
    written nothing behind them; where it does not return, the exit code
    is 1 or 2. *)
Theorem parse_effects_bound (args : list string) (user_efftab : list (sox_effect P)) :
  match parse_effects sox_geteffect_opt args user_efftab with
  | Ret (tab', n) =>
      (n <= MAX_USER_EFF)%nat /\ (n <= length args)%nat
      /\ length tab' = length user_efftab
      /\ forall k, (n <= k)%nat -> tab' !! k = user_efftab !! k
  | Exit code _ => code = 1 \/ code = 2
  end.
Proof.
  unfold parse_effects.
  destruct (parse_effects_from _ args 0 user_efftab 0) as [[tab' n]|code msg] eqn:Hp.
  - apply parse_effects_from_bound in Hp; [|lia].
    destruct Hp as (H1 & H2 & H3 & H4). split; [lia|]. split; [lia|]. auto.
  - by apply parse_effects_from_exit in Hp.
Qed.
End ParseEffectsProofs.

(** *** [start_all_effects] *)

Section StartProofs.
Context {P F : Type} `{Libsox P F}.

Lemma shift_down_lookup (l : list (sox_effect P)) (i m : nat) :
  (i + m < length l)%nat ->
  let l' := for_up i m (fun j l => <[j := l !!! S j]> l) l in
  length l' = length l
  /\ (forall k, (i <= k < i + m)%nat -> l' !! k = l !! S k)
  /\ (forall k, (k < i \/ i + m <= k)%nat -> l' !! k = l !! k).
Proof.
  intros Hlen. cbn zeta.
  apply (for_up_ind (fun m' l' =>
    length l' = length l
    /\ (forall k, (i <= k < i + m')%nat -> l' !! k = l !! S k)
    /\ (forall k, (k < i \/ i + m' <= k)%nat -> l' !! k = l !! k))).
  - split; [reflexivity|]. split; [intros k Hk; lia|reflexivity].
  - intros m' l' Hm' (Hl & Hin & Hout).
    split; [by rewrite length_insert|]. split.
    + intros k Hk. destruct (decide (k = i + m')%nat) as [->|Hne].
      * rewrite list_lookup_insert_eq by lia.
        rewrite <- (Hout (S (i + m'))) by lia.
        symmetry. apply list_lookup_lookup_total_lt. lia.
      * rewrite list_lookup_insert_ne by lia. apply Hin. lia.
    + intros k Hk. rewrite list_lookup_insert_ne by lia. apply Hout. lia.
Qed.

Lemma chain_marks_remove (i : nat) (t : effects_table P) :
  (1 <= i < neffects t)%nat -> (neffects t <= length (efftab t))%nat ->
  chain_marks (remove_effect i t) = delete (i - 1)%nat (chain_marks t)
  /\ length (efftab (remove_effect i t)) = length (efftab t).
Proof.
  intros Hi Hlen. unfold chain_marks, chain, remove_effect. cbn [efftab neffects].
  destruct (shift_down_lookup (efftab t) i (neffects t - 1 - i) ltac:(lia))
    as (Hl & Hin & Hout).
  split; [|exact Hl].
  rewrite <- list_fmap_delete. f_equal.
  apply list_eq. intros k.
  destruct (decide (k < neffects t - 1 - 1)%nat) as [Hlt|Hge].
  - rewrite lookup_take_lt by lia. rewrite lookup_drop.
    destruct (decide (k < i - 1)%nat).
    + rewrite list_lookup_delete_lt by lia. rewrite lookup_take_lt by lia.
      rewrite lookup_drop. apply Hout. lia.
    + rewrite list_lookup_delete_ge by lia. rewrite lookup_take_lt by lia.
      rewrite lookup_drop. apply Hin. lia.
  - rewrite lookup_take_ge by lia. symmetry. apply lookup_ge_None_2.
    rewrite length_delete.
    + rewrite length_take, length_drop. lia.
    + apply lookup_lt_is_Some_2. rewrite length_take, length_drop. lia.
Qed.

Lemma chain_marks_insert (i : nat) (x : sox_effect P) (t : effects_table P) r n :
  (i < length (efftab t))%nat ->
  name x = name (efftab t !!! i) -> h x = h (efftab t !!! i) ->
  n = neffects t ->
  chain_marks {| efftab := <[i := x]> (efftab t); efftabR := r; neffects := n |}
  = chain_marks t.
Proof.
  intros Hi Hn Hh ->. unfold chain_marks, chain. cbn [efftab neffects].
  apply list_eq. intros k. rewrite !list_lookup_fmap.
  destruct (decide (k < neffects t - 1)%nat) as [Hlt|Hge].
  - rewrite !lookup_take_lt by lia. rewrite !lookup_drop.
    destruct (decide (1 + k = i)%nat) as [E|Hne].
    + rewrite E. rewrite list_lookup_insert_eq by lia.
      rewrite (list_lookup_lookup_total_lt (efftab t) i) by lia. simpl.
      unfold has_flag. by rewrite Hn, Hh.
    + by rewrite list_lookup_insert_ne by lia.
  - by rewrite !lookup_take_ge by lia.
Qed.

Lemma take_delete_eq {A : Type} (l : list A) (i : nat) :
  take i (delete i l) = take i l.
Proof.
  revert i. induction l as [|a l IH]; intros [|i]; simpl; try reflexivity.
  by rewrite IH.
Qed.

Lemma start_effects_from_spec (rounds : nat) :
  forall (i : nat) (ret : Z) (t : effects_table P) started status t' started',
    (1 <= i)%nat -> (i + rounds = neffects t)%nat ->
    (neffects t <= length (efftab t))%nat ->
    start_effects_from rounds i ret t started = (status, t', started') ->
    (status = SOX_SUCCESS \/ status = SOX_EOF)
    /\ (status = SOX_SUCCESS ->
        (i <= neffects t' <= neffects t)%nat
        /\ chain_marks t' `sublist_of` chain_marks t
        /\ take (i - 1) (chain_marks t') = take (i - 1) (chain_marks t)
        /\ forall k m, (i - 1 <= k)%nat -> chain_marks t' !! k = Some m -> m.2 = false).
Proof.
  induction rounds as [|rounds IH];
    intros i ret t started status t' started' Hi Hr Hlen; cbn [start_effects_from].
  - intros [= <- <- <-]. split; [by left|]. intros _.
    split; [lia|]. split; [reflexivity|]. split; [reflexivity|].
    intros k m Hk Hm. apply lookup_lt_Some in Hm.
    unfold chain_marks, chain in Hm. rewrite length_fmap, length_take in Hm. lia.
  - set (e := efftab t !!! i).
    set (null := has_flag e SOX_EFF_NULL).
    set (r := default sox_effect_nothing (h_start (h e)) (priv e) 0).
    set (ret' := if null then ret else cr_status r).
    set (e1 := if null then e else set_effp (cr_priv r) (cr_clips r) e).
    set (started1 := if null then started else started ++ [name e]).
    set (t1 := {| efftab := <[i := e1]> (efftab t); efftabR := efftabR t;
                  neffects := neffects t |}).
    assert (He1 : name e1 = name e /\ h e1 = h e) by (unfold e1; by destruct null).
    destruct He1 as [He1n He1h].
    assert (Hm1 : chain_marks t1 = chain_marks t).
    { unfold t1. apply chain_marks_insert; [lia|exact He1n|exact He1h|reflexivity]. }
    assert (Hl1 : length (efftab t1) = length (efftab t))
      by (unfold t1; cbn [efftab]; by rewrite length_insert).
    destruct (negb null && negb (ret' =? SOX_EFF_NULL) && negb (ret' =? SOX_SUCCESS)) eqn:EA.
    { intros [= <- <- <-]. split; [by right|]. discriminate. }
    destruct (null || (ret' =? SOX_EFF_NULL)) eqn:EB.
    + set (k := default sox_effect_nothing (h_kill (h e)) (priv e1) (clips e1)).
      set (t2 := {| efftab := <[i := set_effp (cr_priv k) (cr_clips k) e1]> (efftab t1);
                    efftabR := efftabR t1; neffects := neffects t1 |}).
      assert (Hm2 : chain_marks t2 = chain_marks t).
      { rewrite <- Hm1. unfold t2. apply chain_marks_insert; [lia| | |reflexivity].
        - cbn [name set_effp]. unfold t1. cbn [efftab].
          by rewrite list_lookup_total_insert_eq by lia.
        - cbn [h set_effp]. unfold t1. cbn [efftab].
          by rewrite list_lookup_total_insert_eq by lia. }
      assert (Hl2 : length (efftab t2) = length (efftab t))
        by (unfold t2; cbn [efftab]; by rewrite length_insert).
      destruct (chain_marks_remove i t2) as [Hmr Hlr].
      { unfold t2, t1. cbn [neffects]. lia. }
      { unfold t2 at 1. cbn [neffects]. unfold t1 at 1. cbn [neffects]. lia. }
      intros Hrec.
      destruct (IH i ret' (remove_effect i t2) started1 status t' started' Hi) as [Hst Hok].
      { unfold remove_effect, t2, t1. cbn [neffects]. lia. }
      { rewrite Hlr, Hl2. unfold remove_effect, t2, t1. cbn [neffects]. lia. }
      { exact Hrec. }
      split; [exact Hst|]. intros Hs. destruct (Hok Hs) as (Hn & Hsub & Htk & Hfl).
      assert (Hnr : neffects (remove_effect i t2) = (neffects t - 1)%nat) by reflexivity.
      split; [lia|]. rewrite Hmr, Hm2 in Hsub, Htk.
      split; [etransitivity; [exact Hsub|apply sublist_delete]|].
      split; [by rewrite Htk, take_delete_eq|exact Hfl].
    + apply orb_false_elim in EB as [En Er]. fold null in En.
      assert (Hnull : null = false) by exact En.
      assert (Hstep : forall t2 started2,
                chain_marks t2 = chain_marks t ->
                length (efftab t2) = length (efftab t) ->
                neffects t2 = neffects t ->
                start_effects_from rounds (S i) ret' t2 started2 = (status, t', started') ->
                (status = SOX_SUCCESS \/ status = SOX_EOF)
                /\ (status = SOX_SUCCESS ->
                    (i <= neffects t' <= neffects t)%nat
                    /\ chain_marks t' `sublist_of` chain_marks t
                    /\ take (i - 1) (chain_marks t') = take (i - 1) (chain_marks t)
                    /\ forall k m, (i - 1 <= k)%nat ->
                         chain_marks t' !! k = Some m -> m.2 = false)).
      { intros t2 started2 Hm2 Hl2 Hn2 Hrec.
        destruct (IH (S i) ret' t2 started2 status t' started' ltac:(lia) ltac:(lia)
                    ltac:(lia) Hrec) as [Hst Hok].
        split; [exact Hst|]. intros Hs. destruct (Hok Hs) as (Hn & Hsub & Htk & Hfl).
        rewrite Hm2 in Hsub, Htk. rewrite Hn2 in Hn.
        replace (S i - 1)%nat with (S (i - 1)) in Htk, Hfl by lia.
        split; [lia|]. split; [exact Hsub|].
        split.
        - apply (f_equal (take (i - 1))) in Htk. rewrite !take_take in Htk.
          by replace ((i - 1) `min` S (i - 1))%nat with (i - 1)%nat in Htk by lia.
        - intros k' m Hk' Hlk. destruct (decide (k' = i - 1)%nat) as [->|Hne].
          + assert (Hlk' : chain_marks t !! (i - 1)%nat = Some m).
            { rewrite <- (lookup_take_lt (chain_marks t) (S (i - 1)) (i - 1)) by lia.
              rewrite <- Htk. by rewrite lookup_take_lt by lia. }
            unfold chain_marks, chain in Hlk'. rewrite list_lookup_fmap in Hlk'.
            rewrite lookup_take_lt in Hlk' by lia. rewrite lookup_drop in Hlk'.
            replace (1 + (i - 1))%nat with i in Hlk' by lia.
            rewrite (list_lookup_lookup_total_lt (efftab t) i) in Hlk' by lia.
            simpl in Hlk'. injection Hlk' as <-. exact Hnull.
          + apply (Hfl k' m); [lia|exact Hlk]. }
      destruct (name (efftabR t1 !!! i)) eqn:Ename.
      * set (er := efftabR t1 !!! i).
        destruct (negb (cr_status (default sox_effect_nothing (h_start (h e)) (priv er) 0)
                        =? SOX_SUCCESS)).
        { intros [= <- <- <-]. split; [by right|]. discriminate. }
        apply Hstep; [|exact Hl1|reflexivity]. cbn [efftab]. exact Hm1.
      * apply Hstep; [exact Hm1|exact Hl1|reflexivity].
Qed.

(** X7.  [start_all_effects] takes effects out of the chain and does nothing
    else to it: where it returns SOX_SUCCESS the effects left are effects
    of the chain it was given, in the order they had, and none of them
    has the flag SOX_EFF_NULL.  It returns SOX_SUCCESS or SOX_EOF. *)
Theorem start_all_effects_chain (t t' : effects_table P) (status : Z)
    (started : list (option string)) :
  (1 <= neffects t <= length (efftab t))%nat ->
  start_all_effects t = (status, t', started) ->
  (status = SOX_SUCCESS \/ status = SOX_EOF)
  /\ (status = SOX_SUCCESS ->
      (1 <= neffects t' <= neffects t)%nat
      /\ (name <$> chain t') `sublist_of` (name <$> chain t)
      /\ Forall (fun e => has_flag e SOX_EFF_NULL = false) (chain t')).
Proof.
  intros Hn Hs. unfold start_all_effects in Hs.
  destruct (start_effects_from_spec (neffects t - 1) 1 SOX_SUCCESS t [] status t' started
              (Nat.le_refl 1) ltac:(lia) ltac:(lia) Hs) as [Hst Hok].
  split; [exact Hst|]. intros Hsucc. destruct (Hok Hsucc) as (Hn' & Hsub & _ & Hfl).
  split; [lia|]. split.
  - apply (fmap_sublist fst) in Hsub. unfold chain_marks in Hsub.
    rewrite <- !list_fmap_compose in Hsub. exact Hsub.
  - apply Forall_lookup. intros k x Hx.
    apply (Hfl k (name x, has_flag x SOX_EFF_NULL)); [lia|].
    unfold chain_marks. by rewrite list_lookup_fmap, Hx.
Qed.
End StartProofs.

(** *** The status of the scheduler, the pump, the write loop, split and join *)

Section FlowStatus.
Context {P F : Type} `{Platform} `{Libsox P F}.

Lemma carries_on_refl (s : sched P F) : carries_on s s.
Proof. unfold carries_on. auto. Qed.

Lemma carries_on_trans (s1 s2 s3 : sched P F) :
  carries_on s1 s2 -> carries_on s2 s3 -> carries_on s1 s3.
Proof.
  intros (A1 & A2 & A3 & A4) (B1 & B2 & B3 & B4). unfold carries_on.
  split; [lia|]. split; [congruence|]. split; [congruence|].
  intros Ha. rewrite B4 by congruence. auto.
Qed.

Lemma flow_effect_carries (e : nat) (s s' : sched P F) (st : Z) :
  flow_effect e s = Ret (st, s') ->
  carries_on s s' /\ input_eff s' = input_eff s
  /\ (user_abort s = true -> st = SOX_EOF /\ s' = s).
Proof.
  unfold flow_effect. destruct (user_abort s) eqn:Ea.
  { intros [= <- <-]. split; [apply carries_on_refl|]. auto. }
  assert (Hgoal : forall s1 : sched P F,
            input_eff s1 = input_eff s -> user_abort s1 = user_abort s ->
            neffects (sc_tab s1) = neffects (sc_tab s) ->
            carries_on s s1 /\ input_eff s1 = input_eff s
            /\ (false = true -> st = SOX_EOF /\ s1 = s)).
  { intros s1 H1 H2 H3. unfold carries_on. rewrite Ea.
    split; [|split; [assumption|discriminate]].
    split; [lia|]. split; [congruence|]. split; [assumption|discriminate]. }
  destruct (_ =? _); [intros [= <- <-]; by apply Hgoal|].
  destruct (negb (has_twin s e)).
  - unfold flow_whole. destruct (_ =? SOX_EOF); [intros [= <- <-]; by apply Hgoal|].
    destruct (_ =? 0); [discriminate|]. intros [= <- <-]. by apply Hgoal.
  - unfold flow_split. destruct (split_buffers e s).
    destruct (_ =? SOX_EOF); [intros [= <- <-]; by apply Hgoal|].
    destruct (_ =? 0); [discriminate|]. intros [= <- <-]. by apply Hgoal.
Qed.

Lemma drain_effect_carries (e : nat) (s : sched P F) :
  let s' := snd (drain_effect e s) in
  input_eff s' = input_eff s /\ user_abort s' = user_abort s
  /\ neffects (sc_tab s') = neffects (sc_tab s) /\ ofile_desc s' = ofile_desc s.
Proof.
  cbn zeta. unfold drain_effect. destruct (negb (has_twin s e)).
  - unfold drain_whole. simpl. auto.
  - unfold drain_split. simpl. auto.
Qed.

Lemma pull_chain_carries (e : nat) :
  forall (s s' : sched P F),
    pull_chain e s = Ret s' ->
    carries_on s s'
    /\ (user_abort s = true -> (0 < e)%nat -> (0 < input_eff s')%nat).
Proof.
  induction e as [|e IH]; intros s s'; cbn [pull_chain].
  - intros [= <-]. split; [apply carries_on_refl|]. lia.
  - destruct (S e <? input_eff s)%nat eqn:E1.
    { intros [= <-]. apply Nat.ltb_lt in E1. split; [apply carries_on_refl|]. lia. }
    destruct ((S e =? input_eff s)%nat && input_eff_eof s) eqn:E2.
    { intros Hp. destruct (IH _ _ Hp) as [Hc _]. split; [exact Hc|].
      apply andb_prop in E2 as [E2 _]. apply Nat.eqb_eq in E2.
      destruct Hc as (Hc & _). lia. }
    destruct (flow_effect (S e) s) as [[st s1]|] eqn:Ef; [|discriminate]. cbn [bind].
    destruct (flow_effect_carries _ _ _ _ Ef) as (Hc1 & Hi1 & Hab).
    set (s2 := if st =? SOX_EOF then with_input_eff (S e) false s1 else s1).
    assert (Hc2 : carries_on s s2).
    { unfold s2. destruct (st =? SOX_EOF); [|exact Hc1].
      destruct Hc1 as (A1 & A2 & A3 & A4). unfold carries_on. simpl.
      apply Nat.ltb_ge in E1. split; [lia|]. auto. }
    assert (Hab2 : user_abort s = true -> (0 < input_eff s2)%nat).
    { intros Ha. destruct (Hab Ha) as [-> ->]. unfold s2. simpl. lia. }
    destruct (odone (eff s2 (S e)) <? olen (eff s2 (S e))).
    { intros [= <-]. split; [exact Hc2|]. auto. }
    intros Hp. destruct (IH _ _ Hp) as [Hc3 _].
    split; [by eapply carries_on_trans|].
    intros Ha _. specialize (Hab2 Ha). destruct Hc3 as (Hc3 & _). lia.
Qed.

Lemma write_output_abort (fuel : nat) (buf : list Z) (len total : Z) (d d' : F) r :
  write_output fuel true buf len total d = Some (d', r) -> d' = d /\ r = None.
Proof. destruct fuel; simpl; [discriminate|]. by intros [= <- <-]. Qed.

Lemma write_phase_carries (s1 : sched P F) :
  match write_phase s1 with
  | None => True
  | Some (inl s2) => carries_on s1 s2 /\ input_eff s2 = input_eff s1
  | Some (inr s2) => carries_on s1 s2 /\ input_eff s2 = input_eff s1
  end.
Proof.
  unfold write_phase.
  assert (Hgoal : forall d n, (user_abort s1 = true -> d = ofile_desc s1) ->
            carries_on s1 (with_output d n s1)
            /\ input_eff (with_output d n s1) = input_eff s1).
  { intros d n Hd. unfold carries_on. simpl. auto. }
  destruct (_ <? _).
  - destruct (write_output _ _ _ _ _ _) as [[d [total|]]|] eqn:Ew; [| |exact I].
    + apply Hgoal. intros Ha. rewrite Ha in Ew. by apply write_output_abort in Ew as [? ?].
    + apply Hgoal. intros Ha. rewrite Ha in Ew. by apply write_output_abort in Ew as [? ?].
  - by apply Hgoal.
Qed.

Lemma reuse_buffer_carries (e : nat) (st : sched P F * bool) :
  carries_on (fst st) (fst (reuse_buffer e st))
  /\ input_eff (fst (reuse_buffer e st)) = input_eff (fst st)
  /\ input_eff_eof (fst (reuse_buffer e st)) = input_eff_eof (fst st).
Proof.
  destruct st as [s hd]. unfold reuse_buffer. cbn [fst].
  set (s1 := if odone (eff s e) =? olen (eff s e) then _ else s).
  assert (H1 : carries_on s s1 /\ input_eff s1 = input_eff s
               /\ input_eff_eof s1 = input_eff_eof s).
  { unfold s1. destruct (_ =? _); [|split; [apply carries_on_refl|auto]].
    unfold carries_on. simpl. auto. }
  by repeat case_match.
Qed.

Lemma reuse_buffers_carries (s : sched P F) :
  carries_on s (fst (reuse_buffers s))
  /\ input_eff (fst (reuse_buffers s)) = input_eff s
  /\ input_eff_eof (fst (reuse_buffers s)) = input_eff_eof s.
Proof.
  unfold reuse_buffers. generalize (reverse (seq (input_eff s) (neffects (sc_tab s) - input_eff s))).
  intros l. generalize false. revert s.
  induction l as [|e l IH]; intros s hd.
  - simpl. split; [apply carries_on_refl|auto].
  - cbn [foldl].
    destruct (reuse_buffer_carries e (s, hd)) as (Hc & Hi & Hf). cbn [fst] in *.
    destruct (reuse_buffer e (s, hd)) as [s1 hd1]. cbn [fst] in *.
    destruct (IH s1 hd1) as (Hc' & Hi' & Hf').
    split; [by eapply carries_on_trans|]. split; congruence.
Qed.

Lemma prime_pump_carries (rounds : nat) :
  forall s : sched P F, carries_on s (fst (prime_pump rounds s)).
Proof.
  induction rounds as [|rounds IH]; intros s; cbn [prime_pump].
  - apply carries_on_refl.
  - destruct (input_eff s <? neffects (sc_tab s))%nat; [|apply carries_on_refl].
    destruct (drain_effect_carries (input_eff s) s) as (Hi & Ha & Hn & Hd).
    destruct (drain_effect (input_eff s) s) as [rc s1]. cbn [snd] in *.
    assert (Hc1 : carries_on s s1).
    { unfold carries_on. split; [lia|]. auto. }
    destruct (olen (eff s1 (input_eff s1)) =? 0).
    + eapply carries_on_trans; [|apply IH].
      eapply carries_on_trans; [exact Hc1|]. unfold carries_on. simpl. split; [lia|auto].
    + cbn [fst]. eapply carries_on_trans; [exact Hc1|]. unfold carries_on. simpl.
      split; [lia|auto].
Qed.

Lemma reuse_phase_carries (s2 : sched P F) :
  match reuse_phase s2 with
  | Again s' | Leaves s' => carries_on s2 s'
  | _ => False
  end.
Proof.
  unfold reuse_phase.
  set (s3 := with_efftab _ s2).
  assert (H3 : carries_on s2 s3) by (unfold carries_on; simpl; auto).
  destruct (reuse_buffers_carries s3) as (H4 & Hi4 & _).
  destruct (reuse_buffers s3) as [s4 hd]. cbn [fst] in *.
  assert (H24 : carries_on s2 s4) by (by eapply carries_on_trans).
  destruct (negb hd && (0 <? input_eff s4)%nat).
  - set (s4' := if input_eff_eof s4 then _ else s4).
    assert (H4' : carries_on s4 s4').
    { unfold s4'. destruct (input_eff_eof s4); [|apply carries_on_refl].
      unfold carries_on. simpl. split; [lia|auto]. }
    pose proof (prime_pump_carries (neffects (sc_tab s4') - input_eff s4') s4') as H5.
    destruct (prime_pump _ s4') as [s5 hd5]. cbn [fst] in *.
    assert (carries_on s2 s5).
    { eapply carries_on_trans; [exact H24|]. by eapply carries_on_trans. }
    by destruct hd5.
  - by destruct hd.
Qed.

Lemma flow_effect_out_round_carries (s : sched P F) :
  match flow_effect_out_round s with
  | Again s' | Leaves s' =>
      carries_on s s'
      /\ (user_abort s = true -> (1 < neffects (sc_tab s))%nat -> (0 < input_eff s')%nat)
  | Returns st s' => carries_on s s' /\ st = SOX_EOF
  | _ => True
  end.
Proof.
  unfold flow_effect_out_round.
  destruct (pull_chain (neffects (sc_tab s) - 1) s) as [s1|] eqn:Ep; [|exact I].
  destruct (pull_chain_carries _ _ _ Ep) as [H1 Hab].
  pose proof (write_phase_carries s1) as Hw.
  destruct (write_phase s1) as [[s2|s2]|]; [| |exact I].
  - destruct Hw as [Hw _]. split; [by eapply carries_on_trans|reflexivity].
  - destruct Hw as [Hw Hi2].
    pose proof (reuse_phase_carries s2) as Hr.
    destruct (reuse_phase s2) as [s'|s'| | |]; try contradiction.
    + split; [eapply carries_on_trans; [exact H1|by eapply carries_on_trans]|].
      intros Ha Hn. specialize (Hab Ha ltac:(lia)). destruct Hr as (Hr & _). lia.
    + split; [eapply carries_on_trans; [exact H1|by eapply carries_on_trans]|].
      intros Ha Hn. specialize (Hab Ha ltac:(lia)). destruct Hr as (Hr & _). lia.
Qed.

Lemma flow_effect_out_carries (fuel : nat) :
  forall (s s' : sched P F) (st : Z),
    flow_effect_out fuel s = Returns st s' ->
    carries_on s s'
    /\ (st = SOX_SUCCESS /\ input_eff s' = 0%nat \/ st = SOX_EOF)
    /\ (user_abort s = true -> (1 < neffects (sc_tab s))%nat -> st = SOX_EOF).
Proof.
  induction fuel as [|fuel IH]; intros s s' st; cbn [flow_effect_out]; [discriminate|].
  pose proof (flow_effect_out_round_carries s) as Hr.
  destruct (flow_effect_out_round s) as [s1|s1|st1 s1| |]; try discriminate.
  - destruct Hr as [Hr _]. intros Hf. destruct (IH _ _ _ Hf) as (Hc & Hs & Hab).
    split; [by eapply carries_on_trans|]. split; [exact Hs|].
    destruct Hr as (_ & Ha & Hn & _). intros Hu Hm. apply Hab; congruence.
  - destruct Hr as [Hr Hab]. destruct (0 <? input_eff s1)%nat eqn:E.
    + intros [= <- <-]. split; [exact Hr|]. split; [by right|]. reflexivity.
    + intros [= <- <-]. apply Nat.ltb_ge in E. split; [exact Hr|].
      split; [left; split; [reflexivity|lia]|].
      intros Hu Hm. specialize (Hab Hu Hm). lia.
  - destruct Hr as [Hr ->]. intros [= <- <-]. split; [exact Hr|]. split; [by right|].
    reflexivity.
Qed.

(** X11.  [flow_effect_out] returns SOX_SUCCESS or SOX_EOF, and SOX_SUCCESS only
    where [input_eff] is 0 on entry and on return: once [input_eff] has
    left the input entry, on an effect's SOX_EOF or when the effects are
    drained, it does not come back and every return is SOX_EOF. *)
Theorem flow_effect_out_status (fuel : nat) (s s' : sched P F) (st : Z) :
  flow_effect_out fuel s = Returns st s' ->
  (input_eff s <= input_eff s')%nat
  /\ (st = SOX_SUCCESS /\ input_eff s = 0%nat /\ input_eff s' = 0%nat \/ st = SOX_EOF).
Proof.
  intros Hf. destruct (flow_effect_out_carries _ _ _ _ Hf) as ((Hi & _) & Hs & _).
  split; [exact Hi|]. destruct Hs as [[-> Hz]| ->]; [left|by right].
  split; [reflexivity|]. lia.
Qed.

(** X12.  [drain_effect_out] never returns SOX_SUCCESS: it moves [input_eff] off
    the input entry before it runs the chain. *)
Theorem drain_effect_out_eof (fuel : nat) (s s' : sched P F) (st : Z) :
  drain_effect_out fuel s = Returns st s' ->
  st = SOX_EOF /\ (0 < input_eff s')%nat.
Proof.
  unfold drain_effect_out.
  set (s1 := if (input_eff s =? 0)%nat then with_input_eff 1 false s else s).
  assert (H1 : (0 < input_eff s1)%nat).
  { unfold s1. destruct (input_eff s =? 0)%nat eqn:E; [simpl; lia|].
    apply Nat.eqb_neq in E. lia. }
  pose proof (prime_pump_carries (neffects (sc_tab s1) - input_eff s1) s1) as (H2 & _).
  destruct (prime_pump _ s1) as [s2 hd]. cbn [fst] in H2.
  intros Hf. destruct (flow_effect_out_carries _ _ _ _ Hf) as ((Hi & _) & Hs & _).
  split; [|lia]. destruct Hs as [[_ Hz]| ->]; [lia|reflexivity].
Qed.

(** X13.  During a user abort [flow_effect_out] writes nothing to the output
    file, and over a chain with an effect it returns SOX_EOF. *)
Theorem flow_effect_out_abort (fuel : nat) (s s' : sched P F) (st : Z) :
  user_abort s = true ->
  flow_effect_out fuel s = Returns st s' ->
  ofile_desc s' = ofile_desc s
  /\ ((1 < neffects (sc_tab s))%nat -> st = SOX_EOF).
Proof.
  intros Ha Hf. destruct (flow_effect_out_carries _ _ _ _ Hf) as ((_ & _ & _ & Hd) & _ & Hs).
  split; [by apply Hd|]. intros Hn. by apply Hs.
Qed.
End FlowStatus.

Section PumpProofs.
Context {P F : Type} `{Platform} `{Libsox P F}.

Lemma drain_effect_stage (e : nat) (s : sched P F) :
  let s' := snd (drain_effect e s) in
  (forall k, k <> e -> eff s' k = eff s k)
  /\ length (efftab (sc_tab s')) = length (efftab (sc_tab s))
  /\ ((e < length (efftab (sc_tab s)))%nat -> odone (eff s' e) = 0).
Proof.
  cbn zeta. unfold drain_effect. destruct (negb (has_twin s e)).
  - unfold drain_whole. cbn [snd]. unfold eff. cbn [with_efftab sc_tab efftab].
    split; [|split].
    + intros k Hk. by rewrite list_lookup_total_insert_ne by lia.
    + by rewrite length_insert.
    + intros He. by rewrite list_lookup_total_insert_eq by lia.
  - unfold drain_split. cbn [snd]. unfold eff.
    cbn [with_scratch with_efftabR with_efftab sc_tab efftab].
    split; [|split].
    + intros k Hk. by rewrite list_lookup_total_insert_ne by lia.
    + by rewrite length_insert.
    + intros He. by rewrite list_lookup_total_insert_eq by lia.
Qed.

Lemma prime_pump_spec (rounds : nat) :
  forall s : sched P F,
    (neffects (sc_tab s) <= length (efftab (sc_tab s)))%nat ->
    (neffects (sc_tab s) - input_eff s <= rounds)%nat ->
    let s' := fst (prime_pump rounds s) in
    let havedata := snd (prime_pump rounds s) in
    (forall k, (k < input_eff s)%nat -> eff s' k = eff s k)
    /\ (forall e, (input_eff s <= e < input_eff s')%nat -> olen (eff s' e) = 0)
    /\ (input_eff s <= input_eff s')%nat
    /\ if havedata
       then (input_eff s' < neffects (sc_tab s))%nat
            /\ olen (eff s' (input_eff s')) <> 0 /\ odone (eff s' (input_eff s')) = 0
       else (neffects (sc_tab s) <= input_eff s')%nat.
Proof.
  induction rounds as [|rounds IH]; intros s Hlen Hr; cbn zeta; cbn [prime_pump].
  - cbn [fst snd]. split; [done|]. split; [lia|]. split; lia.
  - destruct (input_eff s <? neffects (sc_tab s))%nat eqn:E.
    2:{ apply Nat.ltb_ge in E. cbn [fst snd]. split; [done|]. split; [lia|]. split; lia. }
    apply Nat.ltb_lt in E.
    destruct (drain_effect_carries (input_eff s) s) as (Hi & _ & Hn & _).
    destruct (drain_effect_stage (input_eff s) s) as (Hk & Hl & Ho).
    destruct (drain_effect (input_eff s) s) as [rc s1]. cbn [snd] in *.
    destruct (olen (eff s1 (input_eff s1)) =? 0) eqn:E0.
    + apply Z.eqb_eq in E0.
      destruct (IH (with_input_eff (S (input_eff s1)) false s1)) as (Ik & I0 & Ii & Ih).
      { simpl. lia. }
      { simpl. lia. }
      cbn [with_input_eff input_eff sc_tab] in Ik, I0, Ii, Ih.
      set (r := prime_pump rounds (with_input_eff (S (input_eff s1)) false s1)) in *.
      split; [|split; [|split]].
      * intros k Hlt. rewrite Ik by lia. unfold eff at 1. cbn [with_input_eff sc_tab].
        apply Hk. lia.
      * intros e He. destruct (decide (e = input_eff s)) as [->|Hne].
        -- rewrite Ik by lia. unfold eff. cbn [with_input_eff sc_tab].
           rewrite <- Hi. exact E0.
        -- apply I0. lia.
      * lia.
      * destruct (snd r); [|lia]. destruct Ih as (? & ? & ?). split; [lia|]. auto.
    + apply Z.eqb_neq in E0. cbn [fst snd with_input_eff input_eff sc_tab].
      split; [|split; [|split]].
      * intros k Hlt. unfold eff at 1. cbn [with_input_eff sc_tab]. apply Hk. lia.
      * intros e He. lia.
      * lia.
      * unfold eff in *. cbn [with_input_eff sc_tab]. split; [lia|]. split; [exact E0|].
        rewrite Hi. apply Ho. lia.
Qed.
End PumpProofs.

(** X10.  Priming the pump (in [flow_effect_out] and in [drain_effect_out]):
    the effects are drained from [input_eff] on, up to the first that gives
    samples.  The effects passed gave none; [input_eff] is left at the
    first that gave samples, whose buffer starts at [odone = 0], or at
    [neffects] where none gave any. *)
Theorem prime_pump_first_with_data {P F : Type} `{Platform} `{Libsox P F} (s : sched P F) :
  (neffects (sc_tab s) <= length (efftab (sc_tab s)))%nat ->
  let s' := fst (prime_pump (neffects (sc_tab s) - input_eff s) s) in
  let havedata := snd (prime_pump (neffects (sc_tab s) - input_eff s) s) in
  (forall e, (input_eff s <= e < input_eff s')%nat -> olen (eff s' e) = 0)
  /\ (forall k, (k < input_eff s)%nat -> eff s' k = eff s k)
  /\ if havedata
     then (input_eff s <= input_eff s' < neffects (sc_tab s))%nat
          /\ olen (eff s' (input_eff s')) <> 0 /\ odone (eff s' (input_eff s')) = 0
     else (input_eff s <= input_eff s')%nat /\ (neffects (sc_tab s) <= input_eff s')%nat.
Proof.
  intros Hlen. cbn zeta.
  destruct (prime_pump_spec (neffects (sc_tab s) - input_eff s) s Hlen (Nat.le_refl _))
    as (Hk & Hz & Hi & Hh).
  split; [exact Hz|]. split; [exact Hk|].
  destruct (snd _); [|split; assumption].
  destruct Hh as (? & ? & ?). split; [lia|]. auto.
Qed.

Section WriteProofs.
Context {P F : Type} `{Platform} `{Libsox P F}.
(** What the output file holds, for an output that takes the samples it is
    given in order and says how many it took. *)
Variable content : F -> list Z.
Hypothesis sox_write_takes : forall d buf,
  0 <= snd (sox_write d buf) <= Z.of_nat (length buf)
  /\ content (fst (sox_write d buf))
     = content d ++ take (Z.to_nat (snd (sox_write d buf))) buf.

Lemma write_output_spec (fuel : nat) :
  forall (buf : list Z) (len total : Z) (d d' : F) (r : option Z),
    0 <= total < len -> len <= Z.of_nat (length buf) ->
    write_output fuel false buf len total d = Some (d', r) ->
    exists k, total <= k <= len
      /\ content d' = content d ++ take (Z.to_nat (k - total)) (drop (Z.to_nat total) buf)
      /\ match r with Some total' => total' = len /\ k = len | None => k < len end.
Proof.
  induction fuel as [|fuel IH]; intros buf len total d d' r Ht Hl; cbn [write_output];
    [discriminate|].
  destruct (sox_write_takes d (take (Z.to_nat (len - total)) (drop (Z.to_nat total) buf)))
    as [Hw Hc].
  destruct (sox_write d _) as [d1 written]. cbn [fst snd] in Hw, Hc.
  rewrite length_take, length_drop in Hw.
  assert (Hc' : content d1
                = content d ++ take (Z.to_nat written) (drop (Z.to_nat total) buf)).
  { rewrite Hc, take_take.
    replace (Z.to_nat written `min` Z.to_nat (len - total))%nat with (Z.to_nat written)
      by lia.
    reflexivity. }
  destruct (written =? 0) eqn:E0.
  { apply Z.eqb_eq in E0. subst written. intros [= <- <-]. exists total.
    split; [lia|]. split; [|lia]. by rewrite Hc', Z.sub_diag. }
  apply Z.eqb_neq in E0.
  destruct (total + written <? len) eqn:E1.
  - apply Z.ltb_lt in E1. intros Hrec.
    destruct (IH buf len (total + written) d1 d' r ltac:(lia) Hl Hrec) as (k & Hk & Hck & Hr).
    exists k. split; [lia|]. split; [|exact Hr].
    rewrite Hck, Hc', <- app_assoc. f_equal.
    replace (Z.to_nat (total + written)) with (Z.to_nat total + Z.to_nat written)%nat by lia.
    rewrite <- drop_drop. rewrite take_take_drop. f_equal. lia.
  - apply Z.ltb_ge in E1. intros [= <- <-]. exists len.
    split; [lia|]. split; [|lia]. rewrite Hc'. f_equal. f_equal. lia.
Qed.

Lemma write_output_returns (fuel : nat) :
  forall (buf : list Z) (len total : Z) (d : F),
    0 <= total < len -> (Z.to_nat (len - total) <= fuel)%nat ->
    exists d' r, write_output fuel false buf len total d = Some (d', r).
Proof.
  induction fuel as [|fuel IH]; intros buf len total d Ht Hf; [lia|].
  cbn [write_output].
  destruct (sox_write_takes d (take (Z.to_nat (len - total)) (drop (Z.to_nat total) buf)))
    as [Hw _].
  destruct (sox_write d _) as [d1 written]. cbn [snd] in Hw.
  destruct (written =? 0) eqn:E0; [by eauto|].
  apply Z.eqb_neq in E0.
  destruct (total + written <? len) eqn:E1; [|by eauto].
  apply Z.ltb_lt in E1. apply IH; lia.
Qed.

(** X9.  The loop that writes the output of the last effect takes up again
    after a short write where the write ended, and is over after at most
    [len] writes: once it has written the block, the file holds the [len]
    samples of the buffer after what it held, in order and each once;
    where it gives up, on a write of no sample, the file holds the first
    [k] of them for some [k < len]. *)
Theorem write_output_in_order (fuel : nat) (buf : list Z) (len : Z) (d : F) :
  0 < len <= Z.of_nat (length buf) ->
  (Z.to_nat len <= fuel)%nat ->
  exists d' r,
    write_output fuel false buf len 0 d = Some (d', r)
    /\ match r with
       | Some total => total = len /\ content d' = content d ++ take (Z.to_nat len) buf
       | None => exists k, 0 <= k < len /\ content d' = content d ++ take (Z.to_nat k) buf
       end.
Proof.
  intros Hl Hf.
  destruct (write_output_returns fuel buf len 0 d ltac:(lia) ltac:(lia)) as (d' & r & Hw).
  exists d', r. split; [exact Hw|].
  destruct (write_output_spec fuel buf len 0 d d' r ltac:(lia) ltac:(lia) Hw)
    as (k & Hk & Hc & Hr).
  rewrite Z.sub_0_r in Hc. change (Z.to_nat 0) with 0%nat in Hc. rewrite drop_0 in Hc.
  destruct r as [total|].
  - destruct Hr as [-> ->]. auto.
  - exists k. split; [lia|exact Hc].
Qed.
End WriteProofs.

Lemma split_input_spec (src : list Z) (start n : nat) (l r : list Z) :
  (n <= length l)%nat -> (n <= length r)%nat ->
  let lr := split_input src start (Z.of_nat (2 * n)) l r in
  length (fst lr) = length l /\ length (snd lr) = length r
  /\ forall i, (i < n)%nat ->
       fst lr !!! i = src !!! (start + 2 * i)%nat
       /\ snd lr !!! i = src !!! (start + 2 * i + 1)%nat.
Proof.
  intros Hl Hr. cbn zeta. unfold split_input.
  replace (Z.to_nat ((Z.of_nat (2 * n) + 1) / 2)) with n
    by (rewrite Nat2Z.inj_mul; change (Z.of_nat 2) with 2;
        rewrite (Z.add_comm _ 1), Z.mul_comm, Z.div_add by lia;
        change (1 / 2) with 0; lia).
  apply (for_up_ind (fun k lr =>
    length (fst lr) = length l /\ length (snd lr) = length r
    /\ forall i, (i < k)%nat ->
         fst lr !!! i = src !!! (start + 2 * i)%nat
         /\ snd lr !!! i = src !!! (start + 2 * i + 1)%nat)).
  - split; [reflexivity|]. split; [reflexivity|]. intros i Hi. lia.
  - intros k [l1 r1] Hk (Hl1 & Hr1 & Hprev). cbn [fst snd] in *. rewrite Nat.add_0_l.
    split; [by rewrite length_insert|]. split; [by rewrite length_insert|].
    intros i Hi. destruct (decide (i = k)) as [->|Hne].
    + rewrite !list_lookup_total_insert_eq by lia. done.
    + rewrite !list_lookup_total_insert_ne by lia. apply Hprev. lia.
Qed.

(** X8.  The samples that go to the left and right buffers for the twins and
    come back from them: [split_input] followed by [join_output] gives back
    the [2 n] interleaved samples, in order, and changes nothing else of
    the buffer they are joined into. *)
Theorem split_join_round_trip (src dst l r : list Z) (start start' n : nat) :
  (n <= length l)%nat -> (n <= length r)%nat ->
  (start + 2 * n <= length src)%nat -> (start' + 2 * n <= length dst)%nat ->
  let lr := split_input src start (Z.of_nat (2 * n)) l r in
  let d := join_output (Z.of_nat n) (fst lr) (snd lr) dst start' in
  take (2 * n) (drop start' d) = take (2 * n) (drop start src)
  /\ length d = length dst.
Proof.
  intros Hl Hr Hs Hd. cbn zeta.
  destruct (split_input_spec src start n l r Hl Hr) as (Hl1 & Hr1 & Hsp).
  set (lr := split_input src start (Z.of_nat (2 * n)) l r) in *.
  destruct (join_output_spec n (fst lr) (snd lr) dst start' Hd) as (Hlen & Hj).
  split; [|exact Hlen].
  apply list_eq. intros k.
  destruct (decide (k < 2 * n)%nat) as [Hk|Hk].
  2:{ rewrite !lookup_take_ge by lia. reflexivity. }
  rewrite !lookup_take_lt by lia. rewrite !lookup_drop.
  pose proof (Nat.div_mod_eq k 2) as Hdm.
  pose proof (Nat.mod_upper_bound k 2 ltac:(lia)) as Hm.
  set (i := (k / 2)%nat) in *.
  destruct (Hj i ltac:(lia)) as [Hj0 Hj1]. destruct (Hsp i ltac:(lia)) as [Hs0 Hs1].
  destruct (decide (k mod 2 = 0)%nat) as [E|E].
  - replace (start' + k)%nat with (start' + 2 * i)%nat by lia.
    replace (start + k)%nat with (start + 2 * i)%nat by lia.
    rewrite Hj0, Hs0. symmetry. apply list_lookup_lookup_total_lt. lia.
  - replace (start' + k)%nat with (start' + 2 * i + 1)%nat by lia.
    replace (start + k)%nat with (start + 2 * i + 1)%nat by lia.
    rewrite Hj1, Hs1. symmetry. apply list_lookup_lookup_total_lt. lia.
Qed.

(** *** [balance_input] and the invariant over a whole call *)

(** X16.  [balance_input] changes the [ws] wide samples read and nothing behind
    them, and with a volume of 1 it changes no sample and counts no
    clip. *)
Theorem balance_input_frame `{Platform} (round_clip_count : double -> Z -> Z * Z)
    (buf : list Z) (ws : Z) (f : file_info) :
  let r := balance_input round_clip_count buf ws f in
  length (fst r) = length buf
  /\ (forall k, (Z.to_nat (sz (ws * desc_channels f)) <= k)%nat -> fst r !! k = buf !! k)
  /\ (double_eqb (volume f) (Fin 1) = true -> r = (buf, volume_clips f)).
Proof.
  cbn zeta. unfold balance_input.
  destruct (double_eqb (volume f) (Fin 1)); cbn [negb]; [done|].
  split; [|split; [|discriminate]].
  - apply (for_up_ind (fun _ st => length (fst st) = length buf)); [reflexivity|].
    intros k st _ Hl. unfold balance_sample. destruct (round_clip_count _ _).
    cbn [fst]. by rewrite length_insert.
  - intros k Hk.
    apply (for_up_ind (fun n st => (n <= Z.to_nat (sz (ws * desc_channels f)))%nat ->
                                   fst st !! k = buf !! k)); [reflexivity| |lia].
    intros n st Hn IH _. unfold balance_sample. destruct (round_clip_count _ _).
    cbn [fst]. rewrite list_lookup_insert_ne by lia. apply IH. lia.
Qed.

Section KeepsInvariant.
Context {P F : Type} `{Platform} `{Libsox P F}.
Hypothesis Hplat : platform_ok.
Hypothesis Hlib : libsox_ok.

Lemma prime_pump_sched_ok (rounds : nat) :
  forall s : sched P F,
    sched_ok s ->
    sched_ok (fst (prime_pump rounds s))
    /\ neffects (sc_tab (fst (prime_pump rounds s))) = neffects (sc_tab s).
Proof.
  induction rounds as [|rounds IH]; intros s Hs; cbn [prime_pump]; [done|].
  destruct (input_eff s <? neffects (sc_tab s))%nat eqn:E; [|done].
  apply Nat.ltb_lt in E.
  pose proof (drain_effect_ok Hplat Hlib (input_eff s) s Hs E) as Hd. cbn zeta in Hd.
  destruct (drain_effect (input_eff s) s) as [rc s1]. cbn [snd] in Hd.
  destruct Hd as (Hs1 & Hn1 & _).
  destruct (olen (eff s1 (input_eff s1)) =? 0).
  - destruct (IH (with_input_eff (S (input_eff s1)) false s1) Hs1) as [Hs2 Hn2].
    split; [exact Hs2|]. simpl in Hn2. congruence.
  - cbn [fst]. split; [exact Hs1|exact Hn1].
Qed.

Lemma flow_effect_out_round_ok (s : sched P F) :
  sched_ok s -> (0 < neffects (sc_tab s))%nat ->
  match flow_effect_out_round s with
  | Again s' | Leaves s' | Returns _ s' =>
      sched_ok s' /\ neffects (sc_tab s') = neffects (sc_tab s)
  | Exits code _ => code = 2
  | OutOfFuel => False
  end.
Proof.
  intros Hs Hn. unfold flow_effect_out_round.
  destruct (pull_chain (neffects (sc_tab s) - 1) s) as [s1|code msg] eqn:Ep.
  - destruct (pull_chain_ok Hplat Hlib (neffects (sc_tab s) - 1) s s1 Hs ltac:(lia) Ep)
      as (Hs1 & Hn1 & _).
    pose proof (write_phase_ok Hplat Hlib s1 Hs1 ltac:(lia)) as Hw.
    destruct (write_phase s1) as [[s2|s2]|]; [| |done].
    + destruct Hw as [Ht2 Hn2]. split; [|congruence].
      eapply sched_ok_same_tab; [exact Ht2|exact Hn2|exact Hs1].
    + destruct Hw as [Ht2 Hn2].
      assert (Hs2 : sched_ok s2)
        by (eapply sched_ok_same_tab; [exact Ht2|exact Hn2|exact Hs1]).
      pose proof (reuse_phase_ok Hplat Hlib s2 Hs2 ltac:(lia)) as Hr.
      destruct (reuse_phase s2) as [s'|s'| | |]; try contradiction;
        destruct Hr as (Hs' & Hn' & _); (split; [exact Hs'|congruence]).
  - by apply pull_chain_exit in Ep.
Qed.

Lemma flow_effect_out_ok (fuel : nat) :
  forall (s s' : sched P F) (st : Z),
    sched_ok s -> (0 < neffects (sc_tab s))%nat ->
    flow_effect_out fuel s = Returns st s' ->
    sched_ok s' /\ neffects (sc_tab s') = neffects (sc_tab s).
Proof.
  induction fuel as [|fuel IH]; intros s s' st Hs Hn; cbn [flow_effect_out];
    [discriminate|].
  pose proof (flow_effect_out_round_ok s Hs Hn) as Hr.
  destruct (flow_effect_out_round s) as [s1|s1|st1 s1| |]; try discriminate.
  - destruct Hr as [Hs1 Hn1]. intros Hf.
    destruct (IH _ _ _ Hs1 ltac:(lia) Hf) as [Hs' Hn']. split; [exact Hs'|congruence].
  - destruct (0 <? input_eff s1)%nat; intros [= <- <-]; exact Hr.
  - intros [= <- <-]. exact Hr.
Qed.

(** X14.  The invariant of the buffers, [0 <= odone <= olen <= sox_bufsiz] at
    every stage, is kept by [flow_effect_out] and by [drain_effect_out]
    over all their rounds: where it holds on entry it holds when they
    return, with the chain as long as it was. *)
Theorem flow_effect_out_keeps_invariant (fuel : nat) (s s' : sched P F) (st : Z) :
  sched_ok s -> (0 < neffects (sc_tab s))%nat ->
  flow_effect_out fuel s = Returns st s' \/ drain_effect_out fuel s = Returns st s' ->
  sched_ok s' /\ neffects (sc_tab s') = neffects (sc_tab s).
Proof.
  intros Hs Hn [Hf|Hf]; [by apply (flow_effect_out_ok fuel s s' st)|].
  revert Hf. unfold drain_effect_out.
  set (s1 := if (input_eff s =? 0)%nat then with_input_eff 1 false s else s).
  assert (Hs1 : sched_ok s1 /\ neffects (sc_tab s1) = neffects (sc_tab s)).
  { unfold s1. by destruct (input_eff s =? 0)%nat. }
  destruct Hs1 as [Hs1 Hn1].
  destruct (prime_pump_sched_ok (neffects (sc_tab s1) - input_eff s1) s1 Hs1) as [Hs2 Hn2].
  destruct (prime_pump _ s1) as [s2 hd]. cbn [fst] in *.
  intros Hf. destruct (flow_effect_out_ok fuel _ _ _ Hs2 ltac:(lia) Hf) as [Hs' Hn'].
  split; [exact Hs'|congruence].
Qed.

(** X15.  [process] starts every round of its loop with the buffers in order:
    a block read by [sox_read_wide] fits the buffer of the input entry, and
    once it is handed over, to the chain marked as empty at the start or
    to a chain that was in order, every stage has
    [0 <= odone <= olen <= sox_bufsiz]. *)
Theorem block_read_fits (combiner_channels signal_channels : Z) (sox_read : Z -> Z)
    (s : sched P F) :
  0 < signal_channels <= combiner_channels ->
  (forall n, 0 <= n -> 0 <= sox_read n <= n) ->
  (0 < neffects (sc_tab s))%nat ->
  Forall handlers_ok (take (neffects (sc_tab s)) (efftab (sc_tab s))) ->
  let n := sox_read_wide combiner_channels signal_channels sox_read in
  0 <= n * combiner_channels <= sox_bufsiz
  /\ sched_ok (hand_over n combiner_channels (mark_chain_empty s))
  /\ (sched_ok s -> sched_ok (hand_over n combiner_channels s)).
Proof.
  intros Hc Hread Hn Hh. cbn zeta.
  pose proof (sox_read_wide_bound Hplat combiner_channels signal_channels sox_read
                Hc Hread) as Hb.
  assert (Hmul : sox_bufsiz / combiner_channels * combiner_channels <= sox_bufsiz).
  { rewrite Z.mul_comm. apply Z.mul_div_le. lia. }
  split; [nia|]. split.
  - apply (chain_start_ok Hplat Hlib); [exact Hh|lia|exact Hb].
  - intros Hs. apply (hand_over_ok Hplat Hlib); [exact Hs|exact Hn|lia|exact Hb].
Qed.
End KeepsInvariant.

(** *** [total_clips] and [stop_effects] *)

Lemma sz_add_r `{Platform} (a b : Z) : sz (a + sz b) = sz (a + b).
Proof. unfold sz. apply Zplus_mod_idemp_r. Qed.

(** X25.  [total_clips] is the sum, cut to a [sox_size_t], of the clips of the
    first [file_count] files, the mixing clips and, for every effect after
    the input entry, the clips of its left instance, counted twice where
    the effect has a right instance: the clips of the right instances are
    never read. *)
Theorem total_clips_sum {P F : Type} `{Platform} `{Libsox P F}
    (files : list file_info) (file_count : nat) (mixing_clips : Z) (t : effects_table P) :
  total_clips files file_count mixing_clips t
  = sz (sum_list_Z (file_clips <$> first_files files file_count)
        + mixing_clips
        + sum_list_Z (counted_clips t <$> seq 1 (neffects t - 1))).
Proof.
  unfold total_clips.
  assert (Hf : for_up 0 file_count
                 (fun i c => sz (c + sz (ft_clips (desc_of (files !!! i))
                                          + volume_clips (files !!! i)))) 0
               = sz (sum_list_Z (file_clips <$> first_files files file_count))).
  { unfold first_files. induction file_count as [|n IH].
    - rewrite for_up_0. reflexivity.
    - rewrite for_up_S, IH, seq_S, !fmap_app. cbn [fmap list_fmap].
      rewrite sum_list_Z_snoc, sz_add_l, sz_add_r. reflexivity. }
  rewrite Hf, sz_add_l.
  generalize (sum_list_Z (file_clips <$> first_files files file_count) + mixing_clips).
  intros base. induction (neffects t - 1)%nat as [|n IH].
  - rewrite for_up_0. cbn [seq fmap list_fmap sum_list_Z foldr].
    by rewrite Z.add_0_r.
  - rewrite for_up_S, IH, seq_S, fmap_app. cbn [fmap list_fmap].
    rewrite sum_list_Z_snoc. unfold effect_clips, counted_clips.
    destruct (name (efftabR t !!! (1 + n)%nat)).
    + rewrite sz_add_l, <- Z.add_assoc, sz_add_l. apply (f_equal sz). lia.
    + rewrite sz_add_l. apply (f_equal sz). lia.
Qed.

Lemma stopped_like_refl {P : Type} (e : sox_effect P) : stopped_like e e.
Proof. by repeat split. Qed.

Lemma stopped_like_trans {P : Type} (a b c : sox_effect P) :
  stopped_like a b -> stopped_like b c -> stopped_like a c.
Proof. unfold stopped_like. intuition congruence. Qed.

Lemma stopped_like_set_effp {P : Type} (p : P) (c : Z) (e : sox_effect P) :
  stopped_like e (set_effp p c e).
Proof. by repeat split. Qed.

Lemma stopped_like_insert {P F : Type} `{Libsox P F} (l : list (sox_effect P))
    (e : nat) (p : P) (c : Z) (i : nat) :
  stopped_like (l !!! i) (<[e := set_effp p c (l !!! e)]> l !!! i).
Proof.
  rewrite list_lookup_total_insert. case_decide as Hd; [|apply stopped_like_refl].
  destruct Hd as [-> _]. apply stopped_like_set_effp.
Qed.

Section StopProofs.
Context {P F : Type} `{Platform} `{Libsox P F}.

Lemma stop_effect_spec (e : nat) (t : effects_table P) :
  let t' := fst (stop_effect e t) in
  neffects t' = neffects t
  /\ length (efftab t') = length (efftab t)
  /\ length (efftabR t') = length (efftabR t)
  /\ (forall i, stopped_like (efftab t !!! i) (efftab t' !!! i)
                /\ stopped_like (efftabR t !!! i) (efftabR t' !!! i))
  /\ (forall i, i <> e -> efftab t' !!! i = efftab t !!! i
                          /\ efftabR t' !!! i = efftabR t !!! i)
  /\ snd (stop_effect e t) = reported_clips t' e.
Proof.
  unfold stop_effect. cbn zeta.
  set (stop := default sox_effect_nothing (h_stop (h (efftab t !!! e)))).
  set (r := stop (priv (efftab t !!! e)) (clips (efftab t !!! e))).
  cbn [efftab efftabR neffects].
  set (L := <[e := set_effp (cr_priv r) (cr_clips r) (efftab t !!! e)]> (efftab t)).
  destruct (name (efftabR t !!! e)) as [n|] eqn:En; cbn [fst snd efftab efftabR neffects].
  - set (rr := stop (priv (efftabR t !!! e)) (clips (efftabR t !!! e))).
    assert (HnR : name (<[e := set_effp (cr_priv rr) (cr_clips rr) (efftabR t !!! e)]>
                          (efftabR t) !!! e) = Some n).
    { destruct (stopped_like_insert (efftabR t) e (cr_priv rr) (cr_clips rr) e) as [Hn _].
      by rewrite Hn. }
    split_and!.
    + done.
    + unfold L. by rewrite length_insert.
    + by rewrite length_insert.
    + intros i. split; apply stopped_like_insert.
    + intros i Hi. split; by apply list_lookup_total_insert_ne.
    + unfold reported_clips. cbn [efftab efftabR]. rewrite HnR.
      replace (2 * clips (L !!! e)) with (clips (L !!! e) + clips (L !!! e)) by lia.
      reflexivity.
  - split_and!.
    + done.
    + unfold L. by rewrite length_insert.
    + done.
    + intros i. split; [apply stopped_like_insert|apply stopped_like_refl].
    + intros i Hi. split; [by apply list_lookup_total_insert_ne|done].
    + unfold reported_clips. cbn [efftab efftabR]. rewrite En. reflexivity.
Qed.

Lemma reported_clips_ext (t t' : effects_table P) (e : nat) :
  efftab t' !!! e = efftab t !!! e -> efftabR t' !!! e = efftabR t !!! e ->
  reported_clips t' e = reported_clips t e.
Proof. unfold reported_clips. by intros -> ->. Qed.

(** X26.  [stop_effects] changes nothing of an effect but its private state and
    its clips, and nothing of the input entry and of the entries after the
    chain; it warns about the effects of the chain, in their order, whose
    count is not 0, and the count it gives for an effect that has a right
    instance is twice the clips of the left one, cut to a [sox_size_t]. *)
Theorem stop_effects_report (t : effects_table P) :
  let t' := fst (stop_effects t) in
  neffects t' = neffects t
  /\ length (efftab t') = length (efftab t)
  /\ length (efftabR t') = length (efftabR t)
  /\ (forall i, stopped_like (efftab t !!! i) (efftab t' !!! i)
                /\ stopped_like (efftabR t !!! i) (efftabR t' !!! i))
  /\ (forall i, (i < 1 \/ neffects t <= i)%nat ->
        efftab t' !!! i = efftab t !!! i /\ efftabR t' !!! i = efftabR t !!! i)
  /\ snd (stop_effects t) = omap (reported_clips t') (seq 1 (neffects t - 1)).
Proof.
  cbn zeta. unfold stop_effects.
  set (body := fun (e : nat) (st : effects_table P * list (option string * Z)) =>
                 let '(t', w) := stop_effect e (fst st) in
                 (t', snd st ++ match w with Some x => [x] | None => [] end)).
  pose (Inv := fun (k : nat) (st : effects_table P * list (option string * Z)) =>
    neffects (fst st) = neffects t
    /\ length (efftab (fst st)) = length (efftab t)
    /\ length (efftabR (fst st)) = length (efftabR t)
    /\ (forall i, stopped_like (efftab t !!! i) (efftab (fst st) !!! i)
                  /\ stopped_like (efftabR t !!! i) (efftabR (fst st) !!! i))
    /\ (forall i, (i < 1 \/ 1 + k <= i)%nat ->
          efftab (fst st) !!! i = efftab t !!! i
          /\ efftabR (fst st) !!! i = efftabR t !!! i)
    /\ snd st = omap (reported_clips (fst st)) (seq 1 k)).
  assert (HI : Inv (neffects t - 1)%nat (for_up 1 (neffects t - 1) body (t, []))).
  { apply for_up_ind.
    - unfold Inv. cbn [fst snd]. split_and!; done.
    - intros k [tk wk] Hk (Hn & Hl & HlR & Hs & Hf & Hw). cbn [fst snd] in *.
      unfold body. cbn [fst snd].
      pose proof (stop_effect_spec (1 + k) tk) as Hstep. cbn zeta in Hstep.
      destruct (stop_effect (1 + k) tk) as [t1 w]. cbn [fst snd] in Hstep.
      destruct Hstep as (Hn1 & Hl1 & HlR1 & Hs1 & Hf1 & Hw1).
      unfold Inv. cbn [fst snd]. split_and!.
      + congruence.
      + congruence.
      + congruence.
      + intros i. split; (eapply stopped_like_trans; [apply Hs|apply Hs1]).
      + intros i Hi. destruct (Hf1 i ltac:(lia)) as [-> ->]. apply Hf. lia.
      + rewrite seq_S, omap_app. cbn [omap list_omap]. rewrite <- Hw1.
        f_equal; try (by destruct w).
        rewrite Hw. apply list_omap_ext, Forall2_same_length_lookup_2; [done|].
        intros i a b Ha Hb. rewrite Ha in Hb. injection Hb as <-.
        apply lookup_seq in Ha as [-> Hi].
        symmetry. apply reported_clips_ext; apply Hf1; lia. }
  destruct HI as (Hn & Hl & HlR & Hs & Hf & Hw). split_and!; try done.
  intros i Hi. apply Hf. lia.
Qed.
End StopProofs.

(** *** Playlists and the number of files *)

Lemma parse_playlist_run (f0 : file_info) (pl : playlist) :
  forall files : list file_info,
    (length files <= MAX_FILES)%nat ->
    match parse_playlist f0 pl files with
    | Ret files' =>
        readable pl = true
        /\ files' = files ++ ((fun n => with_filename n f0) <$> playlist_names pl)
        /\ (length files + length (playlist_names pl) <= MAX_FILES)%nat
    | Exit code msg =>
        code = 1
        /\ (msg = too_many_filenames \/ msg = cannot_open_playlist
            \/ msg = error_reading_playlist)
        /\ (readable pl = true ->
            msg = too_many_filenames
            /\ (MAX_FILES <= length files + length (playlist_names pl))%nat)
    end.
Proof.
  induction pl as [|id rest IH|sub IHs rest IHr| |]; intros files Hlen;
    cbn [parse_playlist readable].
  - simpl. rewrite app_nil_r. split_and!; [done..|lia].
  - destruct (MAX_FILES <=? length files)%nat eqn:E.
    + apply Nat.leb_le in E. split_and!; [done|auto|]. intros _. simpl. split; [done|lia].
    + apply Nat.leb_gt in E. specialize (IH (files ++ [with_filename id f0])).
      rewrite length_app in IH. cbn [length] in IH. specialize (IH ltac:(lia)).
      destruct (parse_playlist f0 rest _) as [files'|code msg].
      * destruct IH as (Hr & -> & Hb). rewrite <- app_assoc. split_and!; [done..|].
        simpl. lia.
      * destruct IH as (-> & Hm & Hb). split_and!; [done..|].
        intros Hr. destruct (Hb Hr) as [-> Hb']. split; [done|]. simpl. lia.
  - destruct (MAX_FILES <=? length files)%nat eqn:E.
    + apply Nat.leb_le in E. split_and!; [done|auto|]. intros _. split; [done|lia].
    + apply Nat.leb_gt in E. specialize (IHs files Hlen).
      destruct (parse_playlist f0 sub files) as [files1|code msg]; cbn [bind].
      * destruct IHs as (Hrs & -> & Hb1).
        specialize (IHr (files ++ ((fun n => with_filename n f0) <$> playlist_names sub))).
        rewrite length_app, length_fmap in IHr. specialize (IHr Hb1).
        destruct (parse_playlist f0 rest _) as [files2|code msg].
        -- destruct IHr as (Hrr & -> & Hb2). cbn [playlist_names].
           rewrite fmap_app, app_assoc, Hrs, Hrr. split_and!; [done..|].
           rewrite length_app. lia.
        -- destruct IHr as (-> & Hm & Hb2). split_and!; [done..|].
           rewrite Hrs. cbn [andb]. intros Hrr. destruct (Hb2 Hrr) as [-> Hb'].
           split; [done|]. cbn [playlist_names]. rewrite length_app. lia.
      * destruct IHs as (-> & Hm & Hb1). split_and!; [done..|].
        intros [Hrs _]%andb_true_iff. destruct (Hb1 Hrs) as [-> Hb'].
        split; [done|]. cbn [playlist_names]. rewrite length_app. lia.
  - split_and!; [done|auto|done].
  - split_and!; [done|auto|done].
Qed.

(** X17.  Where the playlist and the playlists it names can be opened and
    read, it is expanded in place and in order, the playlists it names in
    their place; every file it names gets the options given before the
    playlist and differs from [f0] in its name only.  [parse_playlist]
    returns only for such a playlist and if [files] has room for the
    names; it leaves through [exit(1)] otherwise, for too many file names
    or for a playlist that it cannot open or read. *)
Theorem parse_playlist_expands (f0 : file_info) (pl : playlist) (files : list file_info) :
  (length files <= MAX_FILES)%nat ->
  match parse_playlist f0 pl files with
  | Ret files' =>
      readable pl = true
      /\ files' = files ++ ((fun n => with_filename n f0) <$> playlist_names pl)
      /\ (length files + length (playlist_names pl) <= MAX_FILES)%nat
  | Exit code msg =>
      code = 1
      /\ (msg = too_many_filenames \/ msg = cannot_open_playlist
          \/ msg = error_reading_playlist)
      /\ (readable pl = true ->
          msg = too_many_filenames
          /\ (MAX_FILES <= length files + length (playlist_names pl))%nat)
  end.
Proof. apply parse_playlist_run. Qed.

Lemma read_comment_file_exit (file : file_read) code msg :
  read_comment_file file = Exit code msg -> code = 1.
Proof.
  destruct file as [| |bytes]; cbn [read_comment_file]; [by intros [= <- _]..|].
  destruct (length bytes =? 0)%nat; [by intros [= <- _]|discriminate].
Qed.

Lemma doopt_globals (o : option_t) (f f' : file_info) (g g' : globals) (isnull : bool) :
  doopt o f g = Ret (isnull, f', g') -> play g' = play g /\ rec g' = rec g.
Proof.
  destruct o; cbn [doopt usage];
    try (destruct (read_comment_file file); cbn [bind]);
    repeat match goal with
           | |- context [match ?x with _ => _ end] => destruct x
           end;
    try discriminate; by intros [= <- <- <-].
Qed.

Lemma doopt_exit (o : option_t) (f : file_info) (g : globals) code msg :
  doopt o f g = Exit code msg -> code = 0 \/ code = 1.
Proof.
  destruct o; cbn [doopt usage];
    try (destruct (read_comment_file file) eqn:Er; cbn [bind];
         [discriminate|intros [= <- _]; right; by eapply read_comment_file_exit]);
    repeat match goal with
           | |- context [match ?x with _ => _ end] => destruct x
           end;
    try discriminate; intros [= <- _]; auto.
Qed.

Lemma parse_filenames_bound (args : list arg) :
  forall cur g files,
    (length files <= MAX_FILES)%nat ->
    (cur <> None -> (length files < MAX_FILES)%nat) ->
    match parse_filenames args cur g files with
    | Ret (cur', g', files') =>
        (length files' <= MAX_FILES)%nat
        /\ (cur' <> None -> (length files' < MAX_FILES)%nat)
        /\ play g' = play g /\ rec g' = rec g
    | Exit code _ => code = 0 \/ code = 1
    end.
Proof.
  induction args as [|a rest IH]; intros cur g files Hlen Hcur; cbn [parse_filenames].
  - auto.
  - assert (Hf : match cur with
                 | Some f => Ret f
                 | None => if (MAX_FILES <=? length files)%nat
                           then Exit 1 too_many_filenames else Ret new_file
                 end = Exit 1 too_many_filenames
                 \/ (length files < MAX_FILES)%nat
                    /\ exists f, match cur with
                         | Some f => Ret f
                         | None => if (MAX_FILES <=? length files)%nat
                                   then Exit 1 too_many_filenames else Ret new_file
                         end = Ret f).
    { destruct cur as [f|].
      - right. split; [apply Hcur; discriminate|eauto].
      - destruct (MAX_FILES <=? length files)%nat eqn:E; [by left|].
        apply Nat.leb_gt in E. right. eauto. }
    destruct Hf as [-> | [Hlt [f ->]]]; cbn [bind]; [by right|].
    destruct a as [o|n|n pl].
    + destruct (doopt o f g) as [[[isnull f'] g']|code msg] eqn:Ed; cbn [bind].
      * destruct (doopt_globals _ _ _ _ _ _ Ed) as [Hp Hr].
        destruct isnull.
        -- specialize (IH None g' (files ++ [with_filename "-n" (with_filetype (Some "null") f')])).
           rewrite length_app in IH. cbn [length] in IH.
           specialize (IH ltac:(lia) ltac:(done)).
           destruct (parse_filenames rest None g' _) as [[[c2 g2] f2]|]; [|exact IH].
           destruct IH as (? & ? & ? & ?). repeat split; auto; congruence.
        -- specialize (IH (Some f') g' files Hlen ltac:(auto)).
           destruct (parse_filenames rest (Some f') g' files) as [[[c2 g2] f2]|]; [|exact IH].
           destruct IH as (? & ? & ? & ?). repeat split; auto; congruence.
      * by apply doopt_exit in Ed.
    + specialize (IH None g (files ++ [with_filename n f])).
      rewrite length_app in IH. cbn [length] in IH.
      exact (IH ltac:(lia) ltac:(done)).
    + pose proof (parse_playlist_run f pl files Hlen) as Hpl.
      destruct (parse_playlist f pl files) as [files1|code msg]; cbn [bind].
      * destruct Hpl as (_ & -> & Hb). apply IH; [|done].
        rewrite length_app, length_fmap. exact Hb.
      * destruct Hpl as (-> & _). by right.
Qed.

Section FilesBound.
Variable default_device : bool -> option (string * string).

(** X18.  [parse_options_and_filenames] returns with at most MAX_FILES files,
    the size of [files], so that no file is stored outside it, and leaves
    [play] and [rec] as they are; where it does not return the exit code is
    0 (after -h or --version) or 1. *)
Theorem parse_options_and_filenames_bound (args : list arg) (g : globals) :
  match parse_options_and_filenames default_device args g with
  | Ret (g', files) =>
      (length files <= MAX_FILES)%nat /\ play g' = play g /\ rec g' = rec g
  | Exit code _ => code = 0 \/ code = 1
  end.
Proof.
  unfold parse_options_and_filenames.
  pose proof (parse_filenames_bound args None g [] ltac:(simpl; unfold MAX_FILES; lia)
                ltac:(done)) as Hp.
  destruct (parse_filenames args None g []) as [[[cur g1] files1]|code msg]; cbn [bind];
    [|exact Hp].
  destruct Hp as (Hlen & Hcur & Hplay & Hrec).
  assert (Hdev : forall f r, match set_device default_device f r with
                             | Ret _ => True | Exit code _ => code = 1 end).
  { intros f r. unfold set_device. destruct (default_device r) as [[t n]|]; done. }
  destruct (play g1) eqn:Ep.
  - destruct (MAX_FILES <=? length files1)%nat eqn:E; cbn [bind]; [by right|].
    apply Nat.leb_gt in E.
    pose proof (Hdev (default new_file cur) false) as Hd.
    destruct (set_device default_device (default new_file cur) false) as [f|]; cbn [bind];
      [|by right].
    destruct (rec g1) eqn:Er.
    + destruct (MAX_FILES <=? length (files1 ++ [f]))%nat eqn:E2; [by right|].
      apply Nat.leb_gt in E2.
      pose proof (Hdev new_file true) as Hd2.
      destruct (set_device default_device new_file true) as [f2|]; cbn [bind]; [|by right].
      simpl. split; [lia|]. split; congruence.
    + rewrite length_app. simpl. split; [lia|]. split; congruence.
  - assert (Hmid : match (match cur with
                          | Some f => if file_opts_given f
                                      then usage (Some "missing filename") else Ret files1
                          | None => Ret files1
                          end) with
                   | Ret fs => fs = files1
                   | Exit code _ => code = 1
                   end).
    { destruct cur as [f|]; [|reflexivity]. destruct (file_opts_given f); reflexivity. }
    destruct (match cur with Some f => _ | None => _ end) as [fs|]; cbn [bind]; [|by right].
    subst fs. destruct (rec g1) eqn:Er.
    + destruct (MAX_FILES <=? length files1)%nat eqn:E2; [by right|].
      apply Nat.leb_gt in E2.
      pose proof (Hdev new_file true) as Hd2.
      destruct (set_device default_device new_file true) as [f2|]; cbn [bind]; [|by right].
      simpl. split; [lia|]. split; congruence.
    + split; [lia|]. split; congruence.
Qed.
End FilesBound.

(** *** The checks of [main] on the files *)

Lemma double_eqb_HUGE_VAL (d : double) : double_eqb d HUGE_VAL = true <-> d = HUGE_VAL.
Proof. destruct d; simpl; split; (discriminate || reflexivity). Qed.

Lemma check_input_options_spec (files : list file_info) :
  forall n,
    match check_input_options files n with
    | Ret _ =>
        forall j, (j < n)%nat -> (j < length files)%nat ->
          si_compression (signal (files !!! j)) = HUGE_VAL /\ comment (files !!! j) = None
    | Exit code _ =>
        code = 1
        /\ exists j, (j < n)%nat /\ (j < length files)%nat
             /\ (si_compression (signal (files !!! j)) <> HUGE_VAL
                 \/ comment (files !!! j) <> None)
    end.
Proof.
  induction files as [|f rest IH]; intros [|n]; cbn [check_input_options];
    try (intros j Hj Hl; simpl in *; lia).
  destruct (negb (double_eqb (si_compression (signal f)) HUGE_VAL)) eqn:Ec.
  { split; [reflexivity|]. exists 0%nat. simpl. split; [lia|]. split; [lia|]. left.
    intros E. apply double_eqb_HUGE_VAL in E. rewrite E in Ec. discriminate. }
  destruct (negb (bool_decide (comment f = None))) eqn:Em.
  { split; [reflexivity|]. exists 0%nat. simpl. split; [lia|]. split; [lia|]. right.
    intros E. rewrite bool_decide_eq_true_2 in Em by exact E. discriminate. }
  apply negb_false_iff in Ec, Em. apply double_eqb_HUGE_VAL in Ec.
  apply bool_decide_eq_true_1 in Em.
  specialize (IH n). destruct (check_input_options rest n).
  - intros [|j] Hj Hl; [by split|]. simpl in Hl. apply (IH j); lia.
  - destruct IH as (-> & j & Hj & Hl & Hbad). split; [reflexivity|].
    exists (S j). simpl. split; [lia|]. split; [lia|]. exact Hbad.
Qed.

(** X19.  The checks of [main] between the command line and the opening of the
    inputs: [main] goes on only with the inputs its combine method needs,
    with no compression factor and no comment given for an input and no
    volume given for the output file; every other command line ends in
    [usage] with exit code 1. *)
Theorem check_files_accepts (g : globals) (files : list file_info) :
  match check_files g files with
  | Ret input_count =>
      input_count = (length files - 1)%nat
      /\ (required_inputs (combine_method g) <= input_count)%nat
      /\ (forall j, (j < input_count)%nat ->
            si_compression (signal (files !!! j)) = HUGE_VAL
            /\ comment (files !!! j) = None)
      /\ volume (files !!! input_count) = HUGE_VAL
  | Exit code _ => code = 1
  end.
Proof.
  unfold check_files.
  assert (E : (if (length files =? 0)%nat then 0%nat else (length files - 1)%nat)
              = (length files - 1)%nat).
  { destruct (length files =? 0)%nat eqn:E0; [apply Nat.eqb_eq in E0; lia|reflexivity]. }
  rewrite E.
  destruct (_ <? _)%nat eqn:E1; [reflexivity|]. apply Nat.ltb_ge in E1.
  pose proof (check_input_options_spec files (length files - 1)) as Hc.
  destruct (check_input_options files (length files - 1)); cbn [bind]; [|apply Hc].
  destruct (negb (double_eqb (volume (files !!! (length files - 1)%nat)) HUGE_VAL)) eqn:Ev;
    [reflexivity|].
  apply negb_false_iff, double_eqb_HUGE_VAL in Ev.
  split; [reflexivity|]. split; [destruct (combine_method g); simpl in *; lia|].
  split; [|exact Ev]. intros j Hj. apply Hc; lia.
Qed.

(** *** The order in which [main] opens the inputs *)

Section OpenProofs.
Variable sox_open_read : string -> sox_signalinfo_t -> option string -> option sox_format.
Variable comment_replay_gain : string -> option double.

Lemma prepare_input_name (g : globals) (N j : nat) (files : list file_info) :
  filename (prepare_input g N j files) = filename (files !!! j)
  /\ filetype (prepare_input g N j files) = filetype (files !!! j).
Proof.
  unfold prepare_input. destruct (_ && negb _); destruct (rec g && _); done.
Qed.

Lemma opened_input (d : sox_format) (f : file_info) :
  let f' := match ft_comment d with
            | Some c => set_replay_gain comment_replay_gain c (with_desc (Some d) f)
            | None => with_desc (Some d) f
            end in
  filename f' = filename f /\ signal f' = signal f /\ desc f' = Some d
  /\ filetype f' = filetype f /\ volume f' = volume f.
Proof.
  cbn zeta. destruct (ft_comment d) as [c|]; [|done].
  unfold set_replay_gain. by destruct (comment_replay_gain c).
Qed.

Lemma open_inputs_run (g : globals) (N : nat) :
  forall (n i : nat) (opened : list string) (files : list file_info),
    (i + n = N)%nat -> (N <= length files)%nat ->
    match open_inputs sox_open_read comment_replay_gain g N i n opened files with
    | (opened', Ret files') =>
        opened' = opened ++ reverse (filename <$> take n files)
        /\ length files' = length files
        /\ (forall j, (j < n)%nat -> desc (files' !!! j) <> None)
        /\ (forall j, (n <= j)%nat -> files' !!! j = files !!! j)
    | (opened', Exit code _) =>
        code = 2
        /\ exists k, (k < n)%nat
             /\ opened' = opened ++ reverse (filename <$> drop k (take n files))
    end.
Proof.
  induction n as [|n IH]; intros i opened files Hi Hlen; cbn [open_inputs].
  - simpl. rewrite app_nil_r. repeat split; auto. intros j Hj. lia.
  - replace (N - 1 - i)%nat with n by lia.
    set (f := prepare_input g N n files).
    destruct (prepare_input_name g N n files) as [Hfn Hft]. fold f in Hfn, Hft.
    assert (Htake : take (S n) files = take n files ++ [files !!! n]).
    { apply take_S_r. apply list_lookup_lookup_total_lt. lia. }
    destruct (sox_open_read (filename f) (signal f) (filetype f)) as [d|].
    + destruct (opened_input d f) as (Hn' & Hs' & Hd' & _).
      set (f' := match ft_comment d with
                 | Some c => set_replay_gain comment_replay_gain c (with_desc (Some d) f)
                 | None => with_desc (Some d) f
                 end) in *.
      specialize (IH (S i) (opened ++ [filename f']) (<[n := f']> files) ltac:(lia)
                    ltac:(by rewrite length_insert)).
      destruct (open_inputs _ _ g N (S i) n _ _) as [opened' [files'|code msg]].
      * destruct IH as (Ho & Hl & Hdesc & Hk). rewrite length_insert in Hl.
        rewrite take_insert_ge in Ho by lia.
        split; [|split; [exact Hl|split]].
        -- rewrite Ho, Htake, fmap_app, reverse_app, <- app_assoc. simpl.
           by rewrite Hn', Hfn.
        -- intros j Hj. destruct (decide (j = n)) as [->|Hne]; [|apply Hdesc; lia].
           rewrite Hk by lia. rewrite list_lookup_total_insert_eq by lia.
           by rewrite Hd'.
        -- intros j Hj. rewrite Hk by lia. by rewrite list_lookup_total_insert_ne by lia.
      * destruct IH as (-> & k & Hk & Ho). split; [reflexivity|].
        exists k. split; [lia|]. rewrite take_insert_ge in Ho by lia.
        rewrite Ho, Htake, drop_app_le by (rewrite length_take; lia).
        rewrite fmap_app, reverse_app, <- app_assoc. simpl. by rewrite Hn', Hfn.
    + split; [reflexivity|]. exists n. split; [lia|].
      rewrite Htake, drop_app_length' by (rewrite length_take; lia).
      simpl. by rewrite Hfn.
Qed.

(** X20.  [main] opens the inputs last input first.  Where every input opens,
    the names passed to [sox_open_read] are the names of the inputs in
    reverse order and every input has its descriptor; where one does not
    open, the exit code is 2, the names passed are those of the inputs
    from the last down to the one that did not open, and the inputs before
    it are not opened. *)
Theorem open_inputs_reverse_order (g : globals) (N : nat) (files : list file_info) :
  (N <= length files)%nat ->
  match open_inputs sox_open_read comment_replay_gain g N 0 N [] files with
  | (opened, Ret files') =>
      opened = reverse (filename <$> take N files)
      /\ length files' = length files
      /\ (forall j, (j < N)%nat -> desc (files' !!! j) <> None)
      /\ (forall j, (N <= j)%nat -> files' !!! j = files !!! j)
  | (opened, Exit code _) =>
      code = 2
      /\ exists k, (k < N)%nat /\ opened = reverse (filename <$> drop k (take N files))
  end.
Proof.
  intros Hlen. exact (open_inputs_run g N N 0 [] files (Nat.add_0_l N) Hlen).
Qed.

Lemma open_inputs_rec (g : globals) (N : nat) :
  rec g = true ->
  forall (n i : nat) (opened opened' : list string) (files files' : list file_info),
    (1 <= n)%nat -> (i + n = N)%nat -> (N < length files)%nat ->
    open_inputs sox_open_read comment_replay_gain g N i n opened files
    = (opened', Ret files') ->
    let src := if (1 <? N)%nat then ft_signal (desc_of (files' !!! 1%nat))
               else signal (files' !!! 1%nat) in
    si_rate (signal (files' !!! 0%nat)) = si_rate src
    /\ si_channels (signal (files' !!! 0%nat)) = si_channels src.
Proof.
  intros Hrec. induction n as [|n IH]; intros i opened opened' files files' Hn Hi Hlen;
    [lia|].
  cbn [open_inputs]. replace (N - 1 - i)%nat with n by lia.
  set (f := prepare_input g N n files).
  destruct (sox_open_read (filename f) (signal f) (filetype f)) as [d|]; [|discriminate].
  destruct (opened_input d f) as (_ & Hs' & _).
  set (f' := match ft_comment d with
             | Some c => set_replay_gain comment_replay_gain c (with_desc (Some d) f)
             | None => with_desc (Some d) f
             end) in *.
  destruct n as [|n].
  - cbn [open_inputs]. intros [= _ <-]. cbn zeta.
    rewrite list_lookup_total_insert_eq by lia.
    rewrite list_lookup_total_insert_ne by lia.
    rewrite Hs'. unfold f, prepare_input. rewrite Hrec. cbn [andb Nat.eqb].
    destruct (1 <? N)%nat; split; reflexivity.
  - intros Ho. eapply (IH (S i)); [lia|lia| |exact Ho]. rewrite length_insert. lia.
Qed.

(** X21.  As rec, [main] opens the recording device, the first input, last and
    with the rate and the number of channels of the second input as it has
    been opened; where the device is the only input, with those given for
    the output file. *)
Theorem rec_device_signal (g : globals) (N : nat) (opened : list string)
    (files files' : list file_info) :
  rec g = true -> (1 <= N < length files)%nat ->
  open_inputs sox_open_read comment_replay_gain g N 0 N [] files = (opened, Ret files') ->
  let src := if (1 <? N)%nat then ft_signal (desc_of (files' !!! 1%nat))
             else signal (files !!! 1%nat) in
  si_rate (signal (files' !!! 0%nat)) = si_rate src
  /\ si_channels (signal (files' !!! 0%nat)) = si_channels src
  /\ exists before, opened = before ++ [filename (files !!! 0%nat)].
Proof.
  intros Hrec HN Ho. cbn zeta.
  pose proof (open_inputs_run g N N 0 [] files (Nat.add_0_l N) ltac:(lia)) as Hrun.
  rewrite Ho in Hrun. destruct Hrun as (Hop & _ & _ & Hk).
  destruct (open_inputs_rec g N Hrec N 0 [] opened files files' ltac:(lia) ltac:(lia)
              ltac:(lia) Ho) as [Hr Hc].
  assert (Hsrc : (if (1 <? N)%nat then ft_signal (desc_of (files' !!! 1%nat))
                  else signal (files' !!! 1%nat))
                 = (if (1 <? N)%nat then ft_signal (desc_of (files' !!! 1%nat))
                    else signal (files !!! 1%nat))).
  { destruct (1 <? N)%nat eqn:E; [reflexivity|]. apply Nat.ltb_ge in E.
    rewrite Hk by lia. reflexivity. }
  rewrite Hsrc in Hr, Hc. split; [exact Hr|]. split; [exact Hc|].
  rewrite Hop. simpl.
  destruct files as [|f0 rest]; [simpl in HN; lia|].
  destruct N as [|N]; [lia|]. cbn [take fmap list_fmap]. rewrite reverse_cons.
  eexists. reflexivity.
Qed.
End OpenProofs.

(** *** [read_comment_file] *)

Lemma strip_newlines_app (c : list Ascii.ascii) (m : nat) :
  strip_newlines (c ++ replicate m newline) (length c + m) = strip_newlines c (length c).
Proof.
  induction m as [|m IH].
  - by rewrite Nat.add_0_r, app_nil_r.
  - replace (length c + S m)%nat with (S (length c + m)) by lia.
    cbn [strip_newlines]. unfold byte_at.
    rewrite app_nth2 by lia.
    replace (length c + m - length c)%nat with m by lia.
    assert (Hn : nth m (replicate (S m) newline) NUL = newline).
    { clear. induction m as [|m IH]; [reflexivity|exact IH]. }
    rewrite Hn, Ascii.eqb_refl.
    assert (Hpre : forall k, (k <= length c + m)%nat ->
              strip_newlines (c ++ replicate (S m) newline) k
              = strip_newlines (c ++ replicate m newline) k).
    { induction k as [|k IHk]; intros Hk; [reflexivity|].
      cbn [strip_newlines]. unfold byte_at.
      assert (Hb : nth k (c ++ replicate (S m) newline) NUL
                   = nth k (c ++ replicate m newline) NUL).
      { destruct (decide (k < length c)%nat).
        - by rewrite !app_nth1 by lia.
        - rewrite !app_nth2 by lia.
          assert (Hr : forall n i, (i < n)%nat -> nth i (replicate n newline) NUL = newline).
          { clear. induction n as [|n IH]; intros [|i] Hi; simpl; try lia; [reflexivity|].
            apply IH. lia. }
          rewrite !Hr by lia. reflexivity. }
      rewrite Hb. rewrite IHk by lia. reflexivity. }
    rewrite Hpre by lia. exact IH.
Qed.

Lemma strip_newlines_none (c : list Ascii.ascii) (x : Ascii.ascii) :
  x <> newline -> strip_newlines (c ++ [x]) (length (c ++ [x])) = length (c ++ [x]).
Proof.
  intros Hx. rewrite length_app. simpl. rewrite Nat.add_1_r. cbn [strip_newlines].
  unfold byte_at. rewrite app_nth2 by lia. rewrite Nat.sub_diag. simpl.
  apply Ascii.eqb_neq in Hx. by rewrite Hx.
Qed.

Lemma c_string_id (c : list Ascii.ascii) : Forall (fun x => x <> NUL) c -> c_string c = c.
Proof.
  induction 1 as [|x c Hx _ IH]; [reflexivity|]. simpl.
  apply Ascii.eqb_neq in Hx. by rewrite Hx, IH.
Qed.

(** X22.  A comment file that holds a text with no NUL that does not end in a
    newline, followed by any number of newlines, is read as that text; an
    empty file is an error, and any error ends in [exit(1)]. *)
Theorem read_comment_file_strips (c : list Ascii.ascii) (m : nat) :
  Forall (fun x => x <> NUL) c ->
  (forall c' x, c = c' ++ [x] -> x <> newline) ->
  read_comment_file (Holds (c ++ replicate m newline))
  = if (length c + m =? 0)%nat then Exit 1 "Error reading comment file" else Ret c.
Proof.
  intros Hnul Hend. unfold read_comment_file.
  rewrite length_app, length_replicate.
  destruct (length c + m =? 0)%nat; [reflexivity|].
  rewrite strip_newlines_app.
  assert (Hs : strip_newlines c (length c) = length c).
  { destruct (decide (c = [])) as [->|Hne]; [reflexivity|].
    destruct (exists_last Hne) as (c' & x & ->).
    apply strip_newlines_none. by eapply Hend. }
  rewrite Hs, take_app_length. by rewrite c_string_id.
Qed.

(** *** [since] and [sigint] *)

Lemma since_spec (then_ now : timeval) (secs : Q) (always_reset : bool) :
  timeval_ok then_ -> timeval_ok now ->
  fst (since then_ now secs always_reset) = true
  <-> (secs * inject_Z 1000000 <= inject_Z (elapsed_usec then_ now))%Q.
Proof.
  intros Ht Hn. unfold since, elapsed_usec, timeval_ok in *. cbn [fst].
  set (d := tv_sec now - tv_sec then_).
  set (u := tv_usec now - tv_usec then_).
  assert (Hin : (inject_Z u + inject_Z d * inject_Z 1000000 == inject_Z (d * 1000000 + u))%Q).
  { rewrite inject_Z_plus, inject_Z_mult. ring. }
  rewrite orb_true_iff, Qle_bool_iff, Hin. split; [|by right].
  intros [Hc|Hle]; [|exact Hle].
  apply Z.ltb_lt in Hc.
  pose proof (Qle_ceiling secs) as Hceil.
  assert (Hz : Qceiling secs * 1000000 <= d * 1000000 + u) by lia.
  rewrite Zle_Qle in Hz. rewrite inject_Z_mult in Hz.
  eapply Qle_trans; [|exact Hz].
  apply Qmult_le_compat_r; [exact Hceil|]. discriminate.
Qed.

Lemma Qle_bool_ext (a a' b b' : Q) :
  (a == a')%Q -> (b == b')%Q -> Qle_bool a b = Qle_bool a' b'.
Proof.
  intros Ha Hb. apply Bool.eq_true_iff_eq. rewrite !Qle_bool_iff.
  by rewrite Ha, Hb.
Qed.

(** Where the doubles are exact [since_double] is [since]. *)
Lemma since_double_exact (fl : Q -> Q) (then_ now : timeval) (secs : Q)
    (always_reset : bool) :
  rounding_ok fl -> timeval_ok then_ -> timeval_ok now ->
  exact_secs secs -> near then_ now ->
  since_double fl then_ now secs always_reset = since then_ now secs always_reset.
Proof.
  intros [Hp He] Ht Hn (k & Hk & Hkb) Hd.
  unfold since_double, since, timeval_ok, near in *.
  set (d := tv_sec now - tv_sec then_) in *.
  set (u := tv_usec now - tv_usec then_).
  assert (H53 : 2 ^ 53 = 9007199254740992) by reflexivity.
  assert (H39 : 2 ^ 39 = 549755813888) by reflexivity.
  assert (H9 : 10 ^ 9 = 1000000000) by reflexivity.
  assert (Ed : (fl (inject_Z d) == inject_Z d)%Q) by (apply He; lia).
  assert (Eu : (fl (inject_Z u) == inject_Z u)%Q) by (apply He; unfold u; lia).
  assert (Em : (fl (fl (inject_Z d) * inject_Z 1000000) == inject_Z (d * 1000000))%Q).
  { rewrite (Hp _ (inject_Z (d * 1000000))).
    - apply He. lia.
    - rewrite Ed, inject_Z_mult. reflexivity. }
  assert (Es : (fl (fl (inject_Z u) + fl (fl (inject_Z d) * inject_Z 1000000))
                == inject_Z u + inject_Z d * inject_Z 1000000)%Q).
  { rewrite (Hp _ (inject_Z (u + d * 1000000))).
    - rewrite (He (u + d * 1000000)) by (unfold u; lia).
      rewrite inject_Z_plus, inject_Z_mult. reflexivity.
    - rewrite Eu, Em, inject_Z_plus. reflexivity. }
  assert (Ek : (fl (secs * inject_Z 1000000) == secs * inject_Z 1000000)%Q).
  { assert (Hs : (secs * inject_Z 1000000 == inject_Z (k * 15625))%Q).
    { rewrite Hk. unfold Qeq, Qmult, inject_Z. cbn [Qnum Qden]. lia. }
    rewrite (Hp _ _ Hs), Hs. apply He. lia. }
  assert (Ec : negb (Qle_bool (fl (inject_Z d)) (inject_Z (Qceiling secs)))
               = (Qceiling secs <? d)).
  { rewrite (Qle_bool_ext _ (inject_Z d) _ (inject_Z (Qceiling secs)) Ed)
      by reflexivity.
    destruct (Qceiling secs <? d) eqn:E.
    - apply Z.ltb_lt in E. apply negb_true_iff, not_true_iff_false.
      rewrite Qle_bool_iff, <- Zle_Qle. lia.
    - apply Z.ltb_ge in E. apply negb_false_iff.
      rewrite Qle_bool_iff, <- Zle_Qle. lia. }
  rewrite Ec, (Qle_bool_ext _ _ _ _ Ek Es). reflexivity.
Qed.

(** X23.  Where the doubles of [since] are exact, [since] says whether at
    least [secs] seconds have gone by since [then]; it moves [then] to now
    where they have, or always if asked to. *)
Theorem since_elapsed (fl : Q -> Q) (then_ now : timeval) (secs : Q)
    (always_reset : bool) :
  rounding_ok fl -> timeval_ok then_ -> timeval_ok now ->
  exact_secs secs -> near then_ now ->
  (fst (since_double fl then_ now secs always_reset) = true
   <-> (secs * inject_Z 1000000 <= inject_Z (elapsed_usec then_ now))%Q)
  /\ snd (since_double fl then_ now secs always_reset)
     = if fst (since_double fl then_ now secs always_reset) || always_reset
       then now else then_.
Proof.
  intros Hfl Ht Hn Hs Hd. rewrite since_double_exact by assumption.
  split; [by apply since_spec|reflexivity].
Qed.

(** X24.  With the progress shown, in a sequence or a concatenation, the second
    of two interrupts is a user abort if it comes less than a second after
    the first; if it comes later it sets [user_skip], as the first may have
    done, and leaves [user_abort] as it is. *)
Theorem sigint_twice (combine_method : combine_method_t) (now1 now2 : timeval)
    (st : signal_state) :
  timeval_ok now1 -> timeval_ok now2 ->
  combine_method = sox_sequence \/ combine_method = sox_concatenate ->
  let st1 := sigint true combine_method now1 SIGINT st in
  let st2 := sigint true combine_method now2 SIGINT st1 in
  if elapsed_usec now1 now2 <? 1000000
  then sg_user_abort st2 = true /\ user_skip st2 = user_skip st1
  else sg_user_abort st2 = sg_user_abort st1 /\ user_skip st2 = true.
Proof.
  intros H1 H2 Hcm. cbn zeta.
  assert (Hrank : (combine_rank combine_method <=? combine_rank sox_concatenate) = true)
    by (by destruct Hcm as [-> | ->]).
  assert (Hthen : sg_then (sigint true combine_method now1 SIGINT st) = now1).
  { unfold sigint. rewrite Hrank. cbn [andb Z.eqb SIGINT Pos.eqb].
    unfold since. rewrite orb_true_r. by destruct (_ || _). }
  set (st1 := sigint true combine_method now1 SIGINT st) in *.
  assert (Hst2 : sigint true combine_method now2 SIGINT st1
                 = if fst (since now1 now2 1 true)
                   then {| sg_then := snd (since now1 now2 1 true); user_skip := true;
                           sg_user_abort := sg_user_abort st1 |}
                   else {| sg_then := snd (since now1 now2 1 true);
                           user_skip := user_skip st1; sg_user_abort := true |}).
  { unfold sigint at 1. rewrite Hrank. cbn [andb Z.eqb SIGINT Pos.eqb].
    rewrite Hthen. by destruct (since now1 now2 1 true) as [[|] t]. }
  rewrite Hst2.
  pose proof (since_spec now1 now2 1 true H1 H2) as Hs.
  rewrite Qmult_1_l, <- Zle_Qle in Hs.
  destruct (fst (since now1 now2 1 true)).
  - assert (1000000 <= elapsed_usec now1 now2) by (by apply Hs).
    destruct (elapsed_usec now1 now2 <? 1000000) eqn:E; [apply Z.ltb_lt in E; lia|].
    split; reflexivity.
  - destruct (elapsed_usec now1 now2 <? 1000000) eqn:E; [split; reflexivity|].
    apply Z.ltb_ge in E. assert (false = true) by (by apply Hs). discriminate.
Qed.

(** *** [set_replay_gain] *)

Lemma skip_line_length (p : list Ascii.ascii) : (length (skip_line p) <= length p)%nat.
Proof.
  induction p as [|c p IH]; cbn [skip_line]; [lia|].
  destruct (Ascii.eqb c newline); cbn [length]; lia.
Qed.

Lemma skip_blank_length (p : list Ascii.ascii) : (length (skip_blank p) <= length p)%nat.
Proof.
  induction p as [|c p IH]; cbn [skip_blank]; [lia|].
  destruct (is_blank c); cbn [length]; lia.
Qed.

(** A round of the scan that does not end it moves [p] on. *)
Lemma skip_moves_on (p : list Ascii.ascii) :
  p <> [] -> (length (skip_blank (skip_line p)) < length p)%nat.
Proof.
  destruct p as [|c p]; [done|]. intros _. cbn [skip_line].
  destruct (Ascii.eqb c newline) eqn:Ec.
  - apply Ascii.eqb_eq in Ec. subst c. cbn [skip_blank].
    change (is_blank newline) with true. cbn [length].
    pose proof (skip_blank_length p). lia.
  - pose proof (skip_blank_length (skip_line p)). pose proof (skip_line_length p).
    cbn [length]. lia.
Qed.

(** More rounds than the length of [p] change nothing. *)
Lemma scan_comment_from_enough (target : list Ascii.ascii) (rounds : nat) :
  forall rounds' p, (length p < rounds)%nat -> (length p < rounds')%nat ->
    scan_comment_from rounds target p = scan_comment_from rounds' target p.
Proof.
  induction rounds as [|a IHa]; intros b p Ha Hb; [lia|].
  destruct b as [|b]; [lia|]. cbn [scan_comment_from].
  destruct (starts_nocase target p); [done|].
  destruct (skip_blank (skip_line p)) as [|c q] eqn:Eq; [done|].
  assert ((length (c :: q) < length p)%nat).
  { rewrite <- Eq. apply skip_moves_on. intros ->. discriminate. }
  apply IHa; lia.
Qed.

Lemma starts_nocase_line (target l rest : list Ascii.ascii) :
  Forall (fun t => Ascii.eqb (tolower newline) (tolower t) = false) target ->
  starts_nocase target (l ++ newline :: rest) = starts_nocase target l.
Proof.
  intros Ht. revert l. induction Ht as [|t target Hn _ IH]; intros l; [done|].
  destruct l as [|c l]; cbn [app starts_nocase].
  - by rewrite Hn.
  - by rewrite IH.
Qed.

Lemma skip_line_text (l rest : list Ascii.ascii) :
  Forall (fun c => c <> newline) l ->
  skip_line l = [] /\ skip_line (l ++ newline :: rest) = newline :: rest.
Proof.
  induction 1 as [|c l Hc _ IH]; cbn [app skip_line].
  - split; [done|]. by rewrite Ascii.eqb_refl.
  - apply Ascii.eqb_neq in Hc. by rewrite Hc.
Qed.

Lemma join_lines_cons (l l2 : list Ascii.ascii) (ls : list (list Ascii.ascii)) :
  join_lines (l :: l2 :: ls) = l ++ newline :: join_lines (l2 :: ls).
Proof. reflexivity. Qed.

Lemma join_lines_head (l : list Ascii.ascii) (ls : list (list Ascii.ascii)) :
  text_line l -> exists c q, join_lines (l :: ls) = c :: q /\ is_blank c = false.
Proof.
  intros (_ & c & l' & -> & Hc). destruct ls as [|l2 ls].
  - by exists c, l'.
  - rewrite join_lines_cons. by eexists c, _.
Qed.

(** On a comment of lines the scan finds the first line that starts with
    the target. *)
Lemma scan_comment_lines (target : list Ascii.ascii) (lines : list (list Ascii.ascii)) :
  target <> [] ->
  Forall (fun t => Ascii.eqb (tolower newline) (tolower t) = false) target ->
  Forall text_line lines ->
  scan_comment target (join_lines lines) = first_tagged target lines.
Proof.
  intros Hne Ht Hl. unfold scan_comment.
  generalize (S (length (join_lines lines))), (Nat.lt_succ_diag_r (length (join_lines lines))).
  intros rounds. revert rounds.
  induction Hl as [|l ls Hline Hls IH]; intros rounds Hr.
  - destruct rounds as [|rounds]; [done|]. destruct target as [|t target]; done.
  - destruct rounds as [|rounds]; [lia|]. cbn [scan_comment_from first_tagged].
    destruct ls as [|l2 ls].
    + cbn [join_lines]. destruct (starts_nocase target l); [done|].
      destruct (skip_line_text l [] (proj1 Hline)) as [-> _]. done.
    + rewrite join_lines_cons, starts_nocase_line by done.
      destruct (starts_nocase target l); [done|].
      destruct (skip_line_text l (join_lines (l2 :: ls)) (proj1 Hline)) as [_ ->].
      cbn [skip_blank]. change (is_blank newline) with true. cbn match.
      destruct (join_lines_head l2 ls (Forall_inv Hls)) as (c & q & Eq & Hc).
      rewrite Eq. cbn [skip_blank]. rewrite Hc. rewrite <- Eq.
      apply IH. rewrite join_lines_cons, length_app in Hr. cbn [length] in Hr. lia.
Qed.

Lemma rg_target_ok (rg : rg_mode) :
  rg_target rg <> []
  /\ Forall (fun t => Ascii.eqb (tolower newline) (tolower t) = false) (rg_target rg).
Proof. destruct rg; (split; [discriminate|]); vm_compute; repeat constructor. Qed.

(** X27.  In a comment of lines, [set_replay_gain] takes the gain from the first
    line that starts with the tag of the replay-gain mode, in upper or lower
    case, wherever a line with the other tag stands; where no line has the
    tag of the mode it takes the gain from the first line with the other
    tag; it stores no gain where there is neither, and none when the mode
    is off. *)
Theorem find_replay_gain_prefers (atof : list Ascii.ascii -> double) (rg : rg_mode)
    (lines : list (list Ascii.ascii)) :
  Forall text_line lines ->
  find_replay_gain atof rg (join_lines lines)
  = match rg with
    | RG_off => None
    | _ =>
        match first_tagged (rg_target rg) lines with
        | Some rest => Some (atof rest)
        | None => atof <$> first_tagged (rg_target (rg_other rg)) lines
        end
    end.
Proof.
  intros Hl. unfold find_replay_gain.
  destruct rg; [done| |].
  - destruct (rg_target_ok RG_track) as [H1 H2], (rg_target_ok RG_album) as [H3 H4].
    rewrite !scan_comment_lines by done.
    destruct (first_tagged (rg_target RG_track) lines); [done|].
    cbn [rg_other]. by destruct (first_tagged (rg_target RG_album) lines).
  - destruct (rg_target_ok RG_track) as [H1 H2], (rg_target_ok RG_album) as [H3 H4].
    rewrite !scan_comment_lines by done.
    destruct (first_tagged (rg_target RG_album) lines); [done|].
    cbn [rg_other]. by destruct (first_tagged (rg_target RG_track) lines).
Qed.

(** ** The driver on concrete inputs *)

#[local] Existing Instance platform32.
#[local] Existing Instance libsox_list.

Lemma platform32_ok : platform_ok.
Proof. unfold platform_ok. simpl. lia. Qed.

Lemma flow_nothing_ok : flow_ok flow_nothing.
Proof.
  intros p c ibuf isamp osamp Hi Ho. unfold flow_nothing. cbn [fr_isamp fr_obuf].
  rewrite length_take. lia.
Qed.

Lemma flow_finished_ok : flow_ok flow_finished.
Proof. intros p c ibuf isamp osamp Hi Ho. simpl. lia. Qed.

Lemma drain_nothing_ok : drain_ok drain_nothing.
Proof. intros p c osamp Ho. simpl. lia. Qed.

Lemma libsox_list_ok : libsox_ok.
Proof.
  split; [exact flow_nothing_ok|]. split; [exact drain_nothing_ok|].
  intros d buf. simpl. lia.
Qed.

Lemma libsox_list_names_ok : libsox_names_ok.
Proof. split; [intros n|intros e i o m]; reflexivity. Qed.

(** A stage of the example chains is in order. *)
Lemma example_stage_ok (e : sox_effect Z) :
  (h_flow (h e) = None \/ h_flow (h e) = Some flow_finished) ->
  h_drain (h e) = None ->
  0 <= odone e -> odone e <= olen e -> olen e <= 32 ->
  stage_ok e.
Proof.
  intros Hf Hd H0 H1 H2. split; [split|].
  - destruct Hf as [-> | ->]; [exact flow_nothing_ok|exact flow_finished_ok].
  - rewrite Hd. exact drain_nothing_ok.
  - unfold buffer_ok. simpl. lia.
Qed.

Lemma copy_chain_ok : sched_ok copy_chain.
Proof.
  unfold sched_ok. simpl.
  repeat constructor; apply example_stage_ok; simpl; auto; lia.
Qed.

Lemma finished_chain_ok : sched_ok finished_chain.
Proof.
  unfold sched_ok. simpl.
  repeat constructor; apply example_stage_ok; simpl; auto; lia.
Qed.

(** C5: an effect that runs as twins, with 1 clip on the left and 2 on the
    right, has 3 clips; [stop_effects] reports and [total_clips] counts 2,
    the clips of the left instance twice. *)
Theorem twin_clips_counted_left_twice :
  clips (efftab twin_table !!! 1%nat) + clips (efftabR twin_table !!! 1%nat) = 3
  /\ snd (stop_effects twin_table) = [(Some "vol", 2)]
  /\ total_clips [] 0 0 twin_table = 2.
Proof. vm_compute. auto. Qed.

(** C9: a command line of 34 file names, 33 inputs and an output, is
    accepted and passes the checks of [main], with more inputs than
    MAX_INPUT_FILES; one more name is one too many. *)
Theorem thirty_three_inputs_accepted :
  exists files,
    parse_options_and_filenames alsa_device (file_names 34) sox_globals
    = Ret (sox_globals, files)
    /\ check_files sox_globals files = Ret 33%nat
    /\ (MAX_INPUT_FILES < 33)%nat
    /\ parse_options_and_filenames alsa_device (file_names 35) sox_globals
       = Exit 1 too_many_filenames.
Proof.
  eexists. split; [vm_compute; reflexivity|].
  split; [vm_compute; reflexivity|]. split; [unfold MAX_INPUT_FILES; lia|].
  vm_compute. reflexivity.
Qed.

(** C4: fourteen effects of the user, as many as [parse_effects] admits,
    with a combiner that has more channels and a higher rate than the
    output.  The chain claimed has the default mixer, the default
    resampler and the fourteen effects after the input entry, 17 entries
    in all, one more than [efftab] and [efftabR] have: the builder stores
    the last effect of the user at [efftab[16]], past the end of the
    table. *)
Theorem fourteen_effects_overrun :
  length fourteen_effects = MAX_USER_EFF
  /\ length (efftab empty_table) = MAX_EFF
  /\ length (efftabR empty_table) = MAX_EFF
  /\ expected_chain stereo half_rate_mono (first_effects fourteen_effects 14)
     = [Some "mixer"; Some "resample"] ++ replicate 14 (Some "vol")
  /\ build_effects_table stereo half_rate_mono fourteen_effects 14 empty_table
     = Ret (PastEnd MAX_EFF).
Proof. vm_compute. auto 10. Qed.

(** *** The theorems at concrete inputs *)

Lemma mix_block_saturating_sum_witness :
  let st := combine_block two_inputs 2 [2; 1] [[10; 20; 30; 40]; [2147483647]]
              sox_mix 2 2 (replicate 4 0) 0 in
  (forall ws s, 0 <= ws < 2 -> 0 <= s < 2 ->
     cs_obuf st !! Z.to_nat (ws * 2 + s)
     = Some (saturating_sum
               (contributions two_inputs 2 [2; 1] [[10; 20; 30; 40]; [2147483647]] ws s)))
  /\ cs_mixing_clips st
     = sz (0 + block_saturations
                 (contributions two_inputs 2 [2; 1] [[10; 20; 30; 40]; [2147483647]])
                 (Z.to_nat 2) (Z.to_nat 2)).
Proof.
  apply (mix_block_saturating_sum two_inputs 2 [2; 1] [[10; 20; 30; 40]; [2147483647]]
           2 2 (replicate 4 0) 0).
  - intros i Hi. destruct i as [|[|i]]; [vm_compute; discriminate..|lia].
  - simpl. lia.
  - lia.
  - lia.
  - simpl. lia.
Defined.

Lemma flow_round_buffers_witness :
  match flow_effect_out_round copy_chain with
  | Again s' | Leaves s' =>
      (forall e, (e < neffects (sc_tab s'))%nat -> buffer_ok (eff s' e))
      /\ (forall e, (input_eff s' <= e < neffects (sc_tab s'))%nat ->
            odone (eff s' e) = olen (eff s' e) ->
            odone (eff s' e) = 0 /\ olen (eff s' e) = 0)
      /\ sched_ok s' /\ neffects (sc_tab s') = neffects (sc_tab copy_chain)
  | Returns _ s' =>
      (forall e, (e < neffects (sc_tab s'))%nat -> buffer_ok (eff s' e))
      /\ sched_ok s' /\ neffects (sc_tab s') = neffects (sc_tab copy_chain)
  | Exits code _ => code = 2
  | OutOfFuel => False
  end.
Proof.
  apply (flow_round_buffers platform32_ok libsox_list_ok copy_chain).
  - exact copy_chain_ok.
  - simpl. lia.
Defined.

Lemma open_write_length_predicted_witness :
  132300 = predicted_length sox_concatenate (first_files stereo_inputs 2)
             (first_effects (@nil (sox_effect Z)) 0).
Proof.
  apply (open_write_length_predicted sox_concatenate stereo_inputs 2 0 [] 0 132300).
  - vm_compute. split; discriminate.
  - vm_compute. reflexivity.
Defined.

(** A chain that fits: a stereo combiner at 44100 Hz, a mono output at
    22050 Hz and one effect of the user. *)
Lemma build_effects_table_example :
  exists t,
    build_effects_table stereo half_rate_mono [effect "vol" (handlers 0 None) 0] 1
      empty_table = Ret (Within t)
    /\ name <$> chain t = [Some "mixer"; Some "resample"; Some "vol"]
    /\ neffects t = 4%nat.
Proof. eexists. vm_compute. auto. Qed.

Lemma expected_chain_example :
  expected_chain stereo half_rate_mono (first_effects [effect "vol" (handlers 0 None) 0] 1)
  = [Some "mixer"; Some "resample"; Some "vol"].
Proof. vm_compute. reflexivity. Qed.


Lemma multiple_chan_effects_exit_witness :
  (forall ofile_signal,
     build_effects_table stereo ofile_signal two_chan_effects 2 empty_table
     = Exit 2 multiple_chan_message)
  /\ exists msg,
       process_setup (open_stereo "out.wav" mono None) stereo two_chan_effects 2 empty_table
       = ([], Exit 2 msg).
Proof.
  apply (multiple_chan_effects_exit (open_stereo "out.wav" mono None) stereo
           two_chan_effects 2 empty_table).
  vm_compute. reflexivity.
Defined.

Lemma twins_interleave_witness :
  olen (eff (snd (flow_split 1 twin_chain)) 1) = 4
  /\ obuf (eff (snd (flow_split 1 twin_chain)) 1) !! 0%nat = Some 1
  /\ obuf (eff (snd (flow_split 1 twin_chain)) 1) !! 1%nat = Some 2
  /\ obuf (eff (snd (flow_split 1 twin_chain)) 1) !! 2%nat = Some 3
  /\ obuf (eff (snd (flow_split 1 twin_chain)) 1) !! 3%nat = Some 4.
Proof.
  destruct (twins_interleave 1 twin_chain) as [[Hlen Hpairs] _].
  - simpl. lia.
  - split; [rewrite Hlen; vm_compute; reflexivity|].
    assert (Hl : (length (fr_obuf (flow_right 1 twin_chain)) <= length (obufl twin_chain))%nat)
      by (vm_compute; lia).
    assert (Hr : (length (fr_obuf (flow_right 1 twin_chain)) <= length (obufr twin_chain))%nat)
      by (vm_compute; lia).
    assert (Hroom : (Z.to_nat (olen (eff twin_chain 1))
                     + 2 * length (fr_obuf (flow_right 1 twin_chain))
                     <= length (obuf (eff twin_chain 1)))%nat)
      by (vm_compute; lia).
    assert (H0 : (0 < length (fr_obuf (flow_right 1 twin_chain)))%nat) by (vm_compute; lia).
    assert (H1 : (1 < length (fr_obuf (flow_right 1 twin_chain)))%nat) by (vm_compute; lia).
    destruct (Hpairs Hl Hr Hroom 0%nat H0) as (H00 & H01 & _).
    destruct (Hpairs Hl Hr Hroom 1%nat H1) as (H10 & H11 & _).
    split; [exact H00|split; [exact H01|split; [exact H10|exact H11]]].
Defined.

Lemma not_enough_inputs_witness :
  main_open alsa_device open_stereo no_replay_gain true mix_args_one sox_globals
  = ([], Exit 1 not_enough_message).
Proof.
  eapply (not_enough_inputs alsa_device open_stereo no_replay_gain mix_args_one sox_globals).
  - vm_compute. reflexivity.
  - vm_compute. lia.
Defined.

(** *** Where the code departs from the claims *)

(** C2 as it is stated fails: after a round in which the effect has taken
    the four samples of the input and is at its end, the input stage has
    [odone = olen = 4], and is not reset. *)
Lemma flow_round_input_not_reset :
  sched_ok finished_chain
  /\ exists s',
       flow_effect_out_round finished_chain = Leaves s'
       /\ (0 < neffects (sc_tab s'))%nat
       /\ odone (eff s' 0) = olen (eff s' 0)
       /\ olen (eff s' 0) = 4.
Proof.
  split; [exact finished_chain_ok|].
  eexists. split; [vm_compute; reflexivity|]. vm_compute. auto.
Qed.


(** C7 as it is stated fails: with two CHAN effects the exit code is 2,
    not 1. *)
Lemma multiple_chan_effects_exit_code :
  exists code msg,
    process_setup (open_stereo "out.wav" mono None) stereo two_chan_effects 2 empty_table
    = ([], Exit code msg)
    /\ code <> 1.
Proof. do 2 eexists. split; [vm_compute; reflexivity|]. discriminate. Qed.

(** C8 as it is stated fails: with three samples to take, the left twin
    gives two samples and the right twin one; [flow_effect] succeeds, moves
    [olen] by three and has put one pair into the buffer. *)
Lemma twins_unequal_not_detected :
  exists s',
    flow_effect 1 odd_twin_chain = Ret (SOX_SUCCESS, s')
    /\ length (fr_obuf (flow_left 1 odd_twin_chain)) = 2%nat
    /\ length (fr_obuf (flow_right 1 odd_twin_chain)) = 1%nat
    /\ olen (eff s' 1) = 3
    /\ take 3 (obuf (eff s' 1)) = [1; 2; 0].
Proof. eexists. split; [vm_compute; reflexivity|]. vm_compute. auto. Qed.

(** *** More of the driver at concrete inputs *)

Lemma libsox_short_takes (d buf : list Z) :
  0 <= snd (@sox_write Z (list Z) libsox_short d buf) <= Z.of_nat (length buf)
  /\ fst (@sox_write Z (list Z) libsox_short d buf)
     = d ++ take (Z.to_nat (snd (@sox_write Z (list Z) libsox_short d buf))) buf.
Proof.
  cbn [sox_write libsox_short fst snd]. rewrite Nat2Z.id, length_take. split; [lia|].
  f_equal. rewrite <- take_take, firstn_all. reflexivity.
Qed.

Lemma comment_text_last (c' : list Ascii.ascii) (x : Ascii.ascii) :
  comment_text = c' ++ [x] -> x <> newline.
Proof.
  intros E. apply (f_equal reverse) in E. rewrite reverse_snoc in E.
  vm_compute in E. injection E as <- _. discriminate.
Qed.

Lemma merge_block_layout_witness :
  let block := merged_block two_inputs 2 [2; 2] [[10; 20; 30; 40]; [5; 6]] (Z.to_nat 2) in
  let st := combine_block two_inputs 2 [2; 2] [[10; 20; 30; 40]; [5; 6]]
              sox_merge 3 2 (replicate 8 0) 7 in
  cs_obuf st = block ++ drop (length block) (replicate 8 0)
  /\ cs_p st = length block /\ cs_mixing_clips st = 7.
Proof.
  apply (merge_block_layout two_inputs 2 [2; 2] [[10; 20; 30; 40]; [5; 6]]
           3 2 (replicate 8 0) 7).
  - intros i Hi. destruct i as [|[|i]]; [vm_compute; discriminate..|lia].
  - vm_compute. lia.
Defined.

Lemma mix_block_in_range_witness :
  let st := combine_block two_inputs 2 [2; 1] [[10; 20; 30; 40]; [2147483647]]
              sox_mix 2 2 (replicate 6 0) 0 in
  length (cs_obuf st) = length (replicate 6 0)
  /\ (forall k, (k < Z.to_nat (2 * 2))%nat ->
        exists v, cs_obuf st !! k = Some v /\ SOX_SAMPLE_MIN <= v <= SOX_SAMPLE_MAX)
  /\ (forall k, (Z.to_nat (2 * 2) <= k)%nat -> cs_obuf st !! k = replicate 6 0 !! k).
Proof.
  apply (mix_block_in_range two_inputs 2 [2; 1] [[10; 20; 30; 40]; [2147483647]]
           2 2 (replicate 6 0) 0).
  - intros i Hi. destruct i as [|[|i]]; [vm_compute; discriminate..|lia].
  - simpl. lia.
  - lia.
  - lia.
  - simpl. lia.
Defined.

Lemma mix_small_inputs_exact_witness :
  let st := combine_block two_inputs 2 [2; 2] [[10; 20; 30; 40]; [5; 6]]
              sox_mix 2 2 (replicate 4 0) 7 in
  (forall ws s, 0 <= ws < 2 -> 0 <= s < 2 ->
     cs_obuf st !! Z.to_nat (ws * 2 + s)
     = Some (sum_list_Z (contributions two_inputs 2 [2; 2] [[10; 20; 30; 40]; [5; 6]] ws s)))
  /\ cs_mixing_clips st = 7.
Proof.
  apply (mix_small_inputs_exact two_inputs 2 [2; 2] [[10; 20; 30; 40]; [5; 6]]
           2 2 (replicate 4 0) 7).
  - intros i Hi. destruct i as [|[|i]]; [vm_compute; discriminate..|lia].
  - intros i Hi. destruct i as [|[|i]]; [vm_compute; discriminate..|lia].
  - intros i Hi. destruct i as [|[|i]]; [| |lia];
      repeat constructor; vm_compute; discriminate.
  - simpl. lia.
  - lia.
  - lia.
  - simpl. lia.
Defined.

Lemma check_inputs_agree_witness :
  match check_inputs sox_mix stereo_inputs 2 0 with
  | Ret (combiner, _, _) =>
      inputs_agree desc_rate stereo_inputs 2
      /\ (sox_mix = sox_concatenate -> inputs_agree desc_channels stereo_inputs 2)
      /\ si_rate combiner = desc_rate (stereo_inputs !!! 0%nat)
      /\ si_channels combiner =
         (if combine_method_eqb sox_mix sox_merge
          then sz (sum_list_Z (desc_channels <$> first_files stereo_inputs 2))
          else max_list_Z (desc_channels <$> first_files stereo_inputs 2))
  | Exit code _ =>
      code = 1
      /\ (~ inputs_agree desc_rate stereo_inputs 2
          \/ sox_mix = sox_concatenate /\ ~ inputs_agree desc_channels stereo_inputs 2)
  end.
Proof.
  apply (check_inputs_agree sox_mix stereo_inputs 2 0).
  - discriminate.
  - lia.
  - intros i Hi. destruct i as [|[|i]]; [vm_compute; repeat split; discriminate..|lia].
Defined.

Lemma start_all_effects_chain_witness :
  exists t' started,
    start_all_effects null_table = (SOX_SUCCESS, t', started)
    /\ (SOX_SUCCESS = SOX_SUCCESS \/ SOX_SUCCESS = SOX_EOF)
    /\ (SOX_SUCCESS = SOX_SUCCESS ->
        (1 <= neffects t' <= neffects null_table)%nat
        /\ (name <$> chain t') `sublist_of` (name <$> chain null_table)
        /\ Forall (fun e => has_flag e SOX_EFF_NULL = false) (chain t')).
Proof.
  eexists. eexists. split; [vm_compute; reflexivity|].
  eapply (start_all_effects_chain null_table).
  - vm_compute. lia.
  - vm_compute. reflexivity.
Defined.

Lemma split_join_round_trip_witness :
  let lr := split_input [9; 1; 2; 3; 4] 1 (Z.of_nat (2 * 2)) (replicate 4 0) (replicate 4 0) in
  let d := join_output (Z.of_nat 2) (fst lr) (snd lr) (replicate 8 0) 3 in
  take (2 * 2) (drop 3 d) = take (2 * 2) (drop 1 [9; 1; 2; 3; 4])
  /\ length d = length (replicate 8 0).
Proof.
  apply (split_join_round_trip [9; 1; 2; 3; 4] (replicate 8 0) (replicate 4 0)
           (replicate 4 0) 1 3 2); simpl; lia.
Defined.

Lemma write_output_in_order_witness :
  exists d' r,
    @write_output Z (list Z) libsox_short 7 false [1; 2; 3; 4; 5; 6; 7; 0] 7 0 [] = Some (d', r)
    /\ match r with
       | Some total => total = 7 /\ d' = [] ++ take (Z.to_nat 7) [1; 2; 3; 4; 5; 6; 7; 0]
       | None => exists k, 0 <= k < 7 /\ d' = [] ++ take (Z.to_nat k) [1; 2; 3; 4; 5; 6; 7; 0]
       end.
Proof.
  apply (@write_output_in_order Z (list Z) libsox_short (fun d => d) libsox_short_takes
           7 [1; 2; 3; 4; 5; 6; 7; 0] 7 []).
  - simpl. lia.
  - simpl. lia.
Defined.

Lemma prime_pump_first_with_data_witness :
  let s' := fst (prime_pump (neffects (sc_tab echo_chain) - input_eff echo_chain) echo_chain) in
  let havedata :=
    snd (prime_pump (neffects (sc_tab echo_chain) - input_eff echo_chain) echo_chain) in
  havedata = true
  /\ (forall e, (input_eff echo_chain <= e < input_eff s')%nat -> olen (eff s' e) = 0)
  /\ (forall k, (k < input_eff echo_chain)%nat -> eff s' k = eff echo_chain k)
  /\ (if havedata
      then (input_eff echo_chain <= input_eff s' < neffects (sc_tab echo_chain))%nat
           /\ olen (eff s' (input_eff s')) <> 0 /\ odone (eff s' (input_eff s')) = 0
      else (input_eff echo_chain <= input_eff s')%nat
           /\ (neffects (sc_tab echo_chain) <= input_eff s')%nat).
Proof.
  split; [vm_compute; reflexivity|].
  apply (prime_pump_first_with_data echo_chain). vm_compute. lia.
Defined.

Lemma flow_effect_out_status_witness :
  exists s',
    flow_effect_out 5 copy_chain = Returns SOX_SUCCESS s'
    /\ (input_eff copy_chain <= input_eff s')%nat
    /\ (SOX_SUCCESS = SOX_SUCCESS /\ input_eff copy_chain = 0%nat /\ input_eff s' = 0%nat
        \/ SOX_SUCCESS = SOX_EOF).
Proof.
  eexists. split; [vm_compute; reflexivity|].
  apply (flow_effect_out_status 5 copy_chain). vm_compute. reflexivity.
Defined.

Lemma drain_effect_out_eof_witness :
  exists s',
    drain_effect_out 5 echo_chain = Returns SOX_EOF s'
    /\ ofile_desc s' = [7; 8]
    /\ SOX_EOF = SOX_EOF /\ (0 < input_eff s')%nat.
Proof.
  eexists. split; [vm_compute; reflexivity|]. split; [vm_compute; reflexivity|].
  apply (drain_effect_out_eof 5 echo_chain). vm_compute. reflexivity.
Defined.

Lemma flow_effect_out_abort_witness :
  exists s',
    flow_effect_out 5 aborted_chain = Returns SOX_EOF s'
    /\ ofile_desc s' = ofile_desc aborted_chain
    /\ ((1 < neffects (sc_tab aborted_chain))%nat -> SOX_EOF = SOX_EOF).
Proof.
  eexists. split; [vm_compute; reflexivity|].
  apply (flow_effect_out_abort 5 aborted_chain).
  - reflexivity.
  - vm_compute. reflexivity.
Defined.

Lemma flow_effect_out_keeps_invariant_witness :
  exists s',
    flow_effect_out 5 copy_chain = Returns SOX_SUCCESS s'
    /\ sched_ok s' /\ neffects (sc_tab s') = neffects (sc_tab copy_chain).
Proof.
  eexists. split; [vm_compute; reflexivity|].
  apply (flow_effect_out_keeps_invariant platform32_ok libsox_list_ok 5 copy_chain _
           SOX_SUCCESS).
  - exact copy_chain_ok.
  - simpl. lia.
  - left. vm_compute. reflexivity.
Defined.

Lemma block_read_fits_witness :
  let n := sox_read_wide 2 2 (fun n => Z.min n 10) in
  0 <= n * 2 <= sox_bufsiz
  /\ sched_ok (hand_over n 2 (mark_chain_empty copy_chain))
  /\ (sched_ok copy_chain -> sched_ok (hand_over n 2 copy_chain)).
Proof.
  apply (block_read_fits platform32_ok libsox_list_ok 2 2 (fun n => Z.min n 10) copy_chain).
  - lia.
  - intros n Hn. lia.
  - simpl. lia.
  - eapply list.Forall_impl; [exact copy_chain_ok|]. intros e He. exact (proj1 He).
Defined.

Lemma parse_playlist_expands_witness :
  match parse_playlist new_file nested_playlist [with_filename "z.wav" new_file] with
  | Ret files' =>
      readable nested_playlist = true
      /\ files' = [with_filename "z.wav" new_file]
                  ++ ((fun n => with_filename n new_file) <$> playlist_names nested_playlist)
      /\ (length [with_filename "z.wav" new_file] + length (playlist_names nested_playlist)
          <= MAX_FILES)%nat
  | Exit code msg =>
      code = 1
      /\ (msg = too_many_filenames \/ msg = cannot_open_playlist
          \/ msg = error_reading_playlist)
      /\ (readable nested_playlist = true ->
          msg = too_many_filenames
          /\ (MAX_FILES
              <= length [with_filename "z.wav" new_file]
                 + length (playlist_names nested_playlist))%nat)
  end.
Proof.
  apply (parse_playlist_expands new_file nested_playlist [with_filename "z.wav" new_file]).
  vm_compute. lia.
Defined.

Lemma open_inputs_reverse_order_witness :
  let (opened, o) :=
    open_inputs open_stereo no_replay_gain sox_globals 2 0 2 [] rec_files in
  match o with
  | Ret files' =>
      opened = reverse (filename <$> take 2 rec_files)
      /\ length files' = length rec_files
      /\ (forall j, (j < 2)%nat -> desc (files' !!! j) <> None)
      /\ (forall j, (2 <= j)%nat -> files' !!! j = rec_files !!! j)
  | Exit code _ =>
      code = 2
      /\ exists k, (k < 2)%nat /\ opened = reverse (filename <$> drop k (take 2 rec_files))
  end.
Proof.
  apply (open_inputs_reverse_order open_stereo no_replay_gain sox_globals 2 rec_files).
  simpl. lia.
Defined.

Lemma rec_device_signal_witness :
  exists opened files',
    open_inputs open_stereo no_replay_gain rec_globals 2 0 2 [] rec_files
    = (opened, Ret files')
    /\ si_rate (signal (files' !!! 0%nat))
       = si_rate (ft_signal (desc_of (files' !!! 1%nat)))
    /\ si_channels (signal (files' !!! 0%nat))
       = si_channels (ft_signal (desc_of (files' !!! 1%nat)))
    /\ exists before, opened = before ++ [filename (rec_files !!! 0%nat)].
Proof.
  eexists. eexists. split; [vm_compute; reflexivity|].
  apply (rec_device_signal open_stereo no_replay_gain rec_globals 2 _ rec_files).
  - reflexivity.
  - simpl. lia.
  - vm_compute. reflexivity.
Defined.

Lemma read_comment_file_strips_witness :
  read_comment_file (Holds (comment_text ++ replicate 2 newline))
  = if (length comment_text + 2 =? 0)%nat
    then Exit 1 "Error reading comment file"
    else Ret comment_text.
Proof.
  apply (read_comment_file_strips comment_text 2).
  - vm_compute. repeat (constructor; [discriminate|]). constructor.
  - exact comment_text_last.
Defined.

Lemma round_near_ok : rounding_ok round_near.
Proof.
  split.
  - intros a b Hab. unfold round_near. by rewrite Hab.
  - intros n Hn. unfold round_near. rewrite Qred_correct. reflexivity.
Qed.

Lemma since_elapsed_witness :
  (fst (since_double round_near first_signal second_signal (1 # 2) false) = true
   <-> (1 # 2) * inject_Z 1000000 <= inject_Z (elapsed_usec first_signal second_signal))%Q
  /\ snd (since_double round_near first_signal second_signal (1 # 2) false)
     = if fst (since_double round_near first_signal second_signal (1 # 2) false) || false
       then second_signal else first_signal.
Proof.
  apply (since_elapsed round_near first_signal second_signal (1 # 2) false).
  - exact round_near_ok.
  - vm_compute. split; discriminate || reflexivity.
  - vm_compute. split; discriminate || reflexivity.
  - exists 32. split; [reflexivity|]. vm_compute. discriminate.
  - vm_compute. discriminate.
Defined.

Lemma sigint_twice_witness :
  let st1 := sigint true sox_sequence first_signal SIGINT no_signal in
  let st2 := sigint true sox_sequence second_signal SIGINT st1 in
  if elapsed_usec first_signal second_signal <? 1000000
  then sg_user_abort st2 = true /\ user_skip st2 = user_skip st1
  else sg_user_abort st2 = sg_user_abort st1 /\ user_skip st2 = true.
Proof.
  apply (sigint_twice sox_sequence first_signal second_signal no_signal).
  - vm_compute. split; discriminate || reflexivity.
  - vm_compute. split; discriminate || reflexivity.
  - left. reflexivity.
Defined.

Lemma gain_lines_text : Forall text_line gain_lines.
Proof.
  unfold gain_lines.
  repeat (apply List.Forall_cons;
          [split; [vm_compute; repeat (constructor; [discriminate|]); constructor
                  |eexists _, _; split; reflexivity]|]).
  apply List.Forall_nil.
Qed.

Lemma find_replay_gain_prefers_witness :
  find_replay_gain atof_sign RG_track (join_lines gain_lines)
  = Some (atof_sign (String.list_ascii_of_string "-6.50 dB")).
Proof.
  etransitivity; [apply (find_replay_gain_prefers atof_sign RG_track gain_lines)|].
  - exact gain_lines_text.
  - vm_compute. reflexivity.
Defined.
